(** * dcli: the distributed command-execution engine of exacopilot

    A shallow embedding of [src/dcli.py]: the host-list builder
    ([buildCellList]), the command builder ([buildCommand]), the per-host
    worker ([WorkThread.run], [runCommand], [readNLines]), the coordinator
    ([copyAndExecute], [run_workThread], [remove_offending_keys]), the
    batch sizing ([update_max_threads]) and the driver ([main]).

    Python values are modelled as follows.
    - [str] is [string]; [int] is [Z]; the float of [--timeout] is [Q].
    - [None]-able values are [option]s; truthiness is written out
      ([truthy_str], [truthy_list], ...).
    - The dictionaries [status] and [output] are [gmap]s keyed by host.
    - Everything outside the interpreter (the file system, the spawned
      ssh/scp processes, DNS, the interpreter version) is read from an
      explicit [World] record of oracles.
    - Exceptions, [sys.exit] in a worker thread, [os._exit] and a wait that
      never returns are the constructors of [Res]. *)

From Stdlib Require Import ZArith QArith Ascii String DecimalString.
From stdpp Require Import base tactics option list gmap strings.

Local Open Scope Z_scope.

(** ** Python string primitives *)

Module PyStr.

(** Code points below 128 for which [str.isspace] holds. *)
Definition isspace (c : ascii) : bool :=
  let n := nat_of_ascii c in
  ((9 <=? n)%nat && (n <=? 13)%nat) || ((28 <=? n)%nat && (n <=? 32)%nat).

Fixpoint lstrip (s : string) : string :=
  match s with
  | EmptyString => EmptyString
  | String c s' => if isspace c then lstrip s' else s
  end.

Fixpoint rstrip (s : string) : string :=
  match s with
  | EmptyString => EmptyString
  | String c s' =>
      match rstrip s' with
      | EmptyString => if isspace c then EmptyString else String c EmptyString
      | t => String c t
      end
  end.

(** [s.strip()] *)
Definition strip (s : string) : string := rstrip (lstrip s).

(** [s.split(sep)] for a one-character separator: never the empty list. *)
Fixpoint split (sep : ascii) (s : string) : list string :=
  match s with
  | EmptyString => [EmptyString]
  | String c s' =>
      if Ascii.eqb c sep then EmptyString :: split sep s'
      else match split sep s' with
           | w :: ws => String c w :: ws
           | [] => [String c EmptyString]
           end
  end.

(** [s.startswith(p)] *)
Definition startswith (p s : string) : bool := String.prefix p s.

Fixpoint rev (s : string) : string :=
  match s with
  | EmptyString => EmptyString
  | String c s' => rev s' +:+ String c EmptyString
  end.

(** [s.endswith(p)] *)
Definition endswith (p s : string) : bool := String.prefix (rev p) (rev s).

(** [sub in s] *)
Definition contains (sub s : string) : bool :=
  match String.index 0 sub s with Some _ => true | None => false end.

(** [s.find(sub) < 0] *)
Definition find_fails (sub s : string) : bool := negb (contains sub s).

Definition lower_ascii (c : ascii) : ascii :=
  let n := nat_of_ascii c in
  if ((65 <=? n)%nat && (n <=? 90)%nat) then ascii_of_nat (n + 32) else c.

(** [s.lower()] on code points below 128 *)
Fixpoint lower (s : string) : string :=
  match s with
  | EmptyString => EmptyString
  | String c s' => String (lower_ascii c) (lower s')
  end.

(** [s.replace(old, new)] for a one-character [old] *)
Fixpoint replace_char (old : ascii) (new : string) (s : string) : string :=
  match s with
  | EmptyString => EmptyString
  | String c s' =>
      if Ascii.eqb c old then new +:+ replace_char old new s'
      else String c (replace_char old new s')
  end.

(** [s.replace(old, "")]: every non-overlapping occurrence of [old],
    scanning from the left, is dropped. [fuel] bounds the scan by the
    length of [s]. *)
Fixpoint remove_all_fuel (fuel : nat) (old s : string) : string :=
  match fuel with
  | O => s
  | S fuel' =>
      match s with
      | EmptyString => EmptyString
      | String c s' =>
          if (String.prefix old s && negb (String.eqb old EmptyString))%bool
          then remove_all_fuel fuel'
                 old (String.substring (String.length old)
                        (String.length s - String.length old) s)
          else String c (remove_all_fuel fuel' old s')
      end
  end.

Definition remove_all (old s : string) : string :=
  remove_all_fuel (String.length s) old s.

(** [str(n)] for an [int] *)
Definition of_Z (n : Z) : string := NilZero.string_of_int (Z.to_int n).

(** [s.split()]: the words between runs of whitespace. *)
Fixpoint split_ws (s : string) : list string :=
  match s with
  | EmptyString => []
  | String c s' =>
      if isspace c then split_ws s'
      else match s' with
           | EmptyString => [String c EmptyString]
           | String c' _ =>
               if isspace c' then String c EmptyString :: split_ws s'
               else match split_ws s' with
                    | w :: ws => String c w :: ws
                    | [] => [String c EmptyString]
                    end
           end
  end.

Definition truthy (s : string) : bool := negb (String.eqb s EmptyString).

(** The double-quote character, as a one-character string. *)
Definition dq : string := String (ascii_of_nat 34) EmptyString.
(** The backslash, the newline. *)
Definition bs : string := String (ascii_of_nat 92) EmptyString.
Definition nl : string := String (ascii_of_nat 10) EmptyString.

End PyStr.

(** Truthiness of the optional values the code tests with [if x:]. *)
Definition truthy_str (o : option string) : bool :=
  match o with Some s => PyStr.truthy s | None => false end.

Definition truthy_list {A} (o : option (list A)) : bool :=
  match o with Some (_ :: _) => true | _ => false end.

Definition truthy_Z (o : option Z) : bool :=
  match o with Some n => negb (n =? 0) | None => false end.

Definition truthy_Q (o : option Q) : bool :=
  match o with Some q => negb (Qeq_bool q 0) | None => false end.

Definition str_or_empty (o : option string) : string := default EmptyString o.
Definition list_or_empty {A} (o : option (list A)) : list A := default [] o.

(** ** Exceptions and results *)

(** The exceptions the modelled code raises or lets through. *)
Inductive exn : Type :=
| Error (msg : string)           (* class Error *)
| UsageError (msg : string)      (* class UsageError *)
| OSError (errno : Z)            (* built-in OSError *)
| OtherException (what : string)
| IOError (errno : Z).           (* a failed write, caught as IOError *)

(** The ways a piece of the program can end. *)
Inductive Res (A : Type) : Type :=
| Ok (a : A)
| Raised (e : exn)       (* an exception propagates *)
| SysExit (code : Z)     (* sys.exit(code): SystemExit propagates *)
| OsExit (code : Z)      (* os._exit(code): the process is gone *)
| Blocked.               (* a wait that never returns *)
Arguments Ok {A} a.
Arguments Raised {A} e.
Arguments SysExit {A} code.
Arguments OsExit {A} code.
Arguments Blocked {A}.

(** ** 4.1 HostSetBuilder: buildCellList *)

(** What [open(filename)] followed by [readlines()] gives. *)
Inductive FileRead : Type :=
| FileLines (lines : list string)
| FileIOError (errno : Z) (strerror : string).

Section BuildCellList.

Variable open_file : string -> FileRead.

(** The loop over [lines]: a stripped line is kept when it is not empty
    and does not start with [#]. *)
Definition keep_line (line : string) : bool :=
  (0 <? Z.of_nat (String.length line)) && negb (PyStr.startswith "#" line).

Fixpoint read_cells (celllist : list string) (lines : list string)
  : list string :=
  match lines with
  | [] => celllist
  | line :: rest =>
      let line := PyStr.strip line in
      if keep_line line then read_cells (celllist ++ [line]) rest
      else read_cells celllist rest
  end.

(** The inner loop over [cline.split(",")]. *)
Fixpoint append_split (celllist : list string) (cellSplit : list string)
  : list string :=
  match cellSplit with
  | [] => celllist
  | cell :: rest => append_split (celllist ++ [PyStr.strip cell]) rest
  end.

(** The loop over [cells]. *)
Fixpoint append_cells (celllist : list string) (cells : list string)
  : list string :=
  match cells with
  | [] => celllist
  | cline :: rest =>
      append_cells (append_split celllist (PyStr.split "," cline)) rest
  end.

(** The final loop: [if c not in uniqueCellList: uniqueCellList.append(c)]. *)
Definition unique_append (uniqueCellList : list string) (c : string)
  : list string :=
  if decide (c ∈ uniqueCellList) then uniqueCellList
  else uniqueCellList ++ [c].

Definition unique_from (uniqueCellList celllist : list string) : list string :=
  fold_left unique_append celllist uniqueCellList.

Definition io_error_msg (errno : Z) (filename strerror : string) : string :=
  "I/O error(" +:+ PyStr.of_Z errno +:+ ") on " +:+ filename +:+ ": "
    +:+ strerror.

(** The entries read from the host-list file, or the [Error] raised. *)
Definition file_cells (filename : option string) : Res (list string) :=
  if truthy_str filename then
    let filename := PyStr.strip (str_or_empty filename) in
    match open_file filename with
    | FileLines lines => Ok (read_cells [] lines)
    | FileIOError errno strerror =>
        Raised (Error (io_error_msg errno filename strerror))
    end
  else Ok [].

(** The entries given inline with [-c]. *)
Definition inline_cells (cells : option (list string)) : list string :=
  if truthy_list cells then append_cells [] (list_or_empty cells) else [].

Definition buildCellList (cells : option (list string))
    (filename : option string) : Res (list string) :=
  match file_cells filename with
  | Ok celllist =>
      let celllist :=
        if truthy_list cells
        then append_cells celllist (list_or_empty cells)
        else celllist in
      Ok (unique_from [] celllist)
  | Raised e => Raised e
  | SysExit c => SysExit c
  | OsExit c => OsExit c
  | Blocked => Blocked
  end.

End BuildCellList.

(** ** The world outside the interpreter *)

(** What a spawned shell command does, as far as the engine can see. *)
Inductive ChildOut : Type :=
| Text (lines : list string)    (* stdout, as [readline] splits it *)
| Undecodable.                  (* bytes the text decoding rejects *)

Inductive Child : Type :=
| Exits (after : Q) (out : ChildOut) (returncode : Z) (banner : list string)
    (* ends [after] seconds after its start; [banner] is what it wrote to
       its stderr, the temporary banner file *)
| NeverExits.

Inductive PopenResult : Type :=
| Popened (pid : Z) (child : Child)
| PopenOSError (errno : Z).

Inductive CallResult : Type :=
| CallReturns (status : Z)
| CallRaises (e : exn)
| CallNeverReturns.

Inductive MkstempResult : Type :=
| TempFile (name : string)
| MkstempOSError (errno : Z).

(** The oracles. The ones that spawn are indexed by the number of oracle
    calls made so far ([clock]), so that the same command may behave
    differently each time it is issued. *)
Record World : Type := {
  testmode : bool;                        (* Session.testmode *)
  python : Z * Z;                         (* sys.version_info[:2] *)
  open_file : string -> FileRead;         (* open(f).readlines() *)
  path_exists : string -> bool;           (* os.path.exists *)
  is_ipv6 : string -> bool;               (* socket.inet_pton(AF_INET6, _) succeeds *)
  b64encode : string -> string;           (* base64 of the password *)
  float_str : Q -> string;                (* "%s" % a float *)
  mkstemp : nat -> string -> MkstempResult;
  popen : nat -> string -> bool -> list string -> PopenResult;
     (* command, latin-1 decoding requested, lines written to stdin *)
  call : nat -> string -> CallResult;     (* subprocess.call(cmd, shell=True) *)
  exits_on_sigterm : Z -> bool;           (* by pid *)
  known_hosts : option string;            (* ~/.ssh/known_hosts, None: IOError *)
  gethostbyname : string -> option string;
  fd_limit : option Z;                    (* get_file_descriptor_limit *)
  rsa_pub : option string;                (* ~/.ssh/id_rsa.pub, if a file *)
  dsa_pub : bool;                         (* ~/.ssh/id_dsa.pub is a file *)
  keygen_rsa_pub : string + string;
     (* id_rsa.pub after ssh-keygen, or the text of the exception *)
  getpass : string;                       (* getpass.getpass("Password: ") *)
  check_file : string -> bool -> option string;
     (* checkFile(path, isExec): the message of the Error it raises *)
  re_compile : string -> option (string -> bool);
     (* re.compile(regexp): what compiledRE.match answers, None: re.error *)
  wait_bound_error : Q -> option string;
     (* child.communicate(timeout=t): the exception raised for a bound the
        wait cannot take (OverflowError), None when it takes it *)
  console_error : nat -> option Z
     (* a write of main to stdout or stderr: the errno of its IOError *)
}.

(** [sys.version_info >= (a, b)] and [sys.version_info[0] < 3]. *)
Definition version_ge (w : World) (a b : Z) : bool :=
  let '(major, minor) := python w in
  (a <? major) || ((a =? major) && (b <=? minor)).

(** ** The state of one run *)

Inductive Stage : Type :=
| KeyExchange | MakeDestDir | Copy | RunCommand | KeyDrop.

Inductive Signal : Type := SIGTERM | SIGKILL.

(** The observable steps of a run, oldest first in [trace]. Console
    output other than the chunks handed to [listResults] is not kept. *)
Inductive Event : Type :=
| EvStart (cell : string)        (* cellThread.start() *)
| EvDone (cell : string)         (* the coordinator saw the thread ended *)
| EvStage (cell : string) (stage : Stage) (cmd : string)
                                 (* run() calls runCommand for a stage *)
| EvSpawn (cell : string) (cmd : string)   (* Popen or subprocess.call *)
| EvExit (cell : string) (returncode : Z) (retry : bool)
    (* the exit status collected for a child, and whether
       retry_if_needed held for its output *)
| EvListResults (cell : string) (lines : list string)
                                 (* readNLines hands a chunk to listResults *)
| EvKill (pid : Z) (sig : Signal).

Record State : Type := {
  (* locals of copyAndExecute shared by the worker threads *)
  status : gmap string Z;
  output : gmap string (list string);
  badCells : list string;
  cells_need_retry : list string;
  waitList : list (string * bool);  (* started threads; [true]: never ends *)
  (* attributes of the WorkThread that is running *)
  output_truncated : bool;
  child_running : bool;             (* self.child.poll() == None *)
  (* bookkeeping of the model *)
  clock : nat;
  trace : list Event
}.

Definition init_state : State :=
  {| status := ∅; output := ∅; badCells := []; cells_need_retry := [];
     waitList := []; output_truncated := false; child_running := false;
     clock := O; trace := [] |}.

(** ** A state monad with the ways to end *)

Definition M (A : Type) : Type := State -> Res A * State.

Definition ret {A} (a : A) : M A := fun s => (Ok a, s).

Definition bind {A B} (m : M A) (f : A -> M B) : M B :=
  fun s =>
    match m s with
    | (Ok a, s') => f a s'
    | (Raised e, s') => (Raised e, s')
    | (SysExit c, s') => (SysExit c, s')
    | (OsExit c, s') => (OsExit c, s')
    | (Blocked, s') => (Blocked, s')
    end.

Notation "x <- m ;; k" := (bind m (fun x => k))
  (at level 100, m at next level, right associativity,
   format "'[v' x  <-  m  ;;  '/' k ']'").
Notation "m ;;; k" := (bind m (fun _ => k))
  (at level 100, right associativity).

Definition raise {A} (e : exn) : M A := fun s => (Raised e, s).
Definition sys_exit {A} (code : Z) : M A := fun s => (SysExit code, s).
Definition os_exit {A} (code : Z) : M A := fun s => (OsExit code, s).
Definition block {A} : M A := fun s => (Blocked, s).

Definition gets {A} (f : State -> A) : M A := fun s => (Ok (f s), s).
Definition modify (f : State -> State) : M unit := fun s => (Ok tt, f s).

(** The next oracle index. *)
Definition tick : M nat :=
  fun s => (Ok (clock s),
            {| status := status s; output := output s; badCells := badCells s;
               cells_need_retry := cells_need_retry s; waitList := waitList s;
               output_truncated := output_truncated s;
               child_running := child_running s;
               clock := S (clock s); trace := trace s |}).

Definition log (e : Event) : M unit :=
  modify (fun s =>
            {| status := status s; output := output s; badCells := badCells s;
               cells_need_retry := cells_need_retry s; waitList := waitList s;
               output_truncated := output_truncated s;
               child_running := child_running s;
               clock := clock s; trace := trace s ++ [e] |}).

Definition set_status_output (cell : string) (st : Z) (out : list string)
  : M unit :=
  modify (fun s =>
            {| status := <[cell := st]> (status s);
               output := <[cell := out]> (output s);
               badCells := badCells s;
               cells_need_retry := cells_need_retry s; waitList := waitList s;
               output_truncated := output_truncated s;
               child_running := child_running s;
               clock := clock s; trace := trace s |}).

Definition set_badCells (l : list string) : M unit :=
  modify (fun s =>
            {| status := status s; output := output s; badCells := l;
               cells_need_retry := cells_need_retry s; waitList := waitList s;
               output_truncated := output_truncated s;
               child_running := child_running s;
               clock := clock s; trace := trace s |}).

Definition set_cells_need_retry (l : list string) : M unit :=
  modify (fun s =>
            {| status := status s; output := output s; badCells := badCells s;
               cells_need_retry := l; waitList := waitList s;
               output_truncated := output_truncated s;
               child_running := child_running s;
               clock := clock s; trace := trace s |}).

Definition set_waitList (l : list (string * bool)) : M unit :=
  modify (fun s =>
            {| status := status s; output := output s; badCells := badCells s;
               cells_need_retry := cells_need_retry s; waitList := l;
               output_truncated := output_truncated s;
               child_running := child_running s;
               clock := clock s; trace := trace s |}).

Definition set_output_truncated (b : bool) : M unit :=
  modify (fun s =>
            {| status := status s; output := output s; badCells := badCells s;
               cells_need_retry := cells_need_retry s; waitList := waitList s;
               output_truncated := b;
               child_running := child_running s;
               clock := clock s; trace := trace s |}).

Definition set_child_running (b : bool) : M unit :=
  modify (fun s =>
            {| status := status s; output := output s; badCells := badCells s;
               cells_need_retry := cells_need_retry s; waitList := waitList s;
               output_truncated := output_truncated s;
               child_running := b;
               clock := clock s; trace := trace s |}).

(** The locals of one call of copyAndExecute are fresh; the oracle index
    and the trace go on. *)
Definition fresh_locals : M unit :=
  modify (fun s =>
            {| status := ∅; output := ∅; badCells := [];
               cells_need_retry := []; waitList := [];
               output_truncated := false; child_running := false;
               clock := clock s; trace := trace s |}).

(** [badCells.append(cell)] and the guarded form of the interactive path. *)
Definition badCells_append (cell : string) : M unit :=
  l <- gets badCells ;; set_badCells (l ++ [cell]).

Definition badCells_append_new (cell : string) : M unit :=
  l <- gets badCells ;;
  if decide (cell ∈ l) then ret tt else set_badCells (l ++ [cell]).

Definition cells_need_retry_append (cell : string) : M unit :=
  l <- gets cells_need_retry ;; set_cells_need_retry (l ++ [cell]).

(** ** Options and module constants *)

(** The values [parser.parse_args] returns (the [dest] of every option). *)
Module Options.
Record t : Type := {
  maxThds : Z;                       (* --batchsize, default 0 *)
  cells : option (list string);      (* -c, appended *)
  ctimeout : option Z;               (* --ctimeout *)
  destfile : option string;          (* -d *)
  file : option (list string);       (* -f, appended *)
  groupfile : option string;         (* -g *)
  hideStderr : bool;                 (* --hidestderr *)
  pushKey : bool;                    (* -k *)
  konepw : bool;                     (* --key-with-one-password *)
  userID : option string;            (* -l *)
  rootWithExaTmp : bool;             (* --root-exadatatmp *)
  maxLines : Z;                      (* --maxlines, default 100000 *)
  listNegatives : bool;              (* -n *)
  preserveSpaces : bool;             (* --preserve-spaces *)
  prompt : bool;                     (* --prompt *)
  regexp : option string;            (* -r *)
  sshOptions : option string;        (* -s *)
  scpOptions : option string;        (* --scp *)
  serializeOps : bool;               (* --serial *)
  showBanner : bool;                 (* --showbanner *)
  list_hosts : bool;                 (* -t, dest "list" *)
  timeout : option Q;                (* --timeout, a finite number *)
  dropKey : bool;                    (* --unkey *)
  verbosity : option Z;              (* -v, counted *)
  vmstatOps : option string;         (* --vmstat *)
  exec_file : option string          (* -x *)
}.

(** The defaults of the parser. *)
Definition default : t :=
  {| maxThds := 0; cells := None; ctimeout := None; destfile := None;
     file := None; groupfile := None; hideStderr := false;
     pushKey := false; konepw := false; userID := None;
     rootWithExaTmp := false; maxLines := 100000; listNegatives := false;
     preserveSpaces := false; prompt := false; regexp := None;
     sshOptions := None; scpOptions := None; serializeOps := false;
     showBanner := false; list_hosts := false; timeout := None;
     dropKey := false; verbosity := None; vmstatOps := None;
     exec_file := None |}.

Definition with_maxThds (n : Z) (o : t) : t :=
  {| maxThds := n; cells := cells o; ctimeout := ctimeout o;
     destfile := destfile o; file := file o; groupfile := groupfile o;
     hideStderr := hideStderr o; pushKey := pushKey o; konepw := konepw o;
     userID := userID o; rootWithExaTmp := rootWithExaTmp o;
     maxLines := maxLines o; listNegatives := listNegatives o;
     preserveSpaces := preserveSpaces o; prompt := prompt o;
     regexp := regexp o; sshOptions := sshOptions o;
     scpOptions := scpOptions o; serializeOps := serializeOps o;
     showBanner := showBanner o; list_hosts := list_hosts o;
     timeout := timeout o; dropKey := dropKey o; verbosity := verbosity o;
     vmstatOps := vmstatOps o; exec_file := exec_file o |}.

Definition with_files (f : option (list string)) (x : option string) (o : t)
  : t :=
  {| maxThds := maxThds o; cells := cells o; ctimeout := ctimeout o;
     destfile := destfile o; file := f; groupfile := groupfile o;
     hideStderr := hideStderr o; pushKey := pushKey o; konepw := konepw o;
     userID := userID o; rootWithExaTmp := rootWithExaTmp o;
     maxLines := maxLines o; listNegatives := listNegatives o;
     preserveSpaces := preserveSpaces o; prompt := prompt o;
     regexp := regexp o; sshOptions := sshOptions o;
     scpOptions := scpOptions o; serializeOps := serializeOps o;
     showBanner := showBanner o; list_hosts := list_hosts o;
     timeout := timeout o; dropKey := dropKey o; verbosity := verbosity o;
     vmstatOps := vmstatOps o; exec_file := x |}.
End Options.

Definition DEFAULT_CONNECTION_TIMEOUT : Z := 5.
Definition DEFAULT_USER : string := "celladmin".
Definition EXA_TMP_DIR : string := "/var/log/exadatatmp/".
Definition SSH : string := "/usr/bin/ssh".
Definition SCP : string := "/usr/bin/scp".
Definition SSH_OPTION_SERVERALIVEINTERVAL : string := "-o ServerAliveInterval=60".
Definition SSH_OPTION_SERVERALIVECOUNTMAX : string := "-o ServerAliveCountMax=5".
Definition SSH_OPTION_CONNECTTIMEOUT : string := "-o ConnectTimeout=".

(** ** 4.2 CommandBuilder: buildCommand *)

Definition join_words (command : string) (args : list string) : string :=
  fold_left (fun command word => command +:+ " " +:+ word) args command.

Definition buildCommand (w : World) (args : list string) (o : Options.t)
  : string :=
  let command := "(" in
  let command :=
    if Options.rootWithExaTmp o then command +:+ "cd " +:+ EXA_TMP_DIR +:+ ";"
    else command in
  let command := join_words command args in
  let command :=
    if Options.hideStderr o then command +:+ ") 2>/dev/null"
    else command +:+ ") 2>&1" in
  if truthy_Q (Options.timeout o) then
    "timeout " +:+ float_str w (default 0%Q (Options.timeout o))
      +:+ "s /bin/sh -c '(" +:+ command +:+ ")'"
  else command.

(** ** The locals of copyAndExecute *)

(** The first statements of copyAndExecute: values derived from the options. *)
Definition user (o : Options.t) : string :=
  if truthy_str (Options.userID o) then str_or_empty (Options.userID o)
  else if Options.rootWithExaTmp o then "root" else DEFAULT_USER.

Definition pushKey (o : Options.t) : bool :=
  Options.pushKey o || Options.konepw o.
Definition konepw (o : Options.t) : bool := Options.konepw o.
Definition dropKey (o : Options.t) : bool := Options.dropKey o.
Definition batchmode (o : Options.t) : bool :=
  negb (Options.prompt o || pushKey o).
Definition strictHostKeyChecking (o : Options.t) : bool :=
  negb (Options.prompt o || pushKey o).
Definition serialize (o : Options.t) : bool :=
  Options.serializeOps o || Options.pushKey o.

(** What a WorkThread reads: the arguments of copyAndExecute, the
    module-level [SSHKEY] and [Session.onepw], and the locals computed
    before the threads start ([files], [destname], the final [command]). *)
Record Pass : Type := {
  options : Options.t;
  cells : list string;
  exec_file : option string;
  destfile : option string;
  SSHKEY : list string;
  onepw : string;
  files : list string;
  destname : string;
  command : option string
}.

Definition basename (path : string) : string :=
  List.last (PyStr.split "/" path) EmptyString.

Definition isabs (path : string) : bool := PyStr.startswith "/" path.

Definition drop_last (s : string) : string :=
  PyStr.rev (match PyStr.rev s with String _ t => t | EmptyString => EmptyString end).

(** [re.match("^q.*q$", s)] for a quote character [q]: [.] matches no
    newline and [$] also matches before a final newline. *)
Definition quoted_exact (q : ascii) (s : string) : bool :=
  match s with
  | String c rest =>
      Ascii.eqb c q &&
      match PyStr.rev rest with
      | String c' m => Ascii.eqb c' q && negb (PyStr.contains PyStr.nl m)
      | EmptyString => false
      end
  | EmptyString => false
  end.

Definition re_match_quoted (q : ascii) (s : string) : bool :=
  quoted_exact q s || (PyStr.endswith PyStr.nl s && quoted_exact q (drop_last s)).

(** The command run for a copied executable. *)
Definition exec_command (o : Options.t) (exec_file destname basename : string)
  : string :=
  let command := "(" in
  let command :=
    if Options.rootWithExaTmp o then command +:+ "cd " +:+ EXA_TMP_DIR +:+ ";"
    else command in
  let command :=
    if PyStr.endswith ".scl" (PyStr.strip exec_file) then
      command +:+ "if [[ -d " +:+ destname +:+ " ]]; then cellcli -e @" +:+
        destname +:+ "/" +:+ basename +:+ " ; else cellcli -e @" +:+
        destname +:+ " ; fi"
    else
      command +:+ "if [[ -d " +:+ destname +:+ " ]]; then " +:+
        destname +:+ "/" +:+ basename +:+ " ; else " +:+
        destname +:+ " ; fi" in
  let command := command +:+ ")" in
  if Options.hideStderr o then command +:+ " 2>/dev/null"
  else command +:+ " 2>&1".

(** Single quotes around the command, unless it is quoted already. *)
Definition quote_command (command : option string) : option string :=
  match command with
  | Some c =>
      if PyStr.truthy c && negb (re_match_quoted "'" c || re_match_quoted (ascii_of_nat 34) c)
      then Some ("'" +:+ PyStr.replace_char "'" ("'" +:+ PyStr.bs +:+ "''") c +:+ "'")
      else Some c
  | None => None
  end.

(** [files], [destname] and [command] as copyAndExecute computes them. *)
Definition prepare (o : Options.t) (key : list string) (pw : string)
    (cells : list string) (copyfiles : option (list string))
    (exec_file destfile command : option string) : Pass :=
  let copy_or_exec_file := truthy_list copyfiles || truthy_str exec_file in
  let files :=
    if copy_or_exec_file then
      (if truthy_list copyfiles then map PyStr.strip (list_or_empty copyfiles)
       else [])
      ++ (if truthy_str exec_file then [PyStr.strip (str_or_empty exec_file)]
          else [])
    else [] in
  let base := basename (PyStr.strip (str_or_empty exec_file)) in
  let destname :=
    if copy_or_exec_file then
      let destname := if truthy_str exec_file then base else EmptyString in
      let destname :=
        if truthy_str destfile then str_or_empty destfile else destname in
      if negb (isabs destname
               || PyStr.startswith (PyStr.bs +:+ "~") destname
               || PyStr.startswith (PyStr.bs +:+ "$") destname)
      then (if Options.rootWithExaTmp o then EXA_TMP_DIR +:+ destname
            else "./" +:+ destname)
      else destname
    else EmptyString in
  let command :=
    if copy_or_exec_file && truthy_str exec_file
    then Some (exec_command o (str_or_empty exec_file) destname base)
    else command in
  {| options := o; cells := cells; exec_file := exec_file;
     destfile := destfile; SSHKEY := key; onepw := pw; files := files;
     destname := destname; command := quote_command command |}.

(** ** listResults *)

(** A line listResults writes to stdout. The lists of hosts are printed
    with Python's ["%s"] of a list; they are kept as lists here. *)
Inductive Printed : Type :=
| PrintOK (okCells : list string)              (* "OK: %s" *)
| PrintRE (regexp : string) (reCells : list string)   (* "%s: %s" *)
| PrintLine (cell text : string).              (* "%s: %s" *)

Section ListResults.

(** [re.compile(regexp)]: what [compiledRE.match] answers, or [None] when
    re.error is raised. *)
Variable re_compile : string -> option (string -> bool).

(** The hosts with a status that is 0. *)
Definition okCells (cells : list string) (statusMap : gmap string Z)
  : list string :=
  List.filter (fun cell =>
                 match statusMap !! cell with
                 | Some st => st =? 0
                 | None => false
                 end) cells.

(** The hosts with an output line that matches (the loop with [break]). *)
Definition reCells (compiledRE : string -> bool) (cells : list string)
    (outputMap : gmap string (list string)) : list string :=
  List.filter (fun cell =>
                 match outputMap !! cell with
                 | Some output =>
                     existsb (fun l => compiledRE (PyStr.strip l)) output
                 | None => false
                 end) cells.

(** The inner loop [for l in output] of the last loop. Under Python 2 a
    unicode line is encoded first; the text is the same. *)
Definition print_output (compiledRE : option (string -> bool))
    (preserveSpaces : bool) (cell : string) (output : list string)
  : list Printed :=
  map (fun l => PrintLine cell (if preserveSpaces then PyStr.rstrip l
                                else PyStr.strip l))
    (List.filter
       (fun l => match compiledRE with
                 | Some matches => negb (matches (PyStr.strip l))
                 | None => true
                 end) output).

(** The last loop: what was printed, and the KeyError of
    [statusMap[cell]] when it ends the loop. *)
Fixpoint print_cells (statusMap : gmap string Z)
    (outputMap : gmap string (list string)) (listNegatives : bool)
    (compiledRE : option (string -> bool)) (preserveSpaces : bool)
    (cells : list string) : list Printed * option exn :=
  match cells with
  | [] => ([], None)
  | cell :: rest =>
      let more :=
        print_cells statusMap outputMap listNegatives compiledRE
          preserveSpaces rest in
      match outputMap !! cell with
      | None => more
      | Some output =>
          let here :=
            print_output compiledRE preserveSpaces cell output in
          if negb listNegatives then (here ++ more.1, more.2)
          else match statusMap !! cell with
               | None => ([], Some (OtherException "KeyError"))
               | Some st =>
                   if 0 <? st then (here ++ more.1, more.2) else more
               end
      end
  end.

Definition listResults (cells : list string) (statusMap : gmap string Z)
    (outputMap : gmap string (list string)) (listNegatives : bool)
    (regexp : option string) (preserveSpaces : bool)
  : list Printed * option exn :=
  let ok :=
    if listNegatives then
      match okCells cells statusMap with
      | [] => []
      | okCells => [PrintOK okCells]
      end
    else [] in
  if truthy_str regexp then
    match re_compile (str_or_empty regexp) with
    | None => (ok, Some (OtherException "re.error"))
    | Some compiledRE =>
        let re :=
          match reCells compiledRE cells outputMap with
          | [] => []
          | reCells => [PrintRE (str_or_empty regexp) reCells]
          end in
        let body :=
          print_cells statusMap outputMap listNegatives (Some compiledRE)
            preserveSpaces cells in
        (ok ++ re ++ body.1, body.2)
    end
  else
    let body :=
      print_cells statusMap outputMap listNegatives None preserveSpaces
        cells in
    (ok ++ body.1, body.2).

(** The call in readNLines: the chunk of one host, with status 0. *)
Definition flush_chunk (o : Options.t) (cell : string)
    (outputLines : list string) : list Printed * option exn :=
  listResults [cell] {[cell := 0]} {[cell := outputLines]}
    (Options.listNegatives o) (Options.regexp o) (Options.preserveSpaces o).

End ListResults.

(** listResults called in a worker thread: what it prints is not kept,
    the exception that ends it goes on. *)
Definition listed (r : list Printed * option exn) : M unit :=
  match r.2 with
  | Some e => raise e
  | None => ret tt
  end.

(** ** 4.3 RemoteInvoker: the WorkThread *)

Section WorkThread.

Variable w : World.
Variable p : Pass.

Let o : Options.t := options p.

(** *** readNLines *)

(** The loop [for l in iter(r.readline, "")] with its counters. The
    chunk handed to listResults is recorded as an event; an exception of
    listResults (re.error for the pattern of -r) ends the loop. The two
    messages written to stderr at truncation are not kept: the writes of
    a worker thread are taken to succeed. *)
Fixpoint readNLines_loop (cell : string) (display_chunks : bool)
    (r : list string) (i : Z) (outputLines : list string)
  : M (list string) :=
  match r with
  | [] => ret outputLines
  | l :: r' =>
      let outputLines := outputLines ++ [l] in
      let i := i + 1 in
      if Options.maxLines o <? i then
        log (EvListResults cell outputLines) ;;;
        listed (flush_chunk (re_compile w) o cell outputLines) ;;;
        if display_chunks then readNLines_loop cell display_chunks r' 0 []
        else set_output_truncated true ;;; ret []
      else readNLines_loop cell display_chunks r' i outputLines
  end.

Definition readNLines (cell : string) (r : list string) (serialize : bool)
  : M (list string) :=
  let display_chunks :=
    serialize || (Z.of_nat (length (cells p)) =? 1) in
  readNLines_loop cell display_chunks r 0 [].

(** *** runCommand *)

Definition offending (line : string) : bool :=
  PyStr.contains "Offending key" line
  || PyStr.contains "Offending ECDSA key" line.

Definition retry_if_needed (banner_or_err stdout : list string) : bool :=
  if negb (konepw o) then false
  else existsb offending banner_or_err || existsb offending stdout.

Definition readLinesWithBanner (r banner : list string) : list string :=
  ["******BANNER******"] ++ banner ++ ["******BANNER******"] ++ r.

Definition sed_prefix (cell : string) : string :=
  "(sed " +:+ PyStr.dq +:+ "s/^/"
    +:+ PyStr.replace_char (ascii_of_nat 34) (PyStr.bs +:+ PyStr.dq) cell
    +:+ ": /" +:+ PyStr.dq.

Definition bash_command (cell sshCommand : string) : string :=
  "bash -c '"
    +:+ PyStr.replace_char "'" ("'" +:+ PyStr.bs +:+ "''")
          (PyStr.remove_all " 2>&1" sshCommand)
    +:+ " 1> >" +:+ sed_prefix cell +:+ ") "
    +:+ "2> >" +:+ sed_prefix cell +:+ " >&2); "
    +:+ "exit ${PIPESTATUS[0]}'".

(** The branch taken for [-k] without a shared password. *)
Definition runCommand_interactive (cell sshCommand : string)
  : M (Z * list string) :=
  let bash_command := bash_command cell sshCommand in
  n <- tick ;;
  log (EvSpawn cell bash_command) ;;;
  match call w n bash_command with
  | CallReturns status =>
      log (EvExit cell status false) ;;;
      (if negb (status =? 0) then badCells_append_new cell else ret tt) ;;;
      ret (status, [])
  | CallRaises _ =>
      badCells_append_new cell ;;;
      ret (1, [])
  | CallNeverReturns => block
  end.

(** [child.communicate(...)]: the decoded stdout with the exit status and
    the banner file the child leaves, or UnicodeDecodeError ([None]). A
    bound the wait cannot take (timeout + 2 too large) is an exception
    that no handler of runCommand catches. *)
Definition communicate (child : Child)
  : M (option (list string * Z * list string)) :=
  let decoded out returncode banner :=
    set_child_running false ;;;
    match out with
    | Text lines => ret (Some (lines, returncode, banner))
    | Undecodable => ret None
    end in
  if truthy_Q (Options.timeout o) && version_ge w 3 3 then
    match wait_bound_error w (default 0%Q (Options.timeout o) + 2)%Q with
    | Some what => raise (OtherException what)
    | None =>
        match child with
        | Exits after out returncode banner =>
            if Qle_bool after (default 0%Q (Options.timeout o) + 2)%Q
            then decoded out returncode banner
            else sys_exit 1        (* except subprocess.TimeoutExpired *)
        | NeverExits => sys_exit 1
        end
    end
  else
    match child with
    | Exits _ out returncode banner => decoded out returncode banner
    | NeverExits => block
    end.

(** execute_ssh_command together with [child.wait()] and
    [readBannerOrError]: the pid of the child that was waited for, the
    lines readNLines kept, the exit status and the banner. *)
Definition execute_ssh_command (cell sshCommand : string) (serialize : bool)
    (inputLines : list string) : M (Z * list string * Z * list string) :=
  n <- tick ;;
  log (EvSpawn cell sshCommand) ;;;
  match popen w n sshCommand false inputLines with
  | PopenOSError errno =>
      if errno =? 24 then os_exit 1 else raise (OSError errno)
  | Popened pid child =>
      set_child_running true ;;;
      c <- communicate child ;;
      match c with
      | Some (stdout, returncode, banner) =>
          l <- readNLines cell stdout serialize ;;
          ret (pid, l, returncode, banner)
      | None =>
          (* except UnicodeDecodeError: a second child, read as latin-1 *)
          n' <- tick ;;
          log (EvSpawn cell sshCommand) ;;;
          match popen w n' sshCommand true [] with
          | PopenOSError errno => raise (OSError errno)
          | Popened pid' child' =>
              set_child_running true ;;;
              c' <- communicate child' ;;
              match c' with
              | Some (stdout, returncode, banner) =>
                  l <- readNLines cell stdout serialize ;;
                  ret (pid', l, returncode, banner)
              | None => sys_exit 1
              end
          end
      end
  end.

Definition timeout_line (pid : Z) (cell : string) : string :=
  "Timeout expired for pid " +:+ PyStr.of_Z pid +:+ " to " +:+ cell
    +:+ "..." +:+ PyStr.nl.

(** The [if / elif / elif] on the return code. *)
Definition classify_exit (cell : string) (pid returncode : Z)
    (banner_or_err l : list string) : M (list string) :=
  log (EvExit cell returncode (retry_if_needed banner_or_err l)) ;;;
  if returncode =? 124 then ret (l ++ [timeout_line pid cell])
  else if retry_if_needed banner_or_err l then
    cells_need_retry_append cell ;;; ret l
  else if returncode =? 255 then
    badCells_append cell ;;; ret l
  else ret l.

(** SIGTERM, then SIGKILL when the child is still there after the polls. *)
Definition kill_child (pid : Z) : M unit :=
  log (EvKill pid SIGTERM) ;;;
  (if exits_on_sigterm w pid then ret tt else log (EvKill pid SIGKILL)) ;;;
  set_child_running false.

Definition runCommand (cell sshCommand : string) (serialize : bool)
    (inputLines : list string) : M (Z * list string) :=
  if pushKey o && negb (konepw o)
     && negb (match inputLines with [] => false | _ => true end)
  then runCommand_interactive cell sshCommand
  else
    n <- tick ;;
    match mkstemp w n ("." +:+ cell) with
    | MkstempOSError errno =>
        if errno =? 24 then os_exit 1 else raise (OSError errno)
    | TempFile tmpBannerFile =>
        let sshCommand := sshCommand +:+ " 2>" +:+ tmpBannerFile in
        r <- execute_ssh_command cell sshCommand serialize inputLines ;;
        let '(pid, l, returncode, banner_or_err) := r in
        let status := returncode in            (* status = child.wait() *)
        l <- classify_exit cell pid returncode banner_or_err l ;;
        truncated <- gets output_truncated ;;
        running <- gets child_running ;;
        (if truncated && running then kill_child pid else ret tt) ;;;
        let l :=
          if truthy_str (command p) then
            if status =? 255 then l
            else if Options.showBanner o
                 then readLinesWithBanner l banner_or_err else l
          else l in
        truncated <- gets output_truncated ;;
        let status := if truncated then 1 else status in
        ret (status, l)
    end.

(** *** run *)

Definition opString : string :=
  let s := " " in
  let s :=
    if truthy_str (Options.sshOptions o)
    then s +:+ str_or_empty (Options.sshOptions o) +:+ " " else s in
  let s := if batchmode o then s +:+ "-o BatchMode=yes " else s in
  let s :=
    if strictHostKeyChecking o then s +:+ "-o strictHostKeyChecking=yes "
    else s in
  let s :=
    if truthy_Z (Options.ctimeout o)
    then s +:+ SSH_OPTION_CONNECTTIMEOUT
           +:+ PyStr.of_Z (default 0 (Options.ctimeout o)) +:+ " "
    else s +:+ SSH_OPTION_CONNECTTIMEOUT
           +:+ PyStr.of_Z DEFAULT_CONNECTION_TIMEOUT +:+ " " in
  let lowered := PyStr.lower (str_or_empty (Options.sshOptions o)) in
  let s :=
    if negb (truthy_str (Options.sshOptions o))
       || PyStr.find_fails "serveraliveinterval=" lowered
    then s +:+ SSH_OPTION_SERVERALIVEINTERVAL +:+ " " else s in
  if negb (truthy_str (Options.sshOptions o))
     || PyStr.find_fails "serveralivecountmax=" lowered
  then s +:+ SSH_OPTION_SERVERALIVECOUNTMAX +:+ " " else s.

Definition scpOpString : string :=
  let s :=
    if truthy_str (Options.scpOptions o)
    then " " +:+ str_or_empty (Options.scpOptions o) +:+ " "
    else opString in
  if truthy_str (exec_file p) && PyStr.find_fails "-p" s
  then s +:+ "-p " else s.

Definition sshUser : string :=
  if PyStr.truthy (user o) then "-l " +:+ user o +:+ " " else EmptyString.

Definition scpHost (cell : string) : string :=
  let scpHost :=
    match files p with
    | [] => cell
    | _ => if is_ipv6 w cell then "[" +:+ cell +:+ "]" else cell
    end in
  if PyStr.truthy (user o) then user o +:+ "@" +:+ scpHost else scpHost.

(** [keys]: the first key, and the second after an escaped bar. *)
Definition keys : string :=
  match SSHKEY p with
  | [] => EmptyString
  | [k0] => k0
  | k0 :: k1 :: _ => k0 +:+ PyStr.bs +:+ "|" +:+ k1
  end.

Definition key0 : string := hd EmptyString (SSHKEY p).

Definition echo_if_test (cmd : string) : string :=
  if testmode w then "echo " +:+ cmd else cmd.

Definition push_command (cell : string) : string :=
  "ssh " +:+ opString +:+ sshUser +:+ cell +:+
  " " +:+ PyStr.dq +:+ " cd; mkdir -pm 700 .ssh; if grep '^" +:+ PyStr.bs
  +:+ "s*" +:+ keys +:+
  "' .ssh/authorized_keys  > /dev/null 2>&1 ; then echo ssh key already exists ; elif echo '"
  +:+ key0 +:+ "' >> .ssh/authorized_keys ; then chmod 644 .ssh/authorized_keys ;"
  +:+ " echo ssh key added ; fi " +:+ PyStr.dq.

(** The expect script fed to the child for --key-with-one-password. *)
Definition expect_input (sshCommand : string) : list string :=
  [ "spawn -noecho " +:+ sshCommand;
    "expect {";
    PyStr.dq +:+ "Permission denied*" +:+ PyStr.dq +:+ " { exit 255 }";
    "*password: {";
    "set encoded_pw {" +:+ b64encode w (onepw p) +:+ "}";
    "set decoded_pw [exec printf %s " +:+ "$encoded_pw | base64 -d]";
    "send -- " +:+ PyStr.dq +:+ "$decoded_pw" +:+ PyStr.bs +:+ "n" +:+ PyStr.dq;
    "exp_continue }";
    "*yes/no*)? {send yes" +:+ PyStr.bs +:+ "n";
    "exp_continue }";
    "}" ].

Definition drop_command (cell : string) : string :=
  "ssh " +:+ opString +:+ sshUser +:+ cell +:+
  " " +:+ PyStr.dq +:+ " if ! grep '^" +:+ PyStr.bs +:+ "s*" +:+ keys +:+
  "' .ssh/authorized_keys > /dev/null 2>&1 ; then echo ssh key did not exist ; elif "
  +:+ "cp -f .ssh/authorized_keys .ssh/authorized_keys__;sed -i''  --follow-symlinks '"
  +:+ PyStr.bs +:+ "%^" +:+ PyStr.bs +:+ "s*" +:+
  keys +:+ "%d' .ssh/authorized_keys ; then " +:+
  " rm -f .ssh/authorized_keys__;echo ssh key dropped ; fi " +:+ PyStr.dq.

Definition ssh_or_echo : string := if testmode w then "echo ssh " else SSH.

Definition list_string : string :=
  fold_left (fun acc item_file => acc +:+ " " +:+ item_file) (files p)
    EmptyString.

Definition scpCommand (cell : string) : string :=
  if testmode w
  then "echo scp " +:+ list_string +:+ " " +:+ scpHost cell +:+ ":" +:+ destname p
  else SCP +:+ scpOpString +:+ list_string +:+ " " +:+ scpHost cell +:+ ":"
         +:+ destname p.

Definition key_present : bool :=
  match SSHKEY p with [] => false | _ => true end.

Definition files_present : bool :=
  match files p with [] => false | _ => true end.

(** One stage: [childStatus] and [childOutput] go in and come out. *)
Definition run_stage (cell : string) (stage : Stage) (cmd : string)
    (serialize : bool) (inputLines : list string)
    (childOutput : list string) : M (Z * list string) :=
  log (EvStage cell stage cmd) ;;;
  r <- runCommand cell cmd serialize inputLines ;;
  ret (r.1, childOutput ++ r.2).

Definition stage_key_exchange (cell : string) (st : Z * list string)
  : M (Z * list string) :=
  if key_present && pushKey o then
    let sshCommand := push_command cell in
    let childInput := if konepw o then expect_input sshCommand else [] in
    let sshCommand := if konepw o then "expect" else sshCommand in
    run_stage cell KeyExchange (echo_if_test sshCommand) true childInput st.2
  else ret st.

Definition stage_mkdir (cell : string) (st : Z * list string)
  : M (Z * list string) :=
  if (st.1 =? 0) && truthy_str (destfile p)
     && PyStr.endswith "/" (str_or_empty (destfile p)) then
    let mkdir_command := " 'mkdir -p " +:+ str_or_empty (destfile p) +:+ "'" in
    run_stage cell MakeDestDir
      (ssh_or_echo +:+ opString +:+ sshUser +:+ cell +:+ " " +:+ mkdir_command)
      (serialize o) [] st.2
  else ret st.

Definition stage_copy (cell : string) (st : Z * list string)
  : M (Z * list string) :=
  if (st.1 =? 0) && files_present then
    run_stage cell Copy (scpCommand cell) (serialize o) [] st.2
  else ret st.

Definition stage_command (cell : string) (st : Z * list string)
  : M (Z * list string) :=
  if (st.1 =? 0) && truthy_str (command p) then
    run_stage cell RunCommand
      (ssh_or_echo +:+ opString +:+ sshUser +:+ cell +:+ " "
         +:+ str_or_empty (command p))
      (serialize o) [] st.2
  else ret st.

Definition stage_key_drop (cell : string) (st : Z * list string)
  : M (Z * list string) :=
  if (st.1 =? 0) && key_present && dropKey o then
    run_stage cell KeyDrop (echo_if_test (drop_command cell)) (serialize o)
      [] st.2
  else ret st.

(** The stages before the key drop. *)
Definition run_before_drop (cell : string) : M (Z * list string) :=
  st <- stage_key_exchange cell (0, []) ;;
  st <- stage_mkdir cell st ;;
  st <- stage_copy cell st ;;
  stage_command cell st.

(** WorkThread.run *)
Definition run (cell : string) : M unit :=
  st <- run_before_drop cell ;;
  st <- stage_key_drop cell st ;;
  set_status_output cell st.1 st.2.

End WorkThread.

(** ** 4.4 ExecutionCoordinator: copyAndExecute *)

Section Coordinator.

Variable w : World.
Variable p : Pass.

(** [WorkThread(cell)] and [cellThread.start()]. The body of the thread
    is run to its end at this point: worker threads touch only their own
    keys of [status] and [output] and append only their own host to the
    shared lists, so this is one of the schedules and the others differ
    in the order of the shared lists and of the trace only. The result
    tells whether the thread never ends. An exception or SystemExit ends
    the thread alone; os._exit ends the process. *)
Definition start_thread (cell : string) : M bool :=
  fun s =>
    match (set_output_truncated false ;;; set_child_running false ;;;
           log (EvStart cell) ;;; run w p cell) s with
    | (Ok _, s') => (Ok false, s')
    | (Raised _, s') => (Ok false, s')
    | (SysExit _, s') => (Ok false, s')
    | (OsExit c, s') => (OsExit c, s')
    | (Blocked, s') => (Ok true, s')
    end.

(** [while thread.isAlive(): thread.join(1)] *)
Definition join (cell : string) (never_ends : bool) : M unit :=
  if never_ends then block else log (EvDone cell).

Fixpoint start_all (all_cells : list string) : M unit :=
  match all_cells with
  | [] => ret tt
  | cell :: rest =>
      never_ends <- start_thread cell ;;
      (if serialize (options p) then join cell never_ends
       else wl <- gets waitList ;; set_waitList (wl ++ [(cell, never_ends)])) ;;;
      start_all rest
  end.

Fixpoint join_all (wl : list (string * bool)) : M unit :=
  match wl with
  | [] => ret tt
  | (cell, never_ends) :: rest => join cell never_ends ;;; join_all rest
  end.

Definition run_workThread (all_cells : list string) : M unit :=
  start_all all_cells ;;;
  wl <- gets waitList ;;
  join_all wl.

(** remove_offending_keys: the hosts found in known_hosts by name or by
    resolved address. The ssh-keygen calls change only that file. *)
Definition able_to_retry (cell : string) : bool :=
  match known_hosts w with
  | None => false                     (* except IOError *)
  | Some known_hosts_content =>
      PyStr.contains cell known_hosts_content
      || match gethostbyname w cell with
         | Some ip_address =>
             PyStr.truthy ip_address
             && PyStr.contains ip_address known_hosts_content
         | None => false
         end
  end.

Definition remove_offending_keys (cells_need_retry : list string)
  : list string :=
  List.filter able_to_retry cells_need_retry.

Definition run_passes : M (gmap string Z * gmap string (list string)
                           * list string) :=
  run_workThread (cells p) ;;;
  retry <- gets cells_need_retry ;;
  (match retry with
   | [] => ret tt
   | _ => run_workThread (remove_offending_keys retry)
   end) ;;;
  st <- gets status ;;
  out <- gets output ;;
  bad <- gets badCells ;;
  ret (st, out, bad).

End Coordinator.

Definition copyAndExecute (w : World) (key : list string) (pw : string)
    (cells : list string) (copyfiles : option (list string))
    (exec_file destfile command : option string) (o : Options.t)
  : M (gmap string Z * gmap string (list string) * list string) :=
  fresh_locals ;;;
  if (truthy_str command || truthy_str exec_file)
     && negb (testmode w) && negb (path_exists w SSH)
  then raise (Error ("SSH program does not exist: " +:+ SSH +:+ " "))
  else if (truthy_list copyfiles || truthy_str exec_file)
          && negb (testmode w) && negb (path_exists w SCP)
  then raise (Error ("SCP program does not exist: " +:+ SCP +:+ " "))
  else
    run_passes w (prepare o key pw cells copyfiles exec_file destfile command).

(** ** 4.5 BatchScheduler: update_max_threads *)

Definition FDS_PER_CELL : Z := 7.
Definition RESERVED_FDS : Z := 10.

(** The returned flag and the options as the call leaves them. *)
Definition update_max_threads (w : World) (o : Options.t) : bool * Options.t :=
  if negb (Options.maxThds o =? 0) || Options.serializeOps o then (false, o)
  else
    match fd_limit w with
    | None => (false, o)
    | Some fd_limit =>
        let max_threads := (fd_limit - RESERVED_FDS) / FDS_PER_CELL in
        if max_threads <? 1 then (false, o)
        else (true, Options.with_maxThds max_threads o)
    end.

(** ** main *)

(** checkKeys, from an empty [SSHKEY]. *)
Definition checkKeys (w : World) (verbose : bool) : Res (list string) :=
  let generated :=
    match keygen_rsa_pub w with
    | inl key => Ok [PyStr.strip key]
    | inr e =>
        Raised (Error ("Failed to auto-generate RSA key pair for the current "
                         +:+ "user: " +:+ e
                         +:+ ". Run 'ssh-keygen -t rsa' to generate an SSH key"
                         +:+ " pair." +:+ PyStr.nl))
    end in
  if testmode w then Ok ["ThisIsYourKey"]
  else match rsa_pub w with
       | Some key => Ok [PyStr.strip key]
       | None =>
           if dsa_pub w && verbose
           then Raised (OtherException "IndexError")   (* SSHKEY[-1] *)
           else generated
       end.

Definition lift {A} (r : Res A) : M A := fun s => (r, s).

(** [max(list(statusMap.values()) + [returnValue])] *)
Definition max_status (statusMap : gmap string Z) (returnValue : Z) : Z :=
  foldr Z.max returnValue (snd <$> map_to_list statusMap).

(** A write of main to the console, [print] or [sys.stderr.write]: main
    catches the IOError of a write that fails. *)
Definition write_console (w : World) : M unit :=
  n <- tick ;;
  match console_error w n with
  | Some errno => raise (IOError errno)
  | None => ret tt
  end.

Fixpoint print_lines (w : World) (lines : list Printed) : M unit :=
  match lines with
  | [] => ret tt
  | _ :: rest => write_console w ;;; print_lines w rest
  end.

(** listResults as main calls it: the lines are written one by one, and
    the exception that ends listResults goes on. *)
Definition list_results (w : World) (clist : list string)
    (statusMap : gmap string Z) (outputMap : gmap string (list string))
    (o : Options.t) : M unit :=
  let r :=
    listResults (re_compile w) clist statusMap outputMap
      (Options.listNegatives o) (Options.regexp o)
      (Options.preserveSpaces o) in
  print_lines w r.1 ;;; listed r.

(** The loop over the batches, for a request without --vmstat.
    [batchBegin] is an index into [clist]; the checks of main leave
    [maxThds] at 0 or at 1 and more, so that [S (length clist)] rounds of
    [fuel] are enough. *)
Fixpoint batch_loop (w : World) (o : Options.t) (key : list string)
    (pw : string) (command : option string) (clist : list string)
    (fuel : nat) (batchBegin : nat) (returnValue : Z) : M Z :=
  match fuel with
  | O => raise (OtherException "batch_loop: out of fuel")
  | S fuel' =>
      let len := Z.of_nat (length clist) in
      let batchEnd :=
        if (Options.maxThds o =? 0)
           || (len - Z.of_nat batchBegin <=? Options.maxThds o)
        then length clist
        else Z.to_nat (Z.of_nat batchBegin + Options.maxThds o) in
      let cells := take (batchEnd - batchBegin) (drop batchBegin clist) in
      r <- copyAndExecute w key pw cells (Options.file o)
             (Options.exec_file o) (Options.destfile o) command o ;;
      let '(statusMap, outputMap, badCells) := r in
      let returnValue :=
        match badCells with [] => returnValue | _ => 1 end in
      (* sys.stderr.write("Unable to connect to hosts: ...") *)
      (match badCells with [] => ret tt | _ => write_console w end) ;;;
      list_results w clist statusMap outputMap o ;;;
      let returnValue := max_status statusMap returnValue in
      if (batchEnd =? length clist)%nat then ret returnValue
      else batch_loop w o key pw command clist fuel' batchEnd returnValue
  end.

Definition usage {A} (b : bool) (msg : string) (k : M A) : M A :=
  if b then raise (UsageError msg) else k.

(** The [try] block of main, for options without --vmstat. The prints of
    --list and of -v before the first batch are left out: no host has
    been contacted then, and a write that fails there ends main with 2 as
    the checks around it do. *)
Definition main_body (w : World) (o : Options.t) (args : list string) : M Z :=
  let o :=
    Options.with_files
      (if truthy_list (Options.file o)
       then Some (concat (map PyStr.split_ws (list_or_empty (Options.file o))))
       else Options.file o)
      (if truthy_str (Options.exec_file o)
       then Some (PyStr.strip (str_or_empty (Options.exec_file o)))
       else Options.exec_file o) o in
  let command :=
    match args with [] => None | _ => Some (buildCommand w args o) end in
  usage (negb (truthy_str command)
         && negb (Options.list_hosts o || truthy_str (Options.exec_file o)
                  || truthy_list (Options.file o) || Options.pushKey o
                  || Options.konepw o || Options.dropKey o))
    "No command specified." (
  usage (truthy_str command && truthy_str (Options.exec_file o))
    "Cannot specify both command and exec file" (
  usage (truthy_list (Options.file o) && truthy_str (Options.exec_file o))
    "Cannot specify both copy file and exec file" (
  usage (Options.hideStderr o && (Z.of_nat (length args) =? 0))
    "hidestderr(--hi) option is only used when remote command is specified" (
  usage (Options.listNegatives o && truthy_str (Options.regexp o))
    "Cannot specify both non-error and regular expression abbrevation options" (
  key <- (if Options.pushKey o || Options.konepw o || Options.dropKey o
          then lift (checkKeys w (truthy_Z (Options.verbosity o)))
          else ret []) ;;
  usage (match Options.ctimeout o with Some t => t <? 0 | None => false end)
    "--ctimeout value must be a positive number" (
  usage (truthy_str (Options.userID o) && Options.rootWithExaTmp o
         && negb (String.eqb (str_or_empty (Options.userID o)) "root"))
    "root-exadatatmp implies root user. It cannot be used with other user IDs" (
  clist <- lift (buildCellList (open_file w) (Options.cells o)
                   (Options.groupfile o)) ;;
  usage (negb (Options.maxThds o =? 0) && Options.serializeOps o)
    "Cannot specify both serial mode and batch mode" (
  usage (negb (Options.maxThds o =? 0) && (Options.maxThds o <? 1))
    "Cannot specify batchsize less than 1" (
  let o :=
    if (1 <? Z.of_nat (length clist)) then (update_max_threads w o).2 else o in
  usage (Z.of_nat (length clist) =? 0) "No hosts specified." (
  let check path isExec (k : M Z) : M Z :=
    match check_file w path isExec with
    | Some msg => raise (Error msg)
    | None => k
    end in
  (if truthy_str (Options.exec_file o)
   then check (str_or_empty (Options.exec_file o)) true
   else fun k => k) (
  fold_right (fun item_file k => check item_file false k) (
  usage (truthy_str (Options.destfile o)
         && negb (truthy_str (Options.exec_file o)
                  || truthy_list (Options.file o)))
    "Cannot specify destination without copy file or exec file" (
  let pw := if Options.konepw o then getpass w else EmptyString in
  batch_loop w o key pw command clist (S (length clist)) 0 0))
  (if truthy_list (Options.file o) then list_or_empty (Options.file o)
   else [])))))))))))).

(** main: the [except] clauses turn UsageError, Error and IOError into 2
    (OSError too from Python 3 on, where IOError is OSError), and the
    last line is
    [return returnValue and 1]. The messages that the handlers write are
    not kept. The sampling loop of --vmstat is not modelled: there the
    result is [None]. *)
Definition main (w : World) (o : Options.t) (args : list string)
  : option (Res Z * State) :=
  match Options.vmstatOps o with
  | Some _ => None
  | None =>
      Some
        match main_body w o args init_state with
        | (Ok returnValue, s) => (Ok (if returnValue =? 0 then 0 else 1), s)
        | (Raised (UsageError _), s) => (Ok 2, s)
        | (Raised (Error _), s) => (Ok 2, s)
        | (Raised (IOError _), s) => (Ok 2, s)
        | (Raised (OSError errno), s) =>
            if version_ge w 3 0 then (Ok 2, s) else (Raised (OSError errno), s)
        | r => r
        end
  end.

(** The exit code of the process for [sys.exit(main())]: an uncaught
    exception ends the interpreter with 1; a blocked run has none. *)
Definition exit_code (r : Res Z) : option Z :=
  match r with
  | Ok code => Some code
  | Raised _ => Some 1
  | SysExit code => Some code
  | OsExit code => Some code
  | Blocked => None
  end.

(** ** Observations on traces *)

Definition Stage_eqb (a b : Stage) : bool :=
  match a, b with
  | KeyExchange, KeyExchange | MakeDestDir, MakeDestDir | Copy, Copy
  | RunCommand, RunCommand | KeyDrop, KeyDrop => true
  | _, _ => false
  end.

(** [run] reached the call of runCommand for [stage] on [cell]. *)
Definition attempted (cell : string) (stage : Stage) (tr : list Event) : bool :=
  existsb (fun e =>
             match e with
             | EvStage c st _ => String.eqb c cell && Stage_eqb st stage
             | _ => false
             end) tr.

(** The events a worker thread produces below [run]: no thread start or
    end, no stage entry, and a retry request only under
    --key-with-one-password. *)
Definition spawn_event (o : Options.t) (e : Event) : Prop :=
  match e with
  | EvStart _ | EvDone _ | EvStage _ _ _ => False
  | EvExit _ _ retry => retry = true -> konepw o = true
  | _ => True
  end.

(** The events of the stages before the key drop. *)
Definition before_drop_event (o : Options.t) (e : Event) : Prop :=
  match e with
  | EvStage _ KeyDrop _ => False
  | EvStage _ _ _ => True
  | _ => spawn_event o e
  end.

(** The events of a worker thread. *)
Definition worker_event (o : Options.t) (e : Event) : Prop :=
  match e with
  | EvStage _ _ _ => True
  | _ => spawn_event o e
  end.

(** The events of a pass of the coordinator. *)
Definition pass_event (o : Options.t) (e : Event) : Prop :=
  match e with
  | EvStart _ | EvDone _ => True
  | _ => worker_event o e
  end.

(** Hosts are run strictly one at a time: no thread is started while
    another one, started before, has not been seen to end. [live] is the
    thread the coordinator has started and not yet seen ended. *)
Fixpoint one_at_a_time_from (live : option string) (evs : list Event) : bool :=
  match evs with
  | [] => true
  | EvStart c :: rest =>
      match live with
      | None => one_at_a_time_from (Some c) rest
      | Some _ => false
      end
  | EvDone c :: rest =>
      one_at_a_time_from
        (match live with
         | Some c' => if String.eqb c c' then None else live
         | None => None
         end) rest
  | _ :: rest => one_at_a_time_from live rest
  end.

Definition one_at_a_time (evs : list Event) : bool :=
  one_at_a_time_from None evs.

(** What a piece of the run adds: events of a given kind at the end of the
    trace; hosts added to [badCells], none removed; and every exit status
    255 collected without a retry request has its host in [badCells]. *)
Definition steps (P : Event -> Prop) (s s' : State) : Prop :=
  exists evs,
    trace s' = trace s ++ evs
    /\ Forall P evs
    /\ (forall c, c ∈ badCells s -> c ∈ badCells s')
    /\ (forall c, In (EvExit c 255 false) evs -> c ∈ badCells s').

Definition mono {A} (R : State -> State -> Prop) (m : M A) : Prop :=
  forall s, R s (m s).2.

(** What a piece of the run does with the retry requests, [k] being
    --key-with-one-password: hosts are appended to [cells_need_retry] and
    to [badCells]; every exit status other than 124 collected with a
    retry request has its host appended to [cells_need_retry], and only
    such hosts are appended to it, and only under [k]; under [k] a host
    is appended to [badCells] only by an exit status 255 collected
    without a retry request. *)
Definition retried (k : bool) (s s' : State) : Prop :=
  exists evs b r,
    trace s' = trace s ++ evs
    /\ badCells s' = badCells s ++ b
    /\ cells_need_retry s' = cells_need_retry s ++ r
    /\ (forall c rc, rc <> 124 -> In (EvExit c rc true) evs -> c ∈ r)
    /\ (forall c, c ∈ r -> k = true /\ exists rc, In (EvExit c rc true) evs)
    /\ (k = true -> forall c, c ∈ b -> In (EvExit c 255 false) evs).

(** ** Scenarios *)

(** A host-list file with a comment, a blank line and a repeated host. *)
Definition hosts_fs (f : string) : FileRead :=
  if String.eqb f "mycells"
  then FileLines ["h1" +:+ PyStr.nl; "# spares" +:+ PyStr.nl; PyStr.nl;
                  " h2 " +:+ PyStr.nl; "h1" +:+ PyStr.nl]
  else FileIOError 2 "No such file or directory".

(** A pattern matcher for the examples: lines that begin with "hi". *)
Definition compile_hi (regexp : string) : option (string -> bool) :=
  Some (fun l => String.prefix "hi" l).

(** A world in which ssh and scp exist, a key pair exists, and every
    spawned command behaves as [child_of] says for its text. *)
Definition mk_world (py : Z * Z) (child_of : string -> Child)
    (fd : option Z) (kh : option string) : World :=
  {| testmode := false; python := py; open_file := hosts_fs;
     path_exists := fun _ => true; is_ipv6 := fun _ => false;
     b64encode := fun _ => "c2VjcmV0"; float_str := fun _ => "3.0";
     mkstemp := fun _ suffix => TempFile ("/tmp/banner_x" +:+ suffix);
     popen := fun n cmd _ _ => Popened (4000 + Z.of_nat n) (child_of cmd);
     call := fun _ _ => CallReturns 0;
     exits_on_sigterm := fun _ => true;
     known_hosts := kh; gethostbyname := fun _ => None;
     fd_limit := fd;
     rsa_pub := Some "ssh-rsa AAAAB3Nza me@admin"; dsa_pub := false;
     keygen_rsa_pub := inr "not called";
     getpass := "secret"; check_file := fun _ _ => None;
     re_compile := compile_hi;
     wait_bound_error :=
       fun t => if Qle_bool t (2147483647 # 1000) then None
                else Some "OverflowError";
     console_error := fun _ => None |}.

(** The same world with other answers of the console and of re.compile. *)
Definition with_console (f : nat -> option Z)
    (g : string -> option (string -> bool)) (w : World) : World :=
  {| testmode := testmode w; python := python w; open_file := open_file w;
     path_exists := path_exists w; is_ipv6 := is_ipv6 w;
     b64encode := b64encode w; float_str := float_str w;
     mkstemp := mkstemp w; popen := popen w; call := call w;
     exits_on_sigterm := exits_on_sigterm w;
     known_hosts := known_hosts w; gethostbyname := gethostbyname w;
     fd_limit := fd_limit w; rsa_pub := rsa_pub w; dsa_pub := dsa_pub w;
     keygen_rsa_pub := keygen_rsa_pub w; getpass := getpass w;
     check_file := check_file w; re_compile := g;
     wait_bound_error := wait_bound_error w; console_error := f |}.

Definition request (cells : list string) (file : option (list string))
    (k onepw unkey serial : bool) (timeout : option Q) (maxLines : Z)
  : Options.t :=
  {| Options.maxThds := 0; Options.cells := Some cells;
     Options.ctimeout := None; Options.destfile := None;
     Options.file := file; Options.groupfile := None;
     Options.hideStderr := false; Options.pushKey := k;
     Options.konepw := onepw; Options.userID := None;
     Options.rootWithExaTmp := false; Options.maxLines := maxLines;
     Options.listNegatives := false; Options.preserveSpaces := false;
     Options.prompt := false; Options.regexp := None;
     Options.sshOptions := None; Options.scpOptions := None;
     Options.serializeOps := serial; Options.showBanner := false;
     Options.list_hosts := false; Options.timeout := timeout;
     Options.dropKey := unkey; Options.verbosity := None;
     Options.vmstatOps := None; Options.exec_file := None |}.

Definition says_hi : Child := Exits 1 (Text ["hi" +:+ PyStr.nl]) 0 [].

(** Every command prints a line and succeeds. *)
Definition greets (cmd : string) : Child := says_hi.

(** scp fails with status 1, every ssh command succeeds. *)
Definition scp_fails (cmd : string) : Child :=
  if PyStr.startswith SCP cmd
  then Exits 1 (Text []) 1 ["scp: notes.txt: Permission denied" +:+ PyStr.nl]
  else says_hi.

(** The host key of the target has changed: the session warns, password
    authentication is refused, and the child ends with 255. *)
Definition stale_host_key (cmd : string) : Child :=
  Exits 1
    (Text ["WARNING: REMOTE HOST IDENTIFICATION HAS CHANGED!" +:+ PyStr.nl;
           "Offending ECDSA key in /root/.ssh/known_hosts:3" +:+ PyStr.nl;
           "Permission denied (publickey,password)." +:+ PyStr.nl])
    255 [].

(** ssh is killed by SIGKILL: Popen reports -9. *)
Definition killed (cmd : string) : Child := Exits 1 (Text []) (-9) [].


(** The remote node is wedged: the child never ends. *)
Definition wedged (cmd : string) : Child := NeverExits.

(** The child is still running when [bound] seconds have passed. *)
Definition outlasts (child : Child) (bound : Q) : bool :=
  match child with
  | Exits after _ _ _ => negb (Qle_bool after bound)
  | NeverExits => true
  end.

(** The capturing branch of runCommand is taken (not the interactive one). *)
Definition captured (o : Options.t) (inputLines : list string) : bool :=
  negb (pushKey o && negb (konepw o)
        && negb (match inputLines with [] => false | _ => true end)).

(** The pattern of -r, when there is one, compiles: listResults does not
    end with re.error. *)
Definition pattern_compiles (w : World) (o : Options.t) : bool :=
  negb (truthy_str (Options.regexp o))
  || match re_compile w (str_or_empty (Options.regexp o)) with
     | Some _ => true
     | None => false
     end.


(** The invocations of the examples. *)
Definition the_key : list string := ["ssh-rsa AAAAB3Nza me@admin"].

(** [dcli -c h1 -f notes.txt --unkey] *)
Definition copy_unkey : Options.t :=
  request ["h1"] (Some ["notes.txt"]) false false true false None 100000.

(** [dcli -c h1 --unkey] *)
Definition unkey_pass : Pass :=
  prepare (request ["h1"] None false false true false None 100000)
    the_key EmptyString ["h1"] None None None None.

(** [dcli -c h1,h2 --key-with-one-password] *)
Definition key_onepw : Options.t :=
  request ["h1,h2"] None false true false false None 100000.

(** [dcli -c h1,h2 -k] *)
Definition key_k_pass : Pass :=
  prepare (request ["h1,h2"] None true false false false None 100000)
    the_key EmptyString ["h1"; "h2"] None None None None.

(** [dcli -c h1 echo hi] and [dcli -c h1,h2 echo hi], with options. *)
Definition echo_hi (cells : list string) (timeout : option Q) (maxLines : Z)
  : Options.t :=
  request cells None false false false false timeout maxLines.

Definition echo_pass (cells : list string) (timeout : option Q)
    (maxLines : Z) : Pass :=
  prepare (echo_hi cells timeout maxLines) [] EmptyString cells None None None
    (Some "(echo hi) 2>&1").

(** A child that prints three lines. *)
Definition chatty (cmd : string) : Child :=
  Exits 1 (Text ["a" +:+ PyStr.nl; "b" +:+ PyStr.nl; "c" +:+ PyStr.nl]) 0 [].

(** A world for the interactive branch: the n-th call ends as [answer]. *)
Definition mk_world_call (answer : CallResult) : World :=
  {| testmode := false; python := (3, 9); open_file := hosts_fs;
     path_exists := fun _ => true; is_ipv6 := fun _ => false;
     b64encode := fun _ => "c2VjcmV0"; float_str := fun _ => "3.0";
     mkstemp := fun _ suffix => TempFile ("/tmp/banner_x" +:+ suffix);
     popen := fun n cmd _ _ => Popened (4000 + Z.of_nat n) says_hi;
     call := fun _ _ => answer;
     exits_on_sigterm := fun _ => true;
     known_hosts := None; gethostbyname := fun _ => None;
     fd_limit := Some 1024;
     rsa_pub := Some "ssh-rsa AAAAB3Nza me@admin"; dsa_pub := false;
     keygen_rsa_pub := inr "not called";
     getpass := "secret"; check_file := fun _ _ => None;
     re_compile := compile_hi;
     wait_bound_error :=
       fun t => if Qle_bool t (2147483647 # 1000) then None
                else Some "OverflowError";
     console_error := fun _ => None |}.


(** Reading the result of main. *)
Definition outcome (r : option (Res Z * State)) : option (Res Z) :=
  fst <$> r.

Definition final_state (r : option (Res Z * State)) : State :=
  match r with Some (_, s) => s | None => init_state end.

Definition ok_or {A} (d : A) (r : Res A) : A :=
  match r with Ok a => a | _ => d end.


(** The runs of the examples. *)
Definition failed_copy_run : option (Res Z * State) :=
  main (mk_world (3, 9) scp_fails (Some 1024) None) copy_unkey [].

(** known_hosts with hashed host names: no host name is found in it. *)
Definition hashed_known_hosts : string :=
  "|1|kRqwZ0X2bQ8=|m3n9P0aT7cE= ssh-ed25519 AAAAC3Nza".

Definition stale_key_run : option (Res Z * State) :=
  main (mk_world (3, 9) stale_host_key (Some 1024) (Some hashed_known_hosts))
    key_onepw [].

Definition onepw_run : option (Res Z * State) :=
  main (mk_world (3, 9) greets (Some 1024) None) key_onepw [].

Definition wedged_py2_run : option (Res Z * State) :=
  main (mk_world (2, 7) wedged (Some 1024) None)
    (echo_hi ["h1"] (Some 3%Q) 100000) ["echo"; "hi"].

Definition wedged_py3_run : option (Res Z * State) :=
  main (mk_world (3, 9) wedged (Some 1024) None)
    (echo_hi ["h1"] (Some 3%Q) 100000) ["echo"; "hi"].

Definition killed_run : option (Res Z * State) :=
  main (mk_world (3, 9) killed (Some 1024) None)
    (echo_hi ["h1"] None 100000) ["echo"; "hi"].


(** [dcli -c h1 echo hi] on a host that cannot be reached, with a console
    that is a pipe nobody reads: every write fails with EPIPE. *)
Definition broken_pipe_run : option (Res Z * State) :=
  main (with_console (fun _ => Some 32) compile_hi
          (mk_world (3, 9) stale_host_key (Some 1024) None))
    (echo_hi ["h1"] None 100000) ["echo"; "hi"].

(** [dcli -c cells --maxlines n -r "(" echo hi]: a pattern that
    re.compile turns down. *)
Definition bad_pattern (cells : list string) (maxLines : Z) : Options.t :=
  {| Options.maxThds := 0; Options.cells := Some cells;
     Options.ctimeout := None; Options.destfile := None;
     Options.file := None; Options.groupfile := None;
     Options.hideStderr := false; Options.pushKey := false;
     Options.konepw := false; Options.userID := None;
     Options.rootWithExaTmp := false; Options.maxLines := maxLines;
     Options.listNegatives := false; Options.preserveSpaces := false;
     Options.prompt := false; Options.regexp := Some "(";
     Options.sshOptions := None; Options.scpOptions := None;
     Options.serializeOps := false; Options.showBanner := false;
     Options.list_hosts := false; Options.timeout := None;
     Options.dropKey := false; Options.verbosity := None;
     Options.vmstatOps := None; Options.exec_file := None |}.

Definition bad_pattern_run : option (Res Z * State) :=
  main (with_console (fun _ => None) (fun _ => None)
          (mk_world (3, 9) greets (Some 1024) None))
    (bad_pattern ["h1"] 100000) ["echo"; "hi"].

(** The second command of two hosts prints three lines with
    [--maxlines 2] and that pattern. *)
Definition bad_pattern_chunk_run : Res (Z * list string) * State :=
  runCommand (with_console (fun _ => None) (fun _ => None)
                (mk_world (3, 9) chatty (Some 1024) None))
    (prepare (bad_pattern ["h1"; "h2"] 2) [] EmptyString ["h1"; "h2"] None
       None None (Some "(echo hi) 2>&1"))
    "h1" "/usr/bin/ssh h1 yes" false [] init_state.

(** [dcli -c h1 --timeout 2147482 echo hi]: the bound of the wait is
    more than poll takes. *)
Definition long_timeout_run : Res (Z * list string) * State :=
  runCommand (mk_world (3, 9) greets (Some 1024) None)
    (echo_pass ["h1"] (Some 2147482%Q) 100000) "h1" "/usr/bin/ssh h1 true"
    false [] init_state.

(** The exit statuses collected in a run, oldest first. *)
Definition exits (tr : list Event) : list Event :=
  List.filter (fun e => match e with EvExit _ _ _ => true | _ => false end)
    tr.

(** [dcli -c h1,h2 --key-with-one-password --maxlines 1] on hosts whose
    key has changed: the warning is in the first chunk of output. *)
Definition flushed_warning_run : option (Res Z * State) :=
  main (mk_world (3, 9) stale_host_key (Some 1024) (Some hashed_known_hosts))
    (request ["h1,h2"] None false true false false None 1) [].




(** The ways a pass of the coordinator can end: it returns, the process
    is ended by os._exit, a join never returns, or one of the exceptions
    [errs] is raised. A SystemExit never leaves a worker thread. *)
Definition allowed (errs : exn -> Prop) {A} (r : Res A) : Prop :=
  match r with
  | Ok _ | OsExit _ | Blocked => True
  | Raised e => errs e
  | SysExit _ => False
  end.

Definition is_Error (e : exn) : Prop :=
  match e with Error _ => True | _ => False end.

(** An exception none of the [except] clauses of main is for. *)
Definition is_Other (e : exn) : Prop :=
  match e with OtherException _ => True | _ => False end.

(** Every exception but the one the model raises when [batch_loop] has
    used up its fuel. *)
Definition not_fuel (e : exn) : Prop :=
  e <> OtherException "batch_loop: out of fuel".

(** ** Further observations *)

(** [c in s] for a character. *)
Fixpoint has_char (c : ascii) (s : string) : bool :=
  match s with
  | EmptyString => false
  | String d s' => Ascii.eqb d c || has_char c s'
  end.

(** The host an event is about; a signal is sent to a pid. *)
Definition event_host (e : Event) : option string :=
  match e with
  | EvStart c | EvDone c | EvStage c _ _ | EvSpawn c _ | EvExit c _ _
  | EvListResults c _ => Some c
  | EvKill _ _ => None
  end.

Definition in_hosts (H : string -> Prop) (e : Event) : Prop :=
  match event_host e with Some c => H c | None => True end.

(** What a part of a pass does to the shared state, for a set [H] of
    hosts: it adds events about hosts of [H]; it appends hosts of [H] to
    [badCells] and to [cells_need_retry], the latter only under
    --key-with-one-password ([k]); it leaves [status] and [output] of the
    other hosts as they are; it appends threads of hosts of [H] to
    [waitList]. *)
Definition touches (H : string -> Prop) (k : bool) (s s' : State) : Prop :=
  (exists evs, trace s' = trace s ++ evs /\ Forall (in_hosts H) evs)
  /\ (exists b, badCells s' = badCells s ++ b /\ Forall H b)
  /\ (exists r, cells_need_retry s' = cells_need_retry s ++ r
                /\ Forall H r /\ (k = false -> r = []))
  /\ (forall c, ~ H c ->
                status s' !! c = status s !! c
                /\ output s' !! c = output s !! c)
  /\ (exists wl, waitList s' = waitList s ++ wl
                 /\ Forall (fun x => H x.1) wl).

(** What the worker thread of [cell] does: it touches its own host only
    and leaves [waitList] alone. *)
Definition worker_touch (cell : string) (k : bool) (s s' : State) : Prop :=
  touches (eq cell) k s s' /\ waitList s' = waitList s.

(** The hosts for which a thread was started, in order. *)
Definition started (evs : list Event) : list string :=
  omap (fun e => match e with EvStart c => Some c | _ => None end) evs.

(** [dcli -c h1,h2 echo hi] on hosts that answer: one call of
    copyAndExecute for both. *)
Definition two_hosts_run
  : Res (gmap string Z * gmap string (list string) * list string) * State :=
  copyAndExecute (mk_world (3, 9) greets (Some 1024) None) [] EmptyString
    ["h1"; "h2"] None None None (Some "(echo hi) 2>&1")
    (echo_hi ["h1"; "h2"] None 100000) init_state.

(** A part of a pass starts threads for the hosts [l], in this order. *)
Definition adds (l : list string) (s s' : State) : Prop :=
  exists evs, trace s' = trace s ++ evs /\ started evs = l.

(** The check copyAndExecute makes before it starts a thread: ssh or scp
    is needed and is not there. *)
Definition tools_missing (w : World) (copyfiles : option (list string))
    (exec_file command : option string) : bool :=
  (truthy_str command || truthy_str exec_file)
  && negb (testmode w) && negb (path_exists w SSH)
  || (truthy_list copyfiles || truthy_str exec_file)
     && negb (testmode w) && negb (path_exists w SCP).

(** [dcli -c h1,h2 echo hi] on hosts that answer. *)
Definition two_hosts_main_run : option (Res Z * State) :=
  main (mk_world (3, 9) greets (Some 1024) None)
    (echo_hi ["h1,h2"] None 100000) ["echo"; "hi"].


(** [dcli -c h1 -n -r hi echo hi] *)
Definition negatives_and_regexp : Options.t :=
  {| Options.maxThds := 0; Options.cells := Some ["h1"];
     Options.ctimeout := None; Options.destfile := None;
     Options.file := None; Options.groupfile := None;
     Options.hideStderr := false; Options.pushKey := false;
     Options.konepw := false; Options.userID := None;
     Options.rootWithExaTmp := false; Options.maxLines := 100000;
     Options.listNegatives := true; Options.preserveSpaces := false;
     Options.prompt := false; Options.regexp := Some "hi";
     Options.sshOptions := None; Options.scpOptions := None;
     Options.serializeOps := false; Options.showBanner := false;
     Options.list_hosts := false; Options.timeout := None;
     Options.dropKey := false; Options.verbosity := None;
     Options.vmstatOps := None; Options.exec_file := None |}.

(** The stages a thread entered, in order. *)
Definition stages (evs : list Event) : list Stage :=
  omap (fun e => match e with EvStage _ st _ => Some st | _ => None end) evs.

(** A part of a thread enters some of the stages [l], in this order. *)
Definition enters (l : list Stage) (s s' : State) : Prop :=
  exists evs, trace s' = trace s ++ evs /\ sublist (stages evs) l.

(** The hosts a printed line names. *)
Definition names (c : string) (x : Printed) : Prop :=
  match x with
  | PrintOK l => c ∈ l
  | PrintRE _ l => c ∈ l
  | PrintLine c' _ => c' = c
  end.

(** The maps of two hosts: h1 ended by SIGKILL, h2 with status 1. *)
Definition two_statuses : gmap string Z := <["h1" := -9]> {["h2" := 1]}.
Definition two_outputs : gmap string (list string) :=
  <["h1" := ["partial "]]> {["h2" := [" no such file "]]}.

(** [status] and [output] have the same hosts. *)
Definition same_keys (s : State) : Prop :=
  forall c, is_Some (status s !! c) <-> is_Some (output s !! c).

(** A part of the run keeps a property of the state. *)
Definition keeps (I : State -> Prop) (s s' : State) : Prop := I s -> I s'.

(** ** checkVmstat *)

Section CheckVmstat.

(** The built-in [int] on a string: [None] stands for ValueError. *)
Variable py_int : string -> option Z.

Definition getInt (num_str : string) : option Z := py_int num_str.

(** [op in ("-f","-s","-m","-p","-D", "-d","-V")] *)
Definition non_periodic (op : string) : bool :=
  existsb (String.eqb op) ["-f"; "-s"; "-m"; "-p"; "-D"; "-d"; "-V"].

(** The loop over the options; [None] is the [return None, None] in it. *)
Fixpoint checkVmstat_loop (vmOpts : list string) (repeat delay : option Z)
    (vmstatCommand : string) : option (option Z * option Z * string) :=
  match vmOpts with
  | [] => Some (repeat, delay, vmstatCommand)
  | op :: rest =>
      if non_periodic op then None
      else
        let num := getInt op in
        if match num with Some n => n <? 1 | None => false end then None
        else if truthy_Z num then
          if truthy_Z repeat then None
          else if truthy_Z delay then
            checkVmstat_loop rest num delay vmstatCommand
          else checkVmstat_loop rest repeat num vmstatCommand
        else if negb (String.eqb op "-n") then
          checkVmstat_loop rest repeat delay (vmstatCommand +:+ op +:+ " ")
        else checkVmstat_loop rest repeat delay vmstatCommand
  end.

(** The repeat count and the command: both, or neither. *)
Definition checkVmstat (vmstatOptions : string) : option Z * option string :=
  match checkVmstat_loop (PyStr.split_ws vmstatOptions) None None "vmstat "
  with
  | None => (None, None)
  | Some (repeat, delay, vmstatCommand) =>
      if truthy_Z delay then
        let vmstatCommand :=
          vmstatCommand +:+ PyStr.of_Z (default 0 delay) +:+ " " in
        let repeat := if negb (truthy_Z repeat) then Some (-1) else repeat in
        (repeat, Some vmstatCommand)
      else (Some 1, Some (vmstatCommand +:+ "1 "))
  end.

(** The options read as a whole: an option that is not periodic or a
    number below 1 spoils them; the numbers are the delay and the count;
    the other options but -n are passed on. *)
Definition vm_spoilt (vmOpts : list string) : bool :=
  existsb non_periodic vmOpts
  || existsb (fun op => match getInt op with
                        | Some n => n <? 1
                        | None => false
                        end) vmOpts.

Definition vm_numbers (vmOpts : list string) : list Z := omap getInt vmOpts.

Fixpoint vm_passed_on (vmOpts : list string) : string :=
  match vmOpts with
  | [] => EmptyString
  | op :: rest =>
      match getInt op with
      | Some _ => vm_passed_on rest
      | None =>
          if String.eqb op "-n" then vm_passed_on rest
          else op +:+ " " +:+ vm_passed_on rest
      end
  end.

Definition checkVmstat_table (vmstatOptions : string)
  : option Z * option string :=
  let vmOpts := PyStr.split_ws vmstatOptions in
  if vm_spoilt vmOpts then (None, None)
  else
    match vm_numbers vmOpts with
    | [] => (Some 1, Some ("vmstat " +:+ vm_passed_on vmOpts +:+ "1 "))
    | [delay] =>
        (Some (-1),
         Some ("vmstat " +:+ vm_passed_on vmOpts +:+ PyStr.of_Z delay
                 +:+ " "))
    | [delay; count] =>
        (Some count,
         Some ("vmstat " +:+ vm_passed_on vmOpts +:+ PyStr.of_Z delay
                 +:+ " "))
    | _ => (None, None)
    end.

End CheckVmstat.

(** ** Failing stages *)

(** A child of the thread ended with a status that is not 0. *)
Definition failed (evs : list Event) : Prop :=
  exists c rc retry, In (EvExit c rc retry) evs /\ rc <> 0.

(** No stage is entered after a child ended with a status that is not 0. *)
Fixpoint fail_fast (evs : list Event) : Prop :=
  match evs with
  | [] => True
  | EvExit _ rc _ :: rest => (rc <> 0 -> stages rest = []) /\ fail_fast rest
  | _ :: rest => fail_fast rest
  end.

(** A part of a thread that stops at a failure and returns it. *)
Definition stops_at_failure (m : M (Z * list string)) : Prop :=
  forall s,
    exists evs,
      trace (m s).2 = trace s ++ evs
      /\ fail_fast evs
      /\ (forall st, (m s).1 = Ok st -> failed evs -> st.1 <> 0).

(** The events that are not an exit status. *)
Definition no_exit (e : Event) : Prop :=
  match e with EvExit _ _ _ => False | _ => True end.

(** ** listVmstatLine *)

(** [s.rjust(width)] *)
Definition rjust (width : Z) (s : string) : string :=
  string_of_list_ascii
    (repeat " "%char (Z.to_nat (width - Z.of_nat (String.length s))))
  +:+ s.

(** The loop of listVmstatLine over values that are strings already;
    [None] is the IndexError of [widths[i]]. *)
Fixpoint listVmstatLine_loop (widths : list Z) (values : list string)
    (result : string) {struct values} : option string :=
  match values with
  | [] => Some result
  | v :: values' =>
      match widths with
      | [] => None
      | width :: widths' =>
          listVmstatLine_loop widths' values' (result +:+ rjust width v +:+ " ")
      end
  end.

Definition listVmstatLine (widths : list Z) (values : list string)
  : option string :=
  listVmstatLine_loop widths values EmptyString.

(** The room the fields take: a value is given its width, or its own
    length when it is longer, and one space. *)
Fixpoint fields_room (widths : list Z) (values : list string) : Z :=
  match widths, values with
  | width :: widths', v :: values' =>
      Z.max width (Z.of_nat (String.length v)) + 1 + fields_room widths' values'
  | _, _ => 0
  end.

(** * Properties *)

(** ** The monad and what a step preserves *)

Lemma steps_refl (P : Event -> Prop) (s : State) : steps P s s.
Proof.
  exists []. rewrite app_nil_r. repeat split; auto. intros c [].
Qed.

Lemma steps_trans (P : Event -> Prop) (s1 s2 s3 : State) :
  steps P s1 s2 -> steps P s2 s3 -> steps P s1 s3.
Proof.
  intros (e1 & H1 & F1 & B1 & X1) (e2 & H2 & F2 & B2 & X2).
  exists (e1 ++ e2). split; [by rewrite H2, H1, app_assoc|].
  split; [by apply Forall_app|]. split; [auto|].
  intros c [Hin|Hin]%in_app_or; auto.
Qed.

Lemma steps_weaken (P Q : Event -> Prop) (s s' : State) :
  (forall e, P e -> Q e) -> steps P s s' -> steps Q s s'.
Proof.
  intros HPQ (evs & H & F & B & X). exists evs. repeat split; auto.
  eapply Forall_impl; eauto.
Qed.

Lemma mono_weaken {A} (P Q : Event -> Prop) (m : M A) :
  (forall e, P e -> Q e) -> mono (steps P) m -> mono (steps Q) m.
Proof. intros HPQ Hm s. eapply steps_weaken; eauto. Qed.

Section Mono.

Variable P : Event -> Prop.

Lemma mono_ret {A} (a : A) : mono (steps P) (ret a).
Proof. intros s. apply steps_refl. Qed.

Lemma mono_bind {A B} (m : M A) (f : A -> M B) :
  mono (steps P) m -> (forall a, mono (steps P) (f a)) ->
  mono (steps P) (bind m f).
Proof.
  intros Hm Hf s. unfold bind. specialize (Hm s).
  destruct (m s) as [[a| | | |] s']; simpl in *; try exact Hm.
  eapply steps_trans; [exact Hm|]. apply Hf.
Qed.

Lemma mono_gets {A} (f : State -> A) : mono (steps P) (gets f).
Proof. intros s. apply steps_refl. Qed.

Lemma mono_raise {A} (e : exn) : mono (steps P) (@raise A e).
Proof. intros s. apply steps_refl. Qed.

Lemma mono_sys_exit {A} (c : Z) : mono (steps P) (@sys_exit A c).
Proof. intros s. apply steps_refl. Qed.

Lemma mono_os_exit {A} (c : Z) : mono (steps P) (@os_exit A c).
Proof. intros s. apply steps_refl. Qed.

Lemma mono_block {A} : mono (steps P) (@block A).
Proof. intros s. apply steps_refl. Qed.

Lemma mono_lift {A} (r : Res A) : mono (steps P) (lift r).
Proof. intros s. apply steps_refl. Qed.

Lemma mono_listed (r : list Printed * option exn) : mono (steps P) (listed r).
Proof. intros s. unfold listed. destruct r.2; apply steps_refl. Qed.

(** A change of the state that leaves the trace and [badCells] alone. *)
Lemma mono_modify_quiet (f : State -> State) :
  (forall s, trace (f s) = trace s) ->
  (forall s, badCells (f s) = badCells s) ->
  mono (steps P) (modify f).
Proof.
  intros Ht Hb s. exists []. simpl. rewrite Ht, Hb, app_nil_r.
  repeat split; auto. intros c [].
Qed.

Lemma mono_tick : mono (steps P) tick.
Proof.
  intros s. exists []. simpl. rewrite app_nil_r.
  repeat split; auto. intros c [].
Qed.

Lemma mono_log (e : Event) :
  P e -> (forall c, e <> EvExit c 255 false) -> mono (steps P) (log e).
Proof.
  intros HP Hne s. exists [e]. simpl. repeat split; auto.
  intros c [Heq|[]]. by destruct (Hne c).
Qed.

Lemma mono_set_status_output (cell : string) (st : Z) (out : list string) :
  mono (steps P) (set_status_output cell st out).
Proof. by apply mono_modify_quiet. Qed.

Lemma mono_set_cells_need_retry (l : list string) :
  mono (steps P) (set_cells_need_retry l).
Proof. by apply mono_modify_quiet. Qed.

Lemma mono_set_waitList (l : list (string * bool)) :
  mono (steps P) (set_waitList l).
Proof. by apply mono_modify_quiet. Qed.

Lemma mono_set_output_truncated (b : bool) :
  mono (steps P) (set_output_truncated b).
Proof. by apply mono_modify_quiet. Qed.

Lemma mono_set_child_running (b : bool) :
  mono (steps P) (set_child_running b).
Proof. by apply mono_modify_quiet. Qed.

Lemma mono_badCells_append (cell : string) :
  mono (steps P) (badCells_append cell).
Proof.
  intros s. exists []. simpl. rewrite app_nil_r.
  repeat split; auto.
  - intros c Hc. apply elem_of_app. by left.
  - intros c [].
Qed.

Lemma mono_badCells_append_new (cell : string) :
  mono (steps P) (badCells_append_new cell).
Proof.
  intros s. exists []. unfold badCells_append_new, bind, gets. simpl.
  destruct (decide (cell ∈ badCells s)); simpl; rewrite app_nil_r;
    (split; [done|]); (split; [done|]); (split; [|by intros ? ?]).
  - auto.
  - intros c0 Hc. apply elem_of_app. by left.
Qed.

Lemma mono_cells_need_retry_append (cell : string) :
  mono (steps P) (cells_need_retry_append cell).
Proof.
  unfold cells_need_retry_append. apply mono_bind; [apply mono_gets|].
  intros l. apply mono_set_cells_need_retry.
Qed.

(** Logging an event and then running [m]: when the event is an exit
    with 255 and no retry request, [m] must leave the host in
    [badCells]. *)
Lemma mono_log_then {A} (e : Event) (m : M A) :
  P e -> mono (steps P) m ->
  (forall c, e = EvExit c 255 false -> forall s, c ∈ badCells (m s).2) ->
  mono (steps P) (log e ;;; m).
Proof.
  intros HP Hm Hbad s. unfold bind, log, modify. simpl.
  set (s1 := {| status := status s; output := output s;
                badCells := badCells s;
                cells_need_retry := cells_need_retry s;
                waitList := waitList s;
                output_truncated := output_truncated s;
                child_running := child_running s; clock := clock s;
                trace := trace s ++ [e] |}).
  destruct (Hm s1) as (evs & Ht & HF & HB & HX).
  exists (e :: evs). split.
  { rewrite Ht. simpl. by rewrite <- app_assoc. }
  split; [by constructor|]. split; [exact HB|].
  intros c [Heq|Hin]; [|by apply HX].
  apply (Hbad c Heq s1).
Qed.

End Mono.

Create HintDb mono_db.
#[local] Hint Resolve mono_ret mono_gets mono_raise mono_sys_exit mono_os_exit
  mono_block mono_lift mono_listed mono_tick mono_set_status_output
  mono_set_cells_need_retry mono_set_waitList mono_set_output_truncated
  mono_set_child_running mono_badCells_append mono_badCells_append_new
  mono_cells_need_retry_append : mono_db.

(** Peel a monadic term: binds, conditionals and matches on oracle
    answers, closing the leaves with the lemmas above. *)
Ltac mono_go :=
  repeat first
    [ solve [auto with mono_db]
    | apply mono_log; [exact I | intros ?; discriminate]
    | apply mono_bind; [|intros ?]
    | match goal with
      | |- mono _ (if ?b then _ else _) => destruct b
      | |- mono _ (match ?x with _ => _ end) => destruct x
      | |- mono _ (let '_ := ?x in _) => destruct x
      end ].

Lemma badCells_append_new_run (cell : string) (s : State) :
  exists s', badCells_append_new cell s = (Ok tt, s')
             /\ cell ∈ badCells s'
             /\ trace s' = trace s
             /\ forall c, c ∈ badCells s' <-> c ∈ badCells s \/ c = cell.
Proof.
  unfold badCells_append_new, bind, gets. simpl.
  destruct (decide (cell ∈ badCells s)) as [Hin|Hnin].
  - exists s. repeat split; auto. intros [?| ->]; done.
  - eexists. split; [reflexivity|]. simpl. split.
    + apply elem_of_app. right. by left.
    + split; [done|]. intros c. rewrite elem_of_app, list_elem_of_singleton.
      done.
Qed.

Section WorkThreadFacts.

Variable w : World.
Variable p : Pass.

Local Abbreviation o := (options p) (only parsing).

Lemma readNLines_loop_mono (cell : string) (dc : bool) (r : list string)
    (i : Z) (acc : list string) :
  mono (steps (spawn_event o)) (readNLines_loop w p cell dc r i acc).
Proof.
  revert i acc. induction r as [|l r' IH]; intros i acc; simpl.
  - mono_go.
  - destruct (Options.maxLines (options p) <? i + 1); [|apply IH].
    apply mono_bind; [mono_go|]. intros _.
    apply mono_bind; [mono_go|]. intros _. destruct dc; [apply IH|mono_go].
Qed.

Lemma readNLines_mono (cell : string) (r : list string) (ser : bool) :
  mono (steps (spawn_event o)) (readNLines w p cell r ser).
Proof. apply readNLines_loop_mono. Qed.

Lemma communicate_mono (child : Child) :
  mono (steps (spawn_event o)) (communicate w p child).
Proof. unfold communicate. mono_go. Qed.

Lemma execute_ssh_command_mono (cell cmd : string) (ser : bool)
    (input : list string) :
  mono (steps (spawn_event o)) (execute_ssh_command w p cell cmd ser input).
Proof.
  unfold execute_ssh_command.
  pose proof communicate_mono. pose proof readNLines_mono.
  mono_go.
Qed.

Lemma retry_if_needed_konepw (banner l : list string) :
  retry_if_needed p banner l = true -> konepw o = true.
Proof.
  unfold retry_if_needed. by destruct (konepw o).
Qed.

(** The one place where an exit status is collected from a Popen child:
    255 without a retry request puts the host into [badCells]. *)
Lemma classify_exit_mono (cell : string) (pid returncode : Z)
    (banner l : list string) :
  mono (steps (spawn_event o)) (classify_exit p cell pid returncode banner l).
Proof.
  unfold classify_exit. apply mono_log_then.
  - simpl. apply retry_if_needed_konepw.
  - mono_go.
  - intros c [= <- -> Hr] s. rewrite Hr. simpl.
    apply elem_of_app. right. by left.
Qed.

Lemma runCommand_interactive_mono (cell cmd : string) :
  mono (steps (spawn_event o)) (runCommand_interactive w cell cmd).
Proof.
  unfold runCommand_interactive.
  apply mono_bind; [apply mono_tick|]. intros n.
  apply mono_bind; [mono_go|]. intros _.
  destruct (call w n (bash_command cell cmd)) as [status|e|]; [|mono_go..].
  apply mono_log_then; [done|mono_go|].
  intros c [= <- ->] s. simpl. unfold bind.
  destruct (badCells_append_new_run cell s) as (s' & -> & Hin & _).
  exact Hin.
Qed.

Lemma kill_child_mono (pid : Z) :
  mono (steps (spawn_event o)) (kill_child w pid).
Proof. unfold kill_child. mono_go. Qed.

Lemma runCommand_mono (cell cmd : string) (ser : bool)
    (input : list string) :
  mono (steps (spawn_event o)) (runCommand w p cell cmd ser input).
Proof.
  unfold runCommand.
  pose proof runCommand_interactive_mono. pose proof kill_child_mono.
  pose proof execute_ssh_command_mono. pose proof classify_exit_mono.
  mono_go.
Qed.

Lemma run_stage_mono (P : Event -> Prop) (cell : string) (stage : Stage)
    (cmd : string) (ser : bool) (input out : list string) :
  (forall e, spawn_event o e -> P e) ->
  P (EvStage cell stage cmd) ->
  mono (steps P) (run_stage w p cell stage cmd ser input out).
Proof.
  intros Hsub Hst. unfold run_stage.
  apply mono_bind; [apply mono_log; [done|intros ?; discriminate]|].
  intros _. apply mono_bind; [|intros ?; apply mono_ret].
  eapply mono_weaken; [exact Hsub|]. apply runCommand_mono.
Qed.

Lemma spawn_before_drop (e : Event) :
  spawn_event o e -> before_drop_event o e.
Proof. by destruct e as [| |? []| | | |]. Qed.

Lemma before_drop_worker (e : Event) :
  before_drop_event o e -> worker_event o e.
Proof. by destruct e as [| |? []| | | |]. Qed.

Lemma spawn_worker (e : Event) : spawn_event o e -> worker_event o e.
Proof. intros ?. by apply before_drop_worker, spawn_before_drop. Qed.

Lemma worker_pass (e : Event) : worker_event o e -> pass_event o e.
Proof. by destruct e. Qed.

Lemma run_before_drop_mono (cell : string) :
  mono (steps (before_drop_event o)) (run_before_drop w p cell).
Proof.
  pose proof spawn_before_drop.
  unfold run_before_drop, stage_key_exchange, stage_mkdir, stage_copy,
    stage_command.
  repeat first
    [ apply mono_ret
    | apply run_stage_mono; [done|exact I]
    | apply mono_bind; [|intros ?]
    | match goal with
      | |- mono _ (if ?b then _ else _) => destruct b
      end ].
Qed.

Lemma stage_key_drop_mono (cell : string) (st : Z * list string) :
  mono (steps (worker_event o)) (stage_key_drop w p cell st).
Proof.
  pose proof spawn_worker. unfold stage_key_drop.
  destruct (_ && _); [|apply mono_ret].
  by apply run_stage_mono.
Qed.

Lemma run_mono (cell : string) :
  mono (steps (worker_event o)) (run w p cell).
Proof.
  unfold run. apply mono_bind.
  - eapply mono_weaken; [apply before_drop_worker|].
    apply run_before_drop_mono.
  - intros st. apply mono_bind; [apply stage_key_drop_mono|].
    intros ?. apply mono_set_status_output.
Qed.

End WorkThreadFacts.
(** ** buildCellList *)

Section BuildCellListFacts.

Variable open_file : string -> FileRead.

Lemma read_cells_app (lines acc : list string) :
  read_cells acc lines = acc ++ read_cells [] lines.
Proof.
  revert acc. induction lines as [|line rest IH]; intros acc; simpl.
  - by rewrite app_nil_r.
  - destruct (keep_line (PyStr.strip line)).
    + rewrite (IH (acc ++ _)), (IH [_]). by rewrite <- app_assoc.
    + apply IH.
Qed.

Lemma read_cells_not_blank (lines : list string) :
  EmptyString ∉ read_cells [] lines.
Proof.
  induction lines as [|line rest IH]; simpl.
  - apply not_elem_of_nil.
  - destruct (keep_line (PyStr.strip line)) eqn:Hk; [|done].
    rewrite read_cells_app. simpl. intros Hin.
    apply elem_of_cons in Hin as [Heq|Hin]; [|done].
    rewrite <- Heq in Hk. discriminate Hk.
Qed.

Lemma append_split_app (cellSplit acc : list string) :
  append_split acc cellSplit = acc ++ map PyStr.strip cellSplit.
Proof.
  revert acc. induction cellSplit as [|c rest IH]; intros acc; simpl.
  - by rewrite app_nil_r.
  - rewrite IH. by rewrite <- app_assoc.
Qed.

Lemma append_cells_app (cells acc : list string) :
  append_cells acc cells = acc ++ append_cells [] cells.
Proof.
  revert acc. induction cells as [|cline rest IH]; intros acc; simpl.
  - by rewrite app_nil_r.
  - rewrite (IH (append_split acc _)), (IH (append_split [] _)).
    rewrite !append_split_app. by rewrite <- app_assoc.
Qed.

Lemma append_cells_elem (cells : list string) (cline item : string) :
  cline ∈ cells -> item ∈ PyStr.split "," cline ->
  PyStr.strip item ∈ append_cells [] cells.
Proof.
  induction cells as [|c rest IH]; intros Hc Hi.
  - by apply elem_of_nil in Hc.
  - simpl. rewrite append_cells_app, append_split_app. simpl.
    apply elem_of_app. apply elem_of_cons in Hc as [->|Hc].
    + left. by apply list_elem_of_fmap_2.
    + right. by apply IH.
Qed.

(** The deduplication loop keeps what it has, in place, and adds each new
    host once, after it. *)
Lemma unique_from_spec (celllist acc : list string) :
  NoDup acc ->
  exists t, unique_from acc celllist = acc ++ t
            /\ NoDup (acc ++ t)
            /\ forall c, c ∈ t <-> c ∈ celllist /\ c ∉ acc.
Proof.
  revert acc. induction celllist as [|x rest IH]; intros acc Hnd.
  - exists []. rewrite app_nil_r. split; [done|]. split; [done|].
    intros c. split; [by intros ?%elem_of_nil|]. by intros [?%elem_of_nil _].
  - unfold unique_from. simpl. unfold unique_append at 2.
    destruct (decide (x ∈ acc)) as [Hin|Hnin].
    + destruct (IH acc Hnd) as (t & Heq & Hnd' & Ht).
      exists t. split; [exact Heq|]. split; [exact Hnd'|].
      intros c. rewrite Ht, elem_of_cons. split.
      * intros [? ?]. auto.
      * intros [[->|?] ?]; [done|auto].
    + assert (Hnd1 : NoDup (acc ++ [x])).
      { apply NoDup_app. split; [done|]. split.
        - intros y Hy ->%list_elem_of_singleton. done.
        - apply NoDup_singleton. }
      destruct (IH (acc ++ [x]) Hnd1) as (t & Heq & Hnd' & Ht).
      exists (x :: t). fold (unique_from (acc ++ [x]) rest).
      rewrite Heq, <- app_assoc. simpl.
      split; [done|]. split; [by rewrite <- app_assoc in Hnd'|].
      intros c. rewrite !elem_of_cons, Ht, elem_of_app, list_elem_of_singleton.
      split.
      * intros [->|[? Hn]]; [auto|]. split; [auto|]. intros ?. apply Hn. auto.
      * intros [[->|?] Hn]; [auto|].
        destruct (decide (c = x)) as [->|Hne]; [auto|].
        right. split; [done|]. intros [?|?]; done.
Qed.

Lemma unique_from_app (l1 l2 acc : list string) :
  unique_from acc (l1 ++ l2) = unique_from (unique_from acc l1) l2.
Proof. unfold unique_from. apply fold_left_app. Qed.

Lemma unique_from_nil_elem (celllist : list string) (c : string) :
  c ∈ unique_from [] celllist <-> c ∈ celllist.
Proof.
  destruct (unique_from_spec celllist [] (NoDup_nil_2)) as (t & -> & _ & Ht).
  simpl. rewrite Ht. split; [by intros [? _]|].
  intros ?. split; [done|]. apply not_elem_of_nil.
Qed.

Lemma unique_from_nil_NoDup (celllist : list string) :
  NoDup (unique_from [] celllist).
Proof.
  destruct (unique_from_spec celllist [] (NoDup_nil_2)) as (t & -> & Hnd & _).
  exact Hnd.
Qed.

Lemma buildCellList_eq (cells : option (list string))
    (filename : option string) (fromFile : list string) :
  file_cells open_file filename = Ok fromFile ->
  buildCellList open_file cells filename
  = Ok (unique_from [] (fromFile ++ inline_cells cells)).
Proof.
  intros Hf. unfold buildCellList, inline_cells. rewrite Hf.
  destruct (truthy_list cells).
  - by rewrite append_cells_app.
  - by rewrite app_nil_r.
Qed.

Lemma file_cells_not_blank (filename : option string)
    (fromFile : list string) :
  file_cells open_file filename = Ok fromFile -> EmptyString ∉ fromFile.
Proof.
  unfold file_cells. destruct (truthy_str filename).
  - destruct (open_file _); [|discriminate].
    intros [= <-]. apply read_cells_not_blank.
  - intros [= <-]. apply not_elem_of_nil.
Qed.

(** C8. Whatever the inline entries and the lines of the host-list file,
    the list buildCellList returns has no duplicate, has exactly the
    hosts of the file followed by the inline ones, keeps every host at
    the place of its first occurrence in that sequence (the hosts before
    it in the result are those that occur before its first occurrence),
    and so starts with the deduplicated file entries, followed by inline
    hosts that are not in the file. *)
Theorem buildCellList_unique_first_occurrence
    (cells : option (list string)) (filename : option string)
    (fromFile : list string) :
  file_cells open_file filename = Ok fromFile ->
  exists r,
    buildCellList open_file cells filename = Ok r
    /\ NoDup r
    /\ (forall c, c ∈ r <-> c ∈ fromFile ++ inline_cells cells)
    /\ (forall l1 c l2,
           fromFile ++ inline_cells cells = l1 ++ c :: l2 -> c ∉ l1 ->
           exists r1 r2, r = r1 ++ c :: r2 /\ forall d, d ∈ r1 <-> d ∈ l1)
    /\ (exists ri, r = unique_from [] fromFile ++ ri
                   /\ forall c, c ∈ ri ->
                                c ∈ inline_cells cells /\ c ∉ fromFile).
Proof.
  intros Hf. eexists. split; [by apply buildCellList_eq|].
  split; [apply unique_from_nil_NoDup|].
  split; [apply unique_from_nil_elem|]. split.
  - intros l1 c l2 Heq Hc. rewrite Heq.
    rewrite unique_from_app.
    exists (unique_from [] l1).
    unfold unique_from at 1. simpl. fold (unique_from (unique_append (unique_from [] l1) c) l2).
    unfold unique_append.
    destruct (decide (c ∈ unique_from [] l1)) as [Hin|_].
    { exfalso. apply Hc. by apply unique_from_nil_elem. }
    destruct (unique_from_spec l2 (unique_from [] l1 ++ [c])) as (t & -> & _ & _).
    { apply NoDup_app. split; [apply unique_from_nil_NoDup|]. split.
      - intros y Hy ->%list_elem_of_singleton.
        apply Hc. by apply unique_from_nil_elem.
      - apply NoDup_singleton. }
    exists t. rewrite <- app_assoc. split; [done|].
    intros d. apply unique_from_nil_elem.
  - rewrite unique_from_app.
    destruct (unique_from_spec (inline_cells cells) (unique_from [] fromFile))
      as (t & -> & _ & Ht); [apply unique_from_nil_NoDup|].
    exists t. split; [done|]. intros c Hc. apply Ht in Hc as [? Hn].
    split; [done|]. intros ?. apply Hn. by apply unique_from_nil_elem.
Qed.

(** C10. An inline entry with an item that is empty once stripped puts
    the empty string into the returned host list, while no entry read
    from the host-list file is ever blank. *)
Theorem buildCellList_inline_blank_kept
    (cells : list string) (filename : option string)
    (fromFile : list string) (cline item : string) :
  file_cells open_file filename = Ok fromFile ->
  cline ∈ cells ->
  item ∈ PyStr.split "," cline ->
  PyStr.strip item = EmptyString ->
  exists r,
    buildCellList open_file (Some cells) filename = Ok r
    /\ EmptyString ∈ r
    /\ EmptyString ∉ fromFile.
Proof.
  intros Hf Hc Hi Hs. eexists. split; [by apply buildCellList_eq|].
  split; [|by eapply file_cells_not_blank].
  apply unique_from_nil_elem, elem_of_app. right.
  unfold inline_cells. destruct cells as [|c0 rest].
  - by apply elem_of_nil in Hc.
  - simpl truthy_list. cbv iota. rewrite <- Hs.
    by eapply append_cells_elem.
Qed.

End BuildCellListFacts.

(** The file of the examples: two hosts, a comment and a blank line. *)
Lemma buildCellList_unique_first_occurrence_witness :
  exists r,
    buildCellList hosts_fs (Some ["h3,h1"; "h2"]) (Some "mycells") = Ok r
    /\ r = ["h1"; "h2"; "h3"].
Proof.
  destruct (buildCellList_unique_first_occurrence hosts_fs
              (Some ["h3,h1"; "h2"]) (Some "mycells") ["h1"; "h2"; "h1"]
              eq_refl) as (r & Hr & _).
  exists r. split; [exact Hr|].
  vm_compute in Hr. by injection Hr.
Defined.

Lemma buildCellList_inline_blank_kept_witness :
  exists r,
    buildCellList hosts_fs (Some ["h1,"]) None = Ok r /\ EmptyString ∈ r.
Proof.
  destruct (buildCellList_inline_blank_kept hosts_fs ["h1,"] None []
              "h1," EmptyString eq_refl) as (r & Hr & Hin & _).
  - apply list_elem_of_singleton. reflexivity.
  - vm_compute. apply list_elem_of_here || (right; left).
  - reflexivity.
  - exists r. split; [exact Hr | exact Hin].
Defined.

(** ** Monad equations used below *)

Lemma bind_assoc {A B C} (m : M A) (f : A -> M B) (k : B -> M C) (s : State) :
  bind (bind m f) k s = bind m (fun a => bind (f a) k) s.
Proof. unfold bind. by destruct (m s) as [[]]. Qed.

Lemma bind_ret_l {A B} (a : A) (f : A -> M B) (s : State) :
  bind (ret a) f s = f a s.
Proof. reflexivity. Qed.

Lemma bind_log {A} (e : Event) (f : unit -> M A) (s : State) :
  exists s1, bind (log e) f s = f tt s1
             /\ trace s1 = trace s ++ [e]
             /\ badCells s1 = badCells s
             /\ output_truncated s1 = output_truncated s
             /\ child_running s1 = child_running s
             /\ clock s1 = clock s.
Proof. eexists. split; [reflexivity|]. by simpl. Qed.

Lemma steps_trace (P : Event -> Prop) (s s' : State) :
  steps P s s' -> exists evs, trace s' = trace s ++ evs /\ Forall P evs.
Proof. intros (evs & H & F & _). eauto. Qed.

(** ** The key-drop stage (C1) *)

Lemma attempted_app (cell : string) (stage : Stage) (l1 l2 : list Event) :
  attempted cell stage (l1 ++ l2)
  = attempted cell stage l1 || attempted cell stage l2.
Proof. unfold attempted. apply existsb_app. Qed.

Lemma attempted_before_drop (o : Options.t) (cell : string)
    (evs : list Event) :
  Forall (before_drop_event o) evs -> attempted cell KeyDrop evs = false.
Proof.
  induction 1 as [|e evs He _ IH]; [done|]. simpl. rewrite IH.
  destruct e as [| |c st cmd| | | |]; try done.
  destruct st; simpl in *; try done; by rewrite andb_false_r.
Qed.

Section KeyDrop.

Variable w : World.
Variable p : Pass.

Lemma run_unfold (cell : string) (s : State) :
  run w p cell s
  = bind (run_before_drop w p cell)
      (fun st => bind (stage_key_drop w p cell st)
                   (fun st => set_status_output cell st.1 st.2)) s.
Proof. reflexivity. Qed.

(** C1, as the code has it. In a run of the worker of a host, the
    key-drop stage is attempted exactly when key removal is requested,
    key material is loaded, and the stages before it (key exchange,
    mkdir, copy, command) ended with status zero: a nonzero status of an
    earlier stage skips the key drop like every other later stage. *)
Theorem key_drop_attempted_iff (cell : string) (s : State) :
  attempted cell KeyDrop (trace s) = false ->
  attempted cell KeyDrop (trace (run w p cell s).2) = true
  <-> (dropKey (options p) = true
       /\ SSHKEY p <> []
       /\ exists out, (run_before_drop w p cell s).1 = Ok (0, out)).
Proof.
  intros Hfresh. rewrite run_unfold. unfold bind at 1.
  destruct (steps_trace _ _ _ (run_before_drop_mono w p cell s))
    as (evs1 & Ht1 & HF1).
  apply (attempted_before_drop _ cell) in HF1.
  destruct (run_before_drop w p cell s) as [r1 s1]. simpl in Ht1 |- *.
  assert (Hs1 : attempted cell KeyDrop (trace s1) = false).
  { by rewrite Ht1, attempted_app, Hfresh, HF1. }
  destruct r1 as [[st out]| | | |]; simpl;
    try (rewrite Hs1; split; [done|]; by intros (_ & _ & ? & ?)).
  unfold stage_key_drop. simpl.
  destruct ((st =? 0) && key_present p && dropKey (options p)) eqn:Hc.
  - apply andb_prop in Hc as [Hc Hd]. apply andb_prop in Hc as [Hz Hk].
    apply Z.eqb_eq in Hz as ->.
    split.
    + intros _. split; [done|]. split; [|by eauto].
      unfold key_present in Hk. by destruct (SSHKEY p).
    + intros _. unfold run_stage. rewrite bind_assoc.
      match goal with
      | |- context [bind (log ?e) ?f s1] =>
          destruct (bind_log e f s1) as (s2 & -> & Ht2 & _)
      end.
      match goal with
      | |- attempted _ _ (trace (?m s2).2) = true =>
          assert (Hm : mono (steps (worker_event (options p))) m)
      end.
      { apply mono_bind.
        - apply mono_bind; [|intros ?; apply mono_ret].
          eapply mono_weaken; [apply spawn_worker|]. apply runCommand_mono.
        - intros ?. apply mono_set_status_output. }
      destruct (steps_trace _ _ _ (Hm s2)) as (evs & -> & _).
      rewrite Ht2, !attempted_app. simpl.
      rewrite String.eqb_refl. simpl. by rewrite orb_true_r.
  - rewrite bind_ret_l. simpl. rewrite Hs1. split; [done|].
    intros (Hd & Hk & out' & [= -> ->]). simpl in Hc.
    rewrite Hd, andb_true_r in Hc.
    unfold key_present in Hc. by destruct (SSHKEY p).
Qed.

End KeyDrop.

(** ** The coordinator *)

Section CoordinatorFacts.

Variable w : World.
Variable p : Pass.

Local Abbreviation o := (options p) (only parsing).

(** A started thread: the start is recorded, then the worker runs from
    there; how the worker ends decides what the coordinator sees. *)
Lemma start_thread_spec (cell : string) (s : State) :
  exists s0 s' r,
    trace s0 = trace s ++ [EvStart cell]
    /\ badCells s0 = badCells s
    /\ run w p cell s0 = (r, s')
    /\ start_thread w p cell s
       = (match r with
          | Ok _ | Raised _ | SysExit _ => Ok false
          | OsExit c => OsExit c
          | Blocked => Ok true
          end, s').
Proof.
  unfold start_thread.
  unfold bind at 1 2 3, set_output_truncated, set_child_running, log, modify.
  simpl.
  match goal with
  | |- context [run w p cell ?s0] =>
      exists s0; destruct (run w p cell s0) as [r s'] eqn:Hrun
  end.
  exists s', r. repeat split; by destruct r.
Qed.

Lemma start_thread_mono (cell : string) :
  mono (steps (pass_event o)) (start_thread w p cell).
Proof.
  intros s.
  destruct (start_thread_spec cell s) as (s0 & s' & r & Ht & Hb & Hrun & ->).
  simpl. pose proof (run_mono w p cell s0) as Hm. rewrite Hrun in Hm.
  simpl in Hm. destruct Hm as (evs & Ht' & HF & HB & HX).
  exists (EvStart cell :: evs). split.
  { rewrite Ht', Ht. by rewrite <- app_assoc. }
  split.
  { constructor; [exact I|]. eapply Forall_impl; [exact HF|].
    apply worker_pass. }
  split; [by rewrite <- Hb|].
  intros c [Heq|Hin]; [discriminate Heq|by apply HX].
Qed.

Lemma join_mono (cell : string) (never_ends : bool) :
  mono (steps (pass_event o)) (join cell never_ends).
Proof. unfold join. mono_go. Qed.

Lemma start_all_mono (all_cells : list string) :
  mono (steps (pass_event o)) (start_all w p all_cells).
Proof.
  pose proof start_thread_mono. pose proof join_mono.
  induction all_cells as [|cell rest IH]; simpl; mono_go.
Qed.

Lemma join_all_mono (wl : list (string * bool)) :
  mono (steps (pass_event o)) (join_all wl).
Proof.
  pose proof join_mono.
  induction wl as [|[cell b] rest IH]; simpl; mono_go.
Qed.

Lemma run_workThread_mono (all_cells : list string) :
  mono (steps (pass_event o)) (run_workThread w p all_cells).
Proof.
  pose proof start_all_mono. pose proof join_all_mono.
  unfold run_workThread. mono_go.
Qed.

Lemma run_passes_mono : mono (steps (pass_event o)) (run_passes w p).
Proof.
  pose proof run_workThread_mono. unfold run_passes. mono_go.
Qed.

(** What run_passes returns as the unreachable hosts is [badCells]. *)
Lemma run_passes_returns (s s' : State) (st : gmap string Z)
    (out : gmap string (list string)) (bad : list string) :
  run_passes w p s = (Ok (st, out, bad), s') -> bad = badCells s'.
Proof.
  unfold run_passes. unfold bind at 1.
  destruct (run_workThread w p (cells p) s) as [[[]| | | |] s1];
    try discriminate.
  unfold bind at 1. unfold gets at 1. unfold bind at 1.
  destruct ((match cells_need_retry s1 with
             | [] => ret ()
             | _ :: _ =>
                 run_workThread w p
                   (remove_offending_keys w (cells_need_retry s1))
             end) s1) as [[[]| | | |] s2]; try discriminate.
  unfold bind, gets, ret. by intros [= _ _ <- <-].
Qed.

(** *** Serialized passes *)

Lemma one_at_a_time_worker (evs k : list Event) (live : option string) :
  Forall (worker_event o) evs ->
  one_at_a_time_from live (evs ++ k) = one_at_a_time_from live k.
Proof.
  induction 1 as [|e evs He _ IH]; [done|].
  by destruct e.
Qed.

Lemma start_all_serial (all_cells : list string) (s : State) :
  serialize o = true ->
  exists evs,
    trace (start_all w p all_cells s).2 = trace s ++ evs
    /\ one_at_a_time_from None evs = true
    /\ ((start_all w p all_cells s).1 = Ok tt ->
        forall k, one_at_a_time_from None (evs ++ k)
                  = one_at_a_time_from None k).
Proof.
  intros Hser. revert s.
  induction all_cells as [|cell rest IH]; intros s.
  - exists []. simpl. by rewrite app_nil_r.
  - destruct (start_thread_spec cell s)
      as (s0 & s1 & r & Ht0 & _ & Hrun & Hst).
    assert (Heq : start_all w p (cell :: rest) s
                  = match r with
                    | Ok _ | Raised _ | SysExit _ =>
                        start_all w p rest (log (EvDone cell) s1).2
                    | OsExit c => (OsExit c, s1)
                    | Blocked => (Blocked, s1)
                    end).
    { simpl. rewrite Hser. unfold bind at 1. rewrite Hst.
      by destruct r. }
    rewrite Heq. clear Heq Hst.
    pose proof (run_mono w p cell s0) as Hm. rewrite Hrun in Hm.
    apply steps_trace in Hm as (evs & Ht1 & HF). simpl in Ht1.
    assert (Hstuck : exists evs',
               trace s1 = trace s ++ evs'
               /\ one_at_a_time_from None evs' = true).
    { exists (EvStart cell :: evs). split.
      - rewrite Ht1, Ht0. by rewrite <- app_assoc.
      - simpl. rewrite <- (app_nil_r evs).
        by rewrite (one_at_a_time_worker _ _ _ HF). }
    assert (Hdone : exists evs',
               trace (start_all w p rest (log (EvDone cell) s1).2).2
               = trace s ++ evs'
               /\ one_at_a_time_from None evs' = true
               /\ ((start_all w p rest (log (EvDone cell) s1).2).1 = Ok tt ->
                   forall k, one_at_a_time_from None (evs' ++ k)
                             = one_at_a_time_from None k)).
    { destruct (IH (log (EvDone cell) s1).2) as (er & Htr & Hor & Hk).
      exists (EvStart cell :: evs ++ EvDone cell :: er).
      split.
      { rewrite Htr. simpl. rewrite Ht1, Ht0. by rewrite <- !app_assoc. }
      assert (Hgen : forall k,
                 one_at_a_time_from None
                   ((EvStart cell :: evs ++ EvDone cell :: er) ++ k)
                 = one_at_a_time_from None (er ++ k)).
      { intros k. simpl. rewrite <- app_assoc.
        rewrite (one_at_a_time_worker _ _ _ HF). simpl.
        by rewrite String.eqb_refl. }
      split.
      - specialize (Hgen []). rewrite !app_nil_r in Hgen. by rewrite Hgen.
      - intros Hok k. rewrite Hgen. by apply Hk. }
    destruct r as [[]| | | |]; try exact Hdone;
      destruct Hstuck as (evs' & ? & ?); exists evs'; by repeat split.
Qed.

Lemma join_all_dones (wl : list (string * bool)) (s : State) :
  exists evs,
    trace (join_all wl s).2 = trace s ++ evs
    /\ forall k, one_at_a_time_from None (evs ++ k)
                 = one_at_a_time_from None k.
Proof.
  revert s. induction wl as [|[cell never_ends] rest IH]; intros s.
  - exists []. simpl. by rewrite app_nil_r.
  - simpl. unfold join. destruct never_ends.
    + exists []. simpl. by rewrite app_nil_r.
    + unfold bind at 1. simpl.
      match goal with
      | |- context [join_all rest ?s1] =>
          destruct (IH s1) as (evs & Ht & Hk)
      end.
      exists (EvDone cell :: evs). split.
      { rewrite Ht. simpl. by rewrite <- app_assoc. }
      intros k. simpl. apply Hk.
Qed.

Lemma run_workThread_serial (all_cells : list string) (s : State) :
  serialize o = true ->
  exists evs,
    trace (run_workThread w p all_cells s).2 = trace s ++ evs
    /\ one_at_a_time evs = true.
Proof.
  intros Hser. unfold run_workThread, one_at_a_time. unfold bind at 1.
  destruct (start_all_serial all_cells s Hser) as (evs & Ht & Ho & Hk).
  destruct (start_all w p all_cells s) as [[[]| | | |] s1]; simpl in *;
    try (exists evs; by split).
  unfold bind, gets.
  destruct (join_all_dones (waitList s1) s1) as (dones & Htd & Hd).
  exists (evs ++ dones). split.
  - rewrite Htd, Ht. by rewrite app_assoc.
  - rewrite (Hk eq_refl). specialize (Hd []). by rewrite !app_nil_r in Hd.
Qed.

End CoordinatorFacts.

(** C3, as the code has it. An invocation with [-k] derives
    [serialize = True], and a pass of the coordinator then runs the hosts
    strictly one at a time: no thread is started before the one started
    before it has been seen to end. (With --key-with-one-password alone
    the flag is not derived; see the counterexample.) *)
Theorem key_push_k_serialized (w : World) (p : Pass)
    (all_cells : list string) (s : State) :
  Options.pushKey (options p) = true ->
  pushKey (options p) = true
  /\ serialize (options p) = true
  /\ exists evs,
       trace (run_workThread w p all_cells s).2 = trace s ++ evs
       /\ one_at_a_time evs = true.
Proof.
  intros Hk.
  assert (Hser : serialize (options p) = true).
  { unfold serialize. rewrite Hk. apply orb_true_r. }
  split; [unfold pushKey; by rewrite Hk|]. split; [exact Hser|].
  by apply run_workThread_serial.
Qed.

(** ** Retry requests and unreachable hosts *)

Section Retried.

Variable k : bool.

(** Events that append to neither list. *)
Lemma retried_events (evs : list Event) (s s' : State) :
  trace s' = trace s ++ evs -> badCells s' = badCells s ->
  cells_need_retry s' = cells_need_retry s ->
  (forall c rc, rc <> 124 -> ~ In (EvExit c rc true) evs) ->
  retried k s s'.
Proof.
  intros Ht Hb Hr He. exists evs, [], []. rewrite !app_nil_r.
  split; [done|]. split; [done|]. split; [done|].
  split; [|split].
  - intros c rc Hrc Hin. by destruct (He c rc Hrc).
  - by intros c Hc%elem_of_nil.
  - by intros _ c Hc%elem_of_nil.
Qed.

Lemma retried_refl (s : State) : retried k s s.
Proof.
  apply (retried_events []);
    [by rewrite app_nil_r|done|done|by intros c rc _ []].
Qed.


Lemma rt_ret {A} (a : A) : mono (retried k) (ret a).
Proof. intros s. apply retried_refl. Qed.


Lemma rt_gets {A} (f : State -> A) : mono (retried k) (gets f).
Proof. intros s. apply retried_refl. Qed.

Lemma rt_raise {A} (e : exn) : mono (retried k) (@raise A e).
Proof. intros s. apply retried_refl. Qed.

Lemma rt_sys_exit {A} (c : Z) : mono (retried k) (@sys_exit A c).
Proof. intros s. apply retried_refl. Qed.

Lemma rt_os_exit {A} (c : Z) : mono (retried k) (@os_exit A c).
Proof. intros s. apply retried_refl. Qed.

Lemma rt_block {A} : mono (retried k) (@block A).
Proof. intros s. apply retried_refl. Qed.

Lemma rt_listed (r : list Printed * option exn) : mono (retried k) (listed r).
Proof. intros s. unfold listed. destruct r.2; apply retried_refl. Qed.

(** A change that leaves the trace and the two lists alone. *)
Lemma rt_quiet (s s' : State) :
  trace s' = trace s -> badCells s' = badCells s ->
  cells_need_retry s' = cells_need_retry s ->
  retried k s s'.
Proof.
  intros Ht Hb Hr.
  apply (retried_events []);
    [by rewrite app_nil_r|done|done|by intros c rc _ []].
Qed.

Lemma rt_tick : mono (retried k) tick.
Proof. intros s. by apply rt_quiet. Qed.

Lemma rt_set_output_truncated (b : bool) :
  mono (retried k) (set_output_truncated b).
Proof. intros s. by apply rt_quiet. Qed.

Lemma rt_set_child_running (b : bool) :
  mono (retried k) (set_child_running b).
Proof. intros s. by apply rt_quiet. Qed.

Lemma rt_set_status_output (cell : string) (st : Z) (out : list string) :
  mono (retried k) (set_status_output cell st out).
Proof. intros s. by apply rt_quiet. Qed.

Lemma rt_set_waitList (wl : list (string * bool)) :
  mono (retried k) (set_waitList wl).
Proof. intros s. by apply rt_quiet. Qed.



End Retried.

Create HintDb rt_db.
#[local] Hint Resolve rt_ret rt_gets rt_raise rt_sys_exit rt_os_exit rt_block
  rt_listed rt_tick rt_set_output_truncated rt_set_child_running
  rt_set_status_output rt_set_waitList : rt_db.


Section RetriedFacts.

Variable w : World.
Variable p : Pass.

Local Abbreviation RT := (retried (konepw (options p))) (only parsing).

















End RetriedFacts.


(** ** Auto-sized batches (C4) *)

(** C4, as the code has it. With a file-descriptor limit F, no explicit
    batch size and no --serial, update_max_threads sets the batch size
    exactly when F is at least 17, and then to (F - 10) / 7, which is
    max(1, (F - 10) / 7) there; for a smaller F the batch size is left
    unset (0: no batching). With an explicit batch size or with --serial
    nothing is changed. *)
Theorem update_max_threads_by_limit (w : World) (o : Options.t) (F : Z) :
  fd_limit w = Some F ->
  let r := update_max_threads w o in
  (r.1 = true <->
     Options.maxThds o = 0 /\ Options.serializeOps o = false /\ 17 <= F)
  /\ (r.1 = true ->
      Options.maxThds r.2 = (F - 10) / 7
      /\ Options.maxThds r.2 = Z.max 1 ((F - 10) / 7))
  /\ (r.1 = false -> r.2 = o).
Proof.
  intros HF. unfold update_max_threads. rewrite HF.
  unfold RESERVED_FDS, FDS_PER_CELL.
  destruct (Options.maxThds o =? 0) eqn:Em; simpl.
  - apply Z.eqb_eq in Em.
    destruct (Options.serializeOps o) eqn:Es; simpl.
    + split; [|split]; [split|..]; try done. by intros (_ & ? & _).
    + destruct ((F - 10) / 7 <? 1) eqn:El; simpl.
      * apply Z.ltb_lt in El.
        split; [|split]; [split|..]; try done.
        intros (_ & _ & HF17). exfalso.
        assert (1 <= (F - 10) / 7); [|lia].
        apply Z.div_le_lower_bound; lia.
      * apply Z.ltb_ge in El.
        split; [|split]; [split|..]; try done.
        -- intros _. repeat split; try done.
           destruct (Z_lt_le_dec F 17) as [Hlt|]; [|done]. exfalso.
           assert ((F - 10) / 7 < 1); [|lia].
           apply Z.div_lt_upper_bound; lia.
        -- intros _. split; [done|]. lia.
  - apply Z.eqb_neq in Em.
    split; [|split]; [split|..]; try done. by intros (? & _).
Qed.

(** ** The interactive key push (C9) *)

(** C9. In the branch taken for [-k] without a shared password and
    without input for expect, the status of the spawned command is
    returned with no output lines, and every nonzero status (not 255
    alone) puts the host into [badCells], while a zero status leaves the
    list as it is; an exception of the call puts the host into [badCells]
    and status 1 is returned. *)
Theorem interactive_push_marks_unreachable (w : World) (p : Pass)
    (cell sshCommand : string) (ser : bool) (s : State) :
  pushKey (options p) = true ->
  konepw (options p) = false ->
  let r := runCommand w p cell sshCommand ser [] s in
  match call w (clock s) (bash_command cell sshCommand) with
  | CallReturns status =>
      r.1 = Ok (status, [])
      /\ (status <> 0 -> cell ∈ badCells r.2)
      /\ (status = 0 -> badCells r.2 = badCells s)
  | CallRaises _ => r.1 = Ok (1, []) /\ cell ∈ badCells r.2
  | CallNeverReturns => r.1 = Blocked
  end.
Proof.
  intros Hp Hk. unfold runCommand. rewrite Hp, Hk. simpl.
  unfold runCommand_interactive, bind, tick, log, modify, ret, block. simpl.
  destruct (call w (clock s) (bash_command cell sshCommand)) as [status|e|];
    simpl.
  - destruct (status =? 0) eqn:E0; simpl.
    + apply Z.eqb_eq in E0. by repeat split.
    + apply Z.eqb_neq in E0.
      match goal with
      | |- context [badCells_append_new cell ?s1] =>
          destruct (badCells_append_new_run cell s1) as (s' & -> & Hin & _)
      end.
      by repeat split.
  - match goal with
    | |- context [badCells_append_new cell ?s1] =>
        destruct (badCells_append_new_run cell s1) as (s' & -> & Hin & _)
    end.
    by split.
  - reflexivity.
Qed.

(** ** The output cap (C6) and the bounded wait (C5) *)

(** With a pattern that compiles, the call of listResults in readNLines
    returns. *)
Lemma flush_chunk_returns (w : World) (o : Options.t) (cell : string)
    (outputLines : list string) :
  pattern_compiles w o = true ->
  (flush_chunk (re_compile w) o cell outputLines).2 = None.
Proof.
  unfold pattern_compiles, flush_chunk, listResults. intros Hc.
  destruct (truthy_str (Options.regexp o)); simpl in Hc.
  - destruct (re_compile w (str_or_empty (Options.regexp o))); [|done].
    simpl. rewrite !lookup_singleton_eq.
    by destruct (Options.listNegatives o).
  - simpl. rewrite !lookup_singleton_eq.
    by destruct (Options.listNegatives o).
Qed.

Lemma listed_flush_chunk (w : World) (o : Options.t) (cell : string)
    (outputLines : list string) (s : State) :
  pattern_compiles w o = true ->
  listed (flush_chunk (re_compile w) o cell outputLines) s = (Ok tt, s).
Proof.
  intros Hc. unfold listed. by rewrite flush_chunk_returns.
Qed.

Section Capture.

Variable w : World.
Variable p : Pass.

Local Abbreviation o := (options p) (only parsing).



Lemma communicate_timeout (child : Child) (s : State) :
  truthy_Q (Options.timeout o) = true ->
  version_ge w 3 3 = true ->
  wait_bound_error w (default 0%Q (Options.timeout o) + 2)%Q = None ->
  outlasts child (default 0%Q (Options.timeout o) + 2)%Q = true ->
  communicate w p child s = (SysExit 1, s).
Proof.
  unfold communicate, outlasts. intros -> -> -> Hout. simpl.
  destruct child; [|done].
  apply negb_true_iff in Hout. by rewrite Hout.
Qed.

Lemma communicate_bound_error (child : Child) (s : State) (what : string) :
  truthy_Q (Options.timeout o) = true ->
  version_ge w 3 3 = true ->
  wait_bound_error w (default 0%Q (Options.timeout o) + 2)%Q = Some what ->
  communicate w p child s = (Raised (OtherException what), s).
Proof. unfold communicate. by intros -> -> ->. Qed.


(** C5, as the code has it. On an interpreter of version 3.3 or later,
    with a command timeout (a finite number) configured, for a command
    run through the
    capturing branch: when the wait takes timeout + 2 seconds as its
    bound, a child that is still running timeout + 2 seconds after its
    start does not keep the worker waiting: the wait is given up with
    sys.exit(1), which ends runCommand and with it the worker thread of
    that host; when the wait does not take the bound (OverflowError for
    a timeout that is too large), runCommand and the worker thread end
    by that exception, whatever the child does. *)
Theorem wait_given_up_after_grace (cell sshCommand : string) (ser : bool)
    (inputLines : list string) (s : State) (tmp : string) (pid : Z)
    (child : Child) :
  captured o inputLines = true ->
  mkstemp w (clock s) ("." +:+ cell) = TempFile tmp ->
  popen w (S (clock s)) (sshCommand +:+ " 2>" +:+ tmp) false inputLines
  = Popened pid child ->
  truthy_Q (Options.timeout o) = true ->
  version_ge w 3 3 = true ->
  (wait_bound_error w (default 0%Q (Options.timeout o) + 2)%Q = None ->
   outlasts child (default 0%Q (Options.timeout o) + 2)%Q = true ->
   (runCommand w p cell sshCommand ser inputLines s).1 = SysExit 1)
  /\ (forall what,
        wait_bound_error w (default 0%Q (Options.timeout o) + 2)%Q
        = Some what ->
        (runCommand w p cell sshCommand ser inputLines s).1
        = Raised (OtherException what)).
Proof.
  intros Hcap Hmk Hpo Ht Hv.
  unfold captured in Hcap. apply negb_true_iff in Hcap.
  unfold runCommand. rewrite Hcap.
  unfold execute_ssh_command.
  unfold bind, tick, log, modify, ret, gets. simpl.
  rewrite Hmk. simpl. rewrite Hpo. simpl. split.
  - intros Hb Hout. by rewrite communicate_timeout.
  - intros what Hb. by rewrite (communicate_bound_error _ _ what).
Qed.

End Capture.

(** ** The claims on concrete runs *)

(** C1, counterexample. [dcli -c h1 -f notes.txt --unkey] where scp ends
    with status 1: key removal is requested and a key is loaded, the copy
    stage is attempted and fails, and the key-drop stage is not attempted;
    the host ends with status 1. *)
Lemma key_drop_skipped_after_failed_copy :
  outcome failed_copy_run = Some (Ok 1)
  /\ dropKey copy_unkey = true
  /\ attempted "h1" Copy (trace (final_state failed_copy_run)) = true
  /\ status (final_state failed_copy_run) !! "h1" = Some 1
  /\ attempted "h1" KeyDrop (trace (final_state failed_copy_run)) = false.
Proof. vm_compute. repeat split. Qed.

Lemma key_drop_attempted_iff_witness :
  attempted "h1" KeyDrop
    (trace (run (mk_world (3, 9) greets (Some 1024) None) unkey_pass "h1"
              init_state).2) = true
  <-> (dropKey (options unkey_pass) = true
       /\ SSHKEY unkey_pass <> []
       /\ exists out,
            (run_before_drop (mk_world (3, 9) greets (Some 1024) None)
               unkey_pass "h1" init_state).1 = Ok (0, out)).
Proof.
  apply (key_drop_attempted_iff (mk_world (3, 9) greets (Some 1024) None)
           unkey_pass "h1" init_state).
  reflexivity.
Defined.



(** C2, the retry request at work. [dcli -c h1,h2 --key-with-one-password]
    on hosts whose key has changed: both exits with status 255 carry the
    retry request, both hosts are in cells_need_retry and none is in the
    list of unreachable hosts. With [--maxlines 1] the warning is in a
    chunk that went to listResults before the exit status is looked at:
    no retry is requested and both hosts are in the list. *)
Lemma retry_request_seen_or_flushed :
  exits (trace (final_state stale_key_run))
  = [EvExit "h1" 255 true; EvExit "h2" 255 true]
  /\ cells_need_retry (final_state stale_key_run) = ["h1"; "h2"]
  /\ badCells (final_state stale_key_run) = []
  /\ exits (trace (final_state flushed_warning_run))
     = [EvExit "h1" 255 false; EvExit "h2" 255 false]
  /\ cells_need_retry (final_state flushed_warning_run) = []
  /\ badCells (final_state flushed_warning_run) = ["h1"; "h2"].
Proof. vm_compute. repeat split. Qed.

(** C3, counterexample. [dcli -c h1,h2 --key-with-one-password]: a key
    push is requested, the derived serialize flag is not set, and the
    thread of h2 is started before the thread of h1 has been seen to
    end. *)
Lemma key_push_onepw_not_serialized :
  pushKey key_onepw = true
  /\ serialize key_onepw = false
  /\ outcome onepw_run = Some (Ok 0)
  /\ one_at_a_time (trace (final_state onepw_run)) = false.
Proof. vm_compute. repeat split. Qed.

Lemma key_push_k_serialized_witness :
  pushKey (options key_k_pass) = true
  /\ serialize (options key_k_pass) = true
  /\ exists evs,
       trace (run_workThread (mk_world_call (CallReturns 0)) key_k_pass
                ["h1"; "h2"] init_state).2 = trace init_state ++ evs
       /\ one_at_a_time evs = true.
Proof.
  apply (key_push_k_serialized (mk_world_call (CallReturns 0)) key_k_pass
           ["h1"; "h2"] init_state).
  reflexivity.
Defined.

(** C4, counterexample. With a limit of 16 descriptors, no explicit batch
    size and no --serial, the batch size stays unset (0), and is not
    max(1, (16 - 10) / 7) = 1. *)
Lemma auto_batch_not_clamped_to_one :
  Options.maxThds (echo_hi ["h1,h2"] None 100000) = 0
  /\ Options.serializeOps (echo_hi ["h1,h2"] None 100000) = false
  /\ update_max_threads (mk_world (3, 9) greets (Some 16) None)
       (echo_hi ["h1,h2"] None 100000)
     = (false, echo_hi ["h1,h2"] None 100000)
  /\ Options.maxThds
       (update_max_threads (mk_world (3, 9) greets (Some 16) None)
          (echo_hi ["h1,h2"] None 100000)).2
     <> Z.max 1 ((16 - 10) / 7).
Proof. vm_compute. repeat split. discriminate. Qed.

Lemma update_max_threads_by_limit_witness :
  let r := update_max_threads (mk_world (3, 9) greets (Some 1024) None)
             (echo_hi ["h1,h2"] None 100000) in
  (r.1 = true <->
     Options.maxThds (echo_hi ["h1,h2"] None 100000) = 0
     /\ Options.serializeOps (echo_hi ["h1,h2"] None 100000) = false
     /\ 17 <= 1024)
  /\ (r.1 = true ->
      Options.maxThds r.2 = (1024 - 10) / 7
      /\ Options.maxThds r.2 = Z.max 1 ((1024 - 10) / 7))
  /\ (r.1 = false -> r.2 = echo_hi ["h1,h2"] None 100000).
Proof.
  apply (update_max_threads_by_limit
           (mk_world (3, 9) greets (Some 1024) None)
           (echo_hi ["h1,h2"] None 100000) 1024).
  reflexivity.
Defined.

(** C5, counterexample. [dcli -c h1 --timeout 3 echo hi] against a wedged
    node. On Python 2.7 the wait has no bound and the run blocks. On
    Python 3.9 the run ends, but no status is recorded for h1 and the
    exit code is 0. *)
Lemma wedged_host_blocks_or_leaves_no_result :
  outcome wedged_py2_run = Some Blocked
  /\ outcome wedged_py3_run = Some (Ok 0)
  /\ status (final_state wedged_py3_run) !! "h1" = None
  /\ badCells (final_state wedged_py3_run) = [].
Proof. vm_compute. repeat split. Qed.

Lemma wait_given_up_after_grace_witness :
  (runCommand (mk_world (3, 9) wedged (Some 1024) None)
     (echo_pass ["h1"] (Some 3%Q) 100000) "h1" "/usr/bin/ssh h1 true" false
     [] init_state).1 = SysExit 1.
Proof.
  refine (proj1
            (wait_given_up_after_grace
               (mk_world (3, 9) wedged (Some 1024) None)
               (echo_pass ["h1"] (Some 3%Q) 100000) "h1"
               "/usr/bin/ssh h1 true" false [] init_state "/tmp/banner_x.h1"
               4001 NeverExits _ _ _ _ _) _ _);
    reflexivity.
Defined.

(** C5, the bound that the wait does not take: with [--timeout 2147482]
    runCommand ends by OverflowError for a child that would have ended
    at once. *)
Lemma wait_bound_overflows :
  long_timeout_run.1 = Raised (OtherException "OverflowError")
  /\ status long_timeout_run.2 !! "h1" = None.
Proof. vm_compute. repeat split. Qed.

(** C6, the pattern that does not compile: the chunk is handed to
    listResults, re.compile raises, and runCommand ends by that
    exception before the thread is marked truncated. *)
Lemma chunk_with_bad_pattern_raises :
  bad_pattern_chunk_run.1 = Raised (OtherException "re.error")
  /\ output_truncated bad_pattern_chunk_run.2 = false.
Proof. vm_compute. repeat split. Qed.



Lemma foldr_max_zero (l : list Z) (r : Z) :
  0 <= r -> Forall (fun v => 0 <= v) l ->
  foldr Z.max r l = 0 <-> r = 0 /\ Forall (fun v => v = 0) l.
Proof.
  intros Hr. induction 1 as [|v l Hv Hl IH]; simpl.
  - split; [by intros ->|by intros [-> _]].
  - assert (0 <= foldr Z.max r l).
    { clear IH. induction Hl; simpl; lia. }
    split.
    + intros Hm. assert (v = 0) by lia. assert (foldr Z.max r l = 0) by lia.
      apply IH in H1 as [-> ?]. split; [done|]. by constructor.
    + intros [-> HF]. inversion HF; subst. 
      assert (foldr Z.max 0 l = 0) by (apply IH; by split). lia.
Qed.

(** Where no status is negative, the value main keeps is 0 exactly when
    it was 0 and every status of the pass is 0. *)
Lemma max_status_zero_iff (statusMap : gmap string Z) (returnValue : Z) :
  0 <= returnValue ->
  (forall c v, statusMap !! c = Some v -> 0 <= v) ->
  max_status statusMap returnValue = 0
  <-> returnValue = 0 /\ forall c v, statusMap !! c = Some v -> v = 0.
Proof.
  intros Hr Hpos. unfold max_status. rewrite foldr_max_zero; [|done|].
  - split; intros [-> HF]; (split; [done|]).
    + intros c v Hcv. rewrite Forall_forall in HF. apply HF.
      apply list_elem_of_fmap. exists (c, v). split; [done|].
      by apply elem_of_map_to_list.
    + apply Forall_forall. intros v [[c v'] [-> Hin]]%list_elem_of_fmap.
      apply elem_of_map_to_list in Hin. by eapply HF.
  - apply Forall_forall. intros v [[c v'] [-> Hin]]%list_elem_of_fmap.
    apply elem_of_map_to_list in Hin. by eapply Hpos.
Qed.

(** C7, at the failing input. [dcli -c h1 echo hi] where the ssh child is
    killed by signal 9: the status recorded for h1 is -9, no host is
    unreachable, and main returns 0. *)
Theorem main_returns_0_for_negative_status :
  outcome killed_run = Some (Ok 0)
  /\ exit_code (Ok 0) = Some 0
  /\ status (final_state killed_run) !! "h1" = Some (-9)
  /\ badCells (final_state killed_run) = [].
Proof. vm_compute. repeat split. Qed.

Lemma interactive_push_marks_unreachable_witness :
  let r := runCommand (mk_world_call (CallReturns 5)) key_k_pass "h1"
             "ssh h1 true" true [] init_state in
  r.1 = Ok (5, [])
  /\ (5 <> 0 -> "h1" ∈ badCells r.2)
  /\ (5 = 0 -> badCells r.2 = badCells init_state).
Proof.
  apply (interactive_push_marks_unreachable (mk_world_call (CallReturns 5))
           key_k_pass "h1" "ssh h1 true" true init_state);
    reflexivity.
Defined.

(** ** The batches of main end *)

Lemma allowed_bind (errs : exn -> Prop) {A B} (m : M A) (f : A -> M B)
    (s : State) :
  allowed errs (m s).1 ->
  (forall a s', allowed errs (f a s').1) ->
  allowed errs (bind m f s).1.
Proof.
  intros Hm Hf. unfold bind. destruct (m s) as [[a| | | |] s']; simpl in *;
    auto.
Qed.

Section Results.

Variable w : World.
Variable p : Pass.
Variable errs : exn -> Prop.

Lemma start_thread_allowed (cell : string) (s : State) :
allowed errs (start_thread w p cell s).1.
Proof.
destruct (start_thread_spec w p cell s) as (s0 & s' & r & _ & _ & _ & ->).
by destruct r.
Qed.

Lemma join_allowed (cell : string) (never_ends : bool) (s : State) :
allowed errs (join cell never_ends s).1.
Proof. by destruct never_ends. Qed.

Lemma start_all_allowed (all_cells : list string) (s : State) :
allowed errs (start_all w p all_cells s).1.
Proof.
revert s. induction all_cells as [|cell rest IH]; intros s; [done|].
simpl. apply allowed_bind; [apply start_thread_allowed|].
intros never_ends s1. apply allowed_bind; [|intros _ ?; apply IH].
destruct (serialize (options p)); [apply join_allowed|done].
Qed.

Lemma join_all_allowed (wl : list (string * bool)) (s : State) :
allowed errs (join_all wl s).1.
Proof.
revert s. induction wl as [|[cell b] rest IH]; intros s; [done|].
simpl. apply allowed_bind; [apply join_allowed|]. intros _ ?. apply IH.
Qed.

Lemma run_workThread_allowed (all_cells : list string) (s : State) :
allowed errs (run_workThread w p all_cells s).1.
Proof.
unfold run_workThread. apply allowed_bind; [apply start_all_allowed|].
intros _ s1. apply allowed_bind; [done|]. intros wl ?.
apply join_all_allowed.
Qed.

Lemma run_passes_allowed (s : State) : allowed errs (run_passes w p s).1.
Proof.
unfold run_passes. apply allowed_bind; [apply run_workThread_allowed|].
intros _ s1. apply allowed_bind; [done|]. intros retry s2.
apply allowed_bind.
- destruct retry; [done|apply run_workThread_allowed].
- intros _ s3. done.
Qed.

End Results.

Lemma copyAndExecute_allowed (w : World) (key : list string) (pw : string)
    (cells : list string) (copyfiles : option (list string))
    (exec_file destfile command : option string) (o : Options.t)
    (s : State) :
  allowed is_Error
    (copyAndExecute w key pw cells copyfiles exec_file destfile command o s).1.
Proof.
  unfold copyAndExecute. apply allowed_bind; [done|]. intros _ s1.
  destruct (_ && _ && _); [done|].
  destruct (_ && _ && _); [done|].
  apply run_passes_allowed.
Qed.

Lemma allowed_weaken (P Q : exn -> Prop) {A} (r : Res A) :
  (forall e, P e -> Q e) -> allowed P r -> allowed Q r.
Proof. intros HPQ. destruct r; simpl; auto. Qed.

Lemma is_Error_not_fuel (e : exn) : is_Error e -> not_fuel e.
Proof. by destruct e. Qed.

(** The exceptions that end listResults. *)
Lemma print_cells_exn (statusMap : gmap string Z)
    (outputMap : gmap string (list string)) (listNegatives : bool)
    (compiledRE : option (string -> bool)) (preserveSpaces : bool)
    (cells : list string) (e : exn) :
  (print_cells statusMap outputMap listNegatives compiledRE preserveSpaces
     cells).2 = Some e ->
  e = OtherException "KeyError".
Proof.
  induction cells as [|cell rest IH]; [done|]. simpl.
  destruct (outputMap !! cell); [|exact IH].
  destruct listNegatives; simpl; [|exact IH].
  destruct (statusMap !! cell) as [st|]; [|by intros [= <-]].
  by destruct (0 <? st).
Qed.

Lemma listResults_exn (re_compile : string -> option (string -> bool))
    (cells : list string) (statusMap : gmap string Z)
    (outputMap : gmap string (list string)) (listNegatives : bool)
    (regexp : option string) (preserveSpaces : bool) (e : exn) :
  (listResults re_compile cells statusMap outputMap listNegatives regexp
     preserveSpaces).2 = Some e ->
  e = OtherException "KeyError" \/ e = OtherException "re.error".
Proof.
  unfold listResults. destruct (truthy_str regexp).
  - destruct (re_compile (str_or_empty regexp)); simpl.
    + intros He. left. by eapply print_cells_exn.
    + intros [= <-]. by right.
  - simpl. intros He. left. by eapply print_cells_exn.
Qed.

Lemma write_console_allowed (w : World) (s : State) :
  allowed not_fuel (write_console w s).1.
Proof.
  unfold write_console, bind, tick. simpl.
  by destruct (console_error w (clock s)).
Qed.

Lemma print_lines_allowed (w : World) (lines : list Printed) (s : State) :
  allowed not_fuel (print_lines w lines s).1.
Proof.
  revert s. induction lines as [|x lines IH]; intros s; [done|].
  simpl. apply allowed_bind; [apply write_console_allowed|].
  intros _ s'. apply IH.
Qed.

Lemma list_results_allowed (w : World) (clist : list string)
    (statusMap : gmap string Z) (outputMap : gmap string (list string))
    (o : Options.t) (s : State) :
  allowed not_fuel (list_results w clist statusMap outputMap o s).1.
Proof.
  unfold list_results. apply allowed_bind; [apply print_lines_allowed|].
  intros _ s'. unfold listed.
  destruct (listResults _ _ _ _ _ _ _).2 as [e|] eqn:He; [|done].
  by apply listResults_exn in He as [->| ->].
Qed.

(** With a batch size of 0 or of 1 and more, the loop over the batches
    needs no more rounds than there are hosts left: it ends as a pass of
    the coordinator can end or by an exception of the listing, never for
    lack of fuel. *)
Lemma batch_loop_ends (w : World) (o : Options.t) (key : list string)
    (pw : string) (command : option string) (clist : list string)
    (fuel batchBegin : nat) (returnValue : Z) (s : State) :
  Options.maxThds o = 0 \/ 1 <= Options.maxThds o ->
  (length clist - batchBegin < fuel)%nat ->
  allowed not_fuel
    (batch_loop w o key pw command clist fuel batchBegin returnValue s).1.
Proof.
  intros Hm. revert batchBegin returnValue s.
  induction fuel as [|fuel IH]; intros b rv s Hfuel; [lia|].
  simpl. apply allowed_bind.
  { eapply allowed_weaken; [apply is_Error_not_fuel|].
    apply copyAndExecute_allowed. }
  intros [[statusMap outputMap] bad] s1.
  apply allowed_bind.
  { destruct bad; [done|apply write_console_allowed]. }
  intros _ s2. apply allowed_bind; [apply list_results_allowed|].
  intros _ s3.
  match goal with
  | |- context [if (?x =? length clist)%nat then _ else _] =>
      destruct (x =? length clist)%nat eqn:E; [done|]
  end.
  apply IH. apply Nat.eqb_neq in E.
  destruct (Options.maxThds o =? 0) eqn:E0; simpl in E; [done|].
  destruct (Z.of_nat (length clist) - Z.of_nat b <=? Options.maxThds o)
    eqn:E1; [done|].
  apply Z.eqb_neq in E0. apply Z.leb_gt in E1. clear IH E.
  destruct Hm as [Hm|Hm]; [done|]. simpl. lia.
Qed.

Lemma allowed_usage {A} (b : bool) (msg : string) (k : M A) (s : State) :
  allowed not_fuel (k s).1 -> allowed not_fuel (usage b msg k s).1.
Proof. intros Hk. unfold usage. by destruct b. Qed.

Lemma checkKeys_allowed (w : World) (verbose : bool) (s : State) :
  allowed not_fuel (lift (checkKeys w verbose) s).1.
Proof.
  unfold lift, checkKeys. simpl.
  destruct (testmode w); [done|]. destruct (rsa_pub w); [done|].
  destruct (dsa_pub w && verbose); [done|].
  by destruct (keygen_rsa_pub w).
Qed.

Lemma buildCellList_allowed (open_file : string -> FileRead)
    (cells : option (list string)) (filename : option string) (s : State) :
  allowed not_fuel (lift (buildCellList open_file cells filename) s).1.
Proof.
  unfold lift, buildCellList, file_cells. simpl.
  destruct (truthy_str filename); [|done].
  by destruct (open_file _).
Qed.

Lemma update_max_threads_range (w : World) (o : Options.t) :
  Options.maxThds o = 0 \/ 1 <= Options.maxThds o ->
  Options.maxThds (update_max_threads w o).2 = 0
  \/ 1 <= Options.maxThds (update_max_threads w o).2.
Proof.
  intros Ho. unfold update_max_threads.
  destruct (_ || _); [done|]. destruct (fd_limit w) as [F|]; [|done].
  destruct (_ <? 1) eqn:E; [done|]. apply Z.ltb_ge in E. by right.
Qed.

(** main never ends for lack of fuel, and no SystemExit reaches it: the
    try block returns, raises, is ended by os._exit or blocks. *)
Lemma main_body_ends (w : World) (o : Options.t) (args : list string)
    (s : State) :
  allowed not_fuel (main_body w o args s).1.
Proof.
  unfold main_body.
  set (o1 := Options.with_files _ _ o).
  do 5 apply allowed_usage.
  apply allowed_bind.
  { destruct (_ || _ || _); [apply checkKeys_allowed|done]. }
  intros key s1. do 2 apply allowed_usage.
  apply allowed_bind; [apply buildCellList_allowed|].
  intros clist s2.
  unfold usage at 1.
  destruct (negb (Options.maxThds o1 =? 0) && Options.serializeOps o1);
    [done|].
  unfold usage at 1.
  destruct (negb (Options.maxThds o1 =? 0) && (Options.maxThds o1 <? 1))
    eqn:Eb; [done|].
  assert (Hr : Options.maxThds o1 = 0 \/ 1 <= Options.maxThds o1).
  { destruct (Options.maxThds o1 =? 0) eqn:E0; simpl in Eb.
    - left. by apply Z.eqb_eq.
    - right. by apply Z.ltb_ge. }
  set (o2 := if 1 <? Z.of_nat (length clist)
             then (update_max_threads w o1).2 else o1).
  assert (Hr2 : Options.maxThds o2 = 0 \/ 1 <= Options.maxThds o2).
  { unfold o2. destruct (1 <? _); [by apply update_max_threads_range|done]. }
  clearbody o2. apply allowed_usage.
  assert (Hloop : forall pw s',
             allowed not_fuel
               (usage (truthy_str (Options.destfile o2)
                       && negb (truthy_str (Options.exec_file o2)
                                || truthy_list (Options.file o2)))
                  "Cannot specify destination without copy file or exec file"
                  (batch_loop w o2 key pw
                     match args with
                     | [] => None
                     | _ :: _ => Some (buildCommand w args o1)
                     end clist (S (length clist)) 0 0) s').1).
  { intros pw s'. apply allowed_usage.
    apply batch_loop_ends; [done|lia]. }
  assert (Hfiles : forall fs s',
             allowed not_fuel
               (fold_right
                  (fun item_file k =>
                     match check_file w item_file false with
                     | Some msg => raise (Error msg)
                     | None => k
                     end)
                  (usage (truthy_str (Options.destfile o2)
                          && negb (truthy_str (Options.exec_file o2)
                                   || truthy_list (Options.file o2)))
                     "Cannot specify destination without copy file or exec file"
                     (batch_loop w o2 key
                        (if Options.konepw o2 then getpass w else EmptyString)
                        match args with
                        | [] => None
                        | _ :: _ => Some (buildCommand w args o1)
                        end clist (S (length clist)) 0 0)) fs s').1).
  { intros fs. induction fs as [|f fs IH]; intros s'; simpl; [apply Hloop|].
    destruct (check_file w f false); [done|apply IH]. }
  destruct (truthy_str (Options.exec_file o2)).
  - destruct (check_file w _ true); [done|]. apply Hfiles.
  - apply Hfiles.
Qed.

(** * Further properties *)

(** ** Strings *)

Lemma rstrip_cons_nonspace (c : ascii) (s : string) :
  PyStr.isspace c = false ->
  PyStr.rstrip (String c s) = String c (PyStr.rstrip s).
Proof. intros Hc. simpl. rewrite Hc. by destruct (PyStr.rstrip s). Qed.

Lemma rstrip_idem (s : string) : PyStr.rstrip (PyStr.rstrip s) = PyStr.rstrip s.
Proof.
  induction s as [|c s IH]; [done|]. simpl.
  destruct (PyStr.rstrip s) as [|d r] eqn:E.
  - destruct (PyStr.isspace c) eqn:Hc; [done|]. simpl. by rewrite Hc.
  - change (PyStr.rstrip (String c (String d r))) with
      (match PyStr.rstrip (String d r) with
       | EmptyString =>
           if PyStr.isspace c then EmptyString else String c EmptyString
       | t => String c t
       end).
    by rewrite IH.
Qed.

Lemma lstrip_head (s : string) :
  PyStr.lstrip s = EmptyString
  \/ exists c t, PyStr.lstrip s = String c t /\ PyStr.isspace c = false.
Proof.
  induction s as [|c s IH]; [by left|]. simpl.
  destruct (PyStr.isspace c) eqn:Hc; [exact IH|]. right. eauto.
Qed.

Lemma strip_idem (s : string) : PyStr.strip (PyStr.strip s) = PyStr.strip s.
Proof.
  unfold PyStr.strip.
  destruct (lstrip_head s) as [->|(c & t & -> & Hc)]; [done|].
  rewrite (rstrip_cons_nonspace _ _ Hc). simpl PyStr.lstrip. rewrite Hc.
  rewrite (rstrip_cons_nonspace _ _ Hc). by rewrite rstrip_idem.
Qed.

Lemma has_char_lstrip (c : ascii) (s : string) :
  has_char c s = false -> has_char c (PyStr.lstrip s) = false.
Proof.
  induction s as [|d s IH]; [done|]. simpl.
  intros [Hd Hs]%orb_false_elim. destruct (PyStr.isspace d); [by apply IH|].
  simpl. by rewrite Hd, Hs.
Qed.

Lemma has_char_rstrip (c : ascii) (s : string) :
  has_char c s = false -> has_char c (PyStr.rstrip s) = false.
Proof.
  induction s as [|d s IH]; [done|]. simpl.
  intros [Hd Hs]%orb_false_elim. specialize (IH Hs).
  destruct (PyStr.rstrip s) as [|e r].
  - destruct (PyStr.isspace d); [done|]. simpl. by rewrite Hd.
  - simpl in *. by rewrite Hd, IH.
Qed.

Lemma has_char_strip (c : ascii) (s : string) :
  has_char c s = false -> has_char c (PyStr.strip s) = false.
Proof. intros H. by apply has_char_rstrip, has_char_lstrip. Qed.

(** No piece of [s.split(sep)] contains the separator. *)
Lemma split_no_sep (sep : ascii) (s x : string) :
  x ∈ PyStr.split sep s -> has_char sep x = false.
Proof.
  revert x. induction s as [|c s IH]; intros x; simpl.
  - by intros ->%list_elem_of_singleton.
  - destruct (Ascii.eqb c sep) eqn:E.
    + intros [->|Hin]%elem_of_cons; [done|by apply IH].
    + destruct (PyStr.split sep s) as [|w ws].
      * intros ->%list_elem_of_singleton. simpl. by rewrite E.
      * intros [->|Hin]%elem_of_cons.
        -- simpl. rewrite E. apply IH. by left.
        -- apply IH. by right.
Qed.

(** A string without the separator is its own single piece. *)
Lemma split_none (sep : ascii) (s : string) :
  has_char sep s = false -> PyStr.split sep s = [s].
Proof.
  induction s as [|c s IH]; [done|]. simpl.
  intros [Hc Hs]%orb_false_elim. rewrite Hc. by rewrite (IH Hs).
Qed.

(** ** buildCellList: the hosts it returns *)

Section BuildCellListMore.

Variable open_file : string -> FileRead.

Lemma read_cells_entries (lines : list string) (c : string) :
  c ∈ read_cells [] lines ->
  PyStr.strip c = c /\ c <> EmptyString /\ PyStr.startswith "#" c = false.
Proof.
  induction lines as [|line rest IH]; simpl.
  - by intros ?%elem_of_nil.
  - destruct (keep_line (PyStr.strip line)) eqn:Hk; [|exact IH].
    rewrite read_cells_app. intros [->|Hin]%elem_of_cons; [|by apply IH].
    split; [apply strip_idem|]. unfold keep_line in Hk.
    apply andb_prop in Hk as [Hlen Hhash]. split.
    + intros Heq. rewrite Heq in Hlen. discriminate Hlen.
    + by apply negb_true_iff.
Qed.

Lemma append_cells_entries (cells : list string) (c : string) :
  c ∈ append_cells [] cells ->
  PyStr.strip c = c /\ has_char "," c = false.
Proof.
  induction cells as [|cline rest IH]; simpl.
  - by intros ?%elem_of_nil.
  - rewrite append_cells_app, append_split_app. simpl.
    intros [Hin|Hin]%elem_of_app; [|by apply IH].
    apply list_elem_of_fmap in Hin as (x & -> & Hx).
    split; [apply strip_idem|]. apply has_char_strip.
    by eapply split_no_sep.
Qed.

Lemma inline_cells_entries (cells : option (list string)) (c : string) :
  c ∈ inline_cells cells -> PyStr.strip c = c /\ has_char "," c = false.
Proof.
  unfold inline_cells. destruct (truthy_list cells).
  - apply append_cells_entries.
  - by intros ?%elem_of_nil.
Qed.

Lemma buildCellList_Ok_inv (cells : option (list string))
    (filename : option string) (r : list string) :
  buildCellList open_file cells filename = Ok r ->
  exists fromFile,
    file_cells open_file filename = Ok fromFile
    /\ r = unique_from [] (fromFile ++ inline_cells cells).
Proof.
  intros Hb. destruct (file_cells open_file filename) as [fromFile| | | |] eqn:Hf;
    try (unfold buildCellList in Hb; rewrite Hf in Hb; discriminate Hb).
  exists fromFile. split; [done|].
  rewrite (buildCellList_eq open_file cells filename fromFile Hf) in Hb.
  by injection Hb.
Qed.

Lemma file_cells_entries (filename : option string) (fromFile : list string)
    (c : string) :
  file_cells open_file filename = Ok fromFile -> c ∈ fromFile ->
  PyStr.strip c = c /\ c <> EmptyString /\ PyStr.startswith "#" c = false.
Proof.
  unfold file_cells. destruct (truthy_str filename).
  - destruct (open_file _); [|discriminate].
    intros [= <-]. apply read_cells_entries.
  - intros [= <-]. by intros ?%elem_of_nil.
Qed.

Lemma buildCellList_stripped (cells : option (list string))
    (filename : option string) (r : list string) (c : string) :
  buildCellList open_file cells filename = Ok r -> c ∈ r -> PyStr.strip c = c.
Proof.
  intros Hb Hc. apply buildCellList_Ok_inv in Hb as (fromFile & Hf & ->).
  apply (proj1 (unique_from_nil_elem _ _)) in Hc.
  apply elem_of_app in Hc as [Hc|Hc].
  - by destruct (file_cells_entries _ _ _ Hf Hc) as (Hs & _).
  - by destruct (inline_cells_entries _ _ Hc) as (Hs & _).
Qed.

(** X1. Every host buildCellList returns has no leading or trailing
    whitespace, and it is either a line of the host-list file, then not
    empty and not starting with [#], or an item of an inline entry, then
    without a comma. *)
Theorem buildCellList_hosts_well_formed (cells : option (list string))
    (filename : option string) (r : list string) (c : string) :
  buildCellList open_file cells filename = Ok r ->
  c ∈ r ->
  PyStr.strip c = c
  /\ ((exists fromFile, file_cells open_file filename = Ok fromFile
                        /\ c ∈ fromFile
                        /\ c <> EmptyString
                        /\ PyStr.startswith "#" c = false)
      \/ (c ∈ inline_cells cells /\ has_char "," c = false)).
Proof.
  intros Hb Hc. apply buildCellList_Ok_inv in Hb as (fromFile & Hf & ->).
  apply (proj1 (unique_from_nil_elem _ _)) in Hc.
  apply elem_of_app in Hc as [Hc|Hc].
  - destruct (file_cells_entries _ _ _ Hf Hc) as (Hs & Hne & Hh).
    split; [done|]. left. by exists fromFile.
  - destruct (inline_cells_entries _ _ Hc) as (Hs & Hcomma).
    split; [done|]. by right.
Qed.

Lemma unique_from_NoDup_id (l acc : list string) :
  NoDup (acc ++ l) -> unique_from acc l = acc ++ l.
Proof.
  revert acc. induction l as [|x l IH]; intros acc Hnd.
  - by rewrite app_nil_r.
  - unfold unique_from. simpl. unfold unique_append at 2.
    apply NoDup_app in Hnd as (Ha & Hdisj & Hl).
    destruct (decide (x ∈ acc)) as [Hin|_].
    { exfalso. apply (Hdisj x Hin). by left. }
    fold (unique_from (acc ++ [x]) l). rewrite IH.
    + by rewrite <- app_assoc.
    + rewrite <- app_assoc. simpl. apply NoDup_app. by repeat split.
Qed.

Lemma append_cells_plain (r : list string) :
  (forall c, c ∈ r -> PyStr.strip c = c /\ has_char "," c = false) ->
  append_cells [] r = r.
Proof.
  induction r as [|c r IH]; intros Hr; [done|]. simpl.
  destruct (Hr c) as [Hs Hc]; [by left|].
  rewrite append_cells_app, (split_none _ _ Hc). simpl. rewrite Hs.
  rewrite IH; [done|]. intros d Hd. apply Hr. by right.
Qed.

(** X2. The list buildCellList returns is a fixed point: given back as
    the inline entries, with no file, it is returned unchanged, provided
    no host in it contains a comma (a line of the file may). *)
Theorem buildCellList_fixed_point (cells : option (list string))
    (filename : option string) (r : list string) :
  buildCellList open_file cells filename = Ok r ->
  (forall c, c ∈ r -> has_char "," c = false) ->
  buildCellList open_file (Some r) None = Ok r.
Proof.
  intros Hb Hcomma.
  assert (Hwf : forall c, c ∈ r -> PyStr.strip c = c /\ has_char "," c = false).
  { intros c Hc. split; [|by apply Hcomma].
    by apply (buildCellList_stripped _ _ _ _ Hb Hc). }
  assert (Hnd : NoDup r).
  { apply buildCellList_Ok_inv in Hb as (fromFile & _ & ->).
    apply unique_from_nil_NoDup. }
  rewrite (buildCellList_eq open_file (Some r) None []); [|done].
  simpl. unfold inline_cells. destruct r as [|c0 r']; [done|].
  simpl truthy_list. cbv iota. simpl list_or_empty.
  rewrite (append_cells_plain _ Hwf). f_equal.
  by apply (unique_from_NoDup_id _ []).
Qed.

End BuildCellListMore.

Lemma buildCellList_hosts_well_formed_witness :
  PyStr.strip "h2" = "h2"
  /\ ((exists fromFile, file_cells hosts_fs (Some "mycells") = Ok fromFile
                        /\ "h2" ∈ fromFile
                        /\ "h2" <> EmptyString
                        /\ PyStr.startswith "#" "h2" = false)
      \/ ("h2" ∈ inline_cells (Some ["h3,h1"])
          /\ has_char "," "h2" = false)).
Proof.
  apply (buildCellList_hosts_well_formed hosts_fs (Some ["h3,h1"])
           (Some "mycells") ["h1"; "h2"; "h3"] "h2").
  - reflexivity.
  - right. left.
Defined.

Lemma buildCellList_fixed_point_witness :
  buildCellList hosts_fs (Some ["h1"; "h2"; "h3"]) None
  = Ok ["h1"; "h2"; "h3"].
Proof.
  apply (buildCellList_fixed_point hosts_fs (Some ["h3,h1"])
           (Some "mycells") ["h1"; "h2"; "h3"]).
  - reflexivity.
  - intros c Hc. repeat (apply elem_of_cons in Hc as [->|Hc]; [reflexivity|]).
    by apply elem_of_nil in Hc.
Defined.

(** ** The descriptor budget of an auto-sized batch *)

(** X3. When update_max_threads sets a batch size B from the limit F, a
    batch of B hosts fits the limit at 7 descriptors a host beside the 10
    reserved ones, and B is the largest such size. *)
Theorem auto_batch_within_fd_budget (w : World) (o : Options.t) (F : Z) :
  fd_limit w = Some F ->
  (update_max_threads w o).1 = true ->
  1 <= Options.maxThds (update_max_threads w o).2
  /\ FDS_PER_CELL * Options.maxThds (update_max_threads w o).2 + RESERVED_FDS
     <= F
  /\ F < FDS_PER_CELL * (Options.maxThds (update_max_threads w o).2 + 1)
         + RESERVED_FDS.
Proof.
  intros HF. unfold update_max_threads. rewrite HF.
  destruct (_ || _); [discriminate|].
  unfold RESERVED_FDS, FDS_PER_CELL.
  destruct ((F - 10) / 7 <? 1) eqn:E; [discriminate|]. intros _. simpl.
  apply Z.ltb_ge in E.
  pose proof (Z.mul_div_le (F - 10) 7 ltac:(lia)).
  pose proof (Z.mul_succ_div_gt (F - 10) 7 ltac:(lia)).
  lia.
Qed.

Lemma auto_batch_within_fd_budget_witness :
  1 <= Options.maxThds
         (update_max_threads (mk_world (3, 9) greets (Some 1024) None)
            (echo_hi ["h1,h2"] None 100000)).2
  /\ FDS_PER_CELL
       * Options.maxThds
           (update_max_threads (mk_world (3, 9) greets (Some 1024) None)
              (echo_hi ["h1,h2"] None 100000)).2 + RESERVED_FDS <= 1024
  /\ 1024 < FDS_PER_CELL
            * (Options.maxThds
                 (update_max_threads (mk_world (3, 9) greets (Some 1024) None)
                    (echo_hi ["h1,h2"] None 100000)).2 + 1) + RESERVED_FDS.
Proof.
  apply (auto_batch_within_fd_budget
           (mk_world (3, 9) greets (Some 1024) None)
           (echo_hi ["h1,h2"] None 100000) 1024); reflexivity.
Defined.

(** ** The command handed to ssh *)

Lemma str_app_cons (c : ascii) (a b : string) :
  String c a +:+ b = String c (a +:+ b).
Proof. reflexivity. Qed.

Lemma str_app_nil_r (s : string) : s +:+ EmptyString = s.
Proof.
  induction s as [|c s IH]; [done|]. by rewrite str_app_cons, IH.
Qed.

Lemma str_app_assoc (a b c : string) : (a +:+ b) +:+ c = a +:+ (b +:+ c).
Proof.
  induction a as [|d a IH]; [done|]. by rewrite !str_app_cons, IH.
Qed.

Lemma rev_app (a b : string) :
  PyStr.rev (a +:+ b) = PyStr.rev b +:+ PyStr.rev a.
Proof.
  induction a as [|c a IH].
  - simpl. by rewrite str_app_nil_r.
  - rewrite str_app_cons. simpl. by rewrite IH, str_app_assoc.
Qed.

Lemma drop_last_head (c : ascii) (rest : string) :
  drop_last (String c rest) = EmptyString
  \/ exists r, drop_last (String c rest) = String c r.
Proof.
  unfold drop_last. simpl.
  destruct (PyStr.rev rest) as [|d t] eqn:E; [by left|]. right. simpl.
  rewrite rev_app. simpl. eauto.
Qed.

Lemma quoted_exact_head (q : ascii) (s : string) :
  quoted_exact q s = true -> exists rest, s = String q rest.
Proof.
  destruct s as [|c rest]; [discriminate|]. simpl.
  intros [Hc _]%andb_prop. apply Ascii.eqb_eq in Hc as ->. eauto.
Qed.

Lemma re_match_quoted_head (q c : ascii) (rest : string) :
  c <> q -> re_match_quoted q (String c rest) = false.
Proof.
  intros Hne. unfold re_match_quoted. apply orb_false_intro.
  - destruct (quoted_exact q (String c rest)) eqn:E; [|done].
    apply quoted_exact_head in E as (r & [= -> _]). done.
  - apply andb_false_intro2.
    destruct (drop_last_head c rest) as [->|(r & ->)]; [done|].
    destruct (quoted_exact q (String c r)) eqn:E; [|done].
    apply quoted_exact_head in E as (r' & [= -> _]). done.
Qed.

(** A command that does not start with a quote is put in single quotes,
    every single quote in it written as quote, backslash, quote, quote. *)
Lemma quote_command_unquoted (c : ascii) (rest : string) :
  c <> "'"%char -> c <> ascii_of_nat 34 ->
  quote_command (Some (String c rest))
  = Some ("'" +:+ PyStr.replace_char "'" ("'" +:+ PyStr.bs +:+ "''")
                    (String c rest) +:+ "'").
Proof.
  intros H1 H2. unfold quote_command.
  by rewrite !re_match_quoted_head.
Qed.

Lemma join_words_head (c : ascii) (x : string) (args : list string) :
  exists y, join_words (String c x) args = String c y.
Proof.
  revert x. induction args as [|a args IH]; intros x; [by exists x|].
  apply (IH (x +:+ " " +:+ a)).
Qed.

Lemma buildCommand_head (w : World) (args : list string) (o : Options.t) :
  exists c rest,
    buildCommand w args o = String c rest /\ (c = "("%char \/ c = "t"%char).
Proof.
  unfold buildCommand. destruct (truthy_Q (Options.timeout o)).
  - eexists _, _. split; [reflexivity|by right].
  - destruct (Options.rootWithExaTmp o).
    + destruct (join_words_head "(" ("cd " +:+ EXA_TMP_DIR +:+ ";") args)
        as (y & Hy).
      change (String "(" ("cd " +:+ EXA_TMP_DIR +:+ ";"))
        with ("(" +:+ "cd " +:+ EXA_TMP_DIR +:+ ";") in Hy.
      rewrite Hy. destruct (Options.hideStderr o);
        (eexists _, _; split; [reflexivity|by left]).
    + destruct (join_words_head "(" EmptyString args) as (y & Hy).
      change (String "(" EmptyString) with "(" in Hy.
      rewrite Hy. destruct (Options.hideStderr o);
        (eexists _, _; split; [reflexivity|by left]).
Qed.

(** X4. The command main builds from the argument words, and the command
    copyAndExecute builds for a copied executable, are never taken for
    already quoted: each is handed to ssh inside single quotes, with every
    single quote of its own escaped. *)
Theorem built_commands_are_quoted (w : World) (args : list string)
    (o : Options.t) (exec_file destname basename : string) :
  quote_command (Some (buildCommand w args o))
  = Some ("'" +:+ PyStr.replace_char "'" ("'" +:+ PyStr.bs +:+ "''")
                    (buildCommand w args o) +:+ "'")
  /\ quote_command (Some (exec_command o exec_file destname basename))
     = Some ("'" +:+ PyStr.replace_char "'" ("'" +:+ PyStr.bs +:+ "''")
                       (exec_command o exec_file destname basename) +:+ "'").
Proof.
  split.
  - destruct (buildCommand_head w args o) as (c & rest & -> & [-> | ->]);
      by apply quote_command_unquoted.
  - unfold exec_command.
    destruct (Options.rootWithExaTmp o), (PyStr.endswith _ _),
      (Options.hideStderr o); by apply quote_command_unquoted.
Qed.

Lemma prefix_app (p s : string) : String.prefix p (p +:+ s) = true.
Proof.
  induction p as [|c p IH]; [by destruct s|].
  rewrite str_app_cons. simpl. by destruct (ascii_dec c c).
Qed.

(** X5. Where a copy is requested, the name the files are copied to is
    anchored: it is absolute, or starts with [./], or with an escaped
    [~] or [$]; an absolute destination given with -d is used as it is. *)
Theorem destname_anchored (o : Options.t) (key : list string) (pw : string)
    (cells : list string) (copyfiles : option (list string))
    (exec_file destfile command : option string) :
  truthy_list copyfiles || truthy_str exec_file = true ->
  let d := destname (prepare o key pw cells copyfiles exec_file destfile
                       command) in
  (isabs d || PyStr.startswith "./" d
   || PyStr.startswith (PyStr.bs +:+ "~") d
   || PyStr.startswith (PyStr.bs +:+ "$") d = true)
  /\ (truthy_str destfile = true -> isabs (str_or_empty destfile) = true ->
      d = str_or_empty destfile).
Proof.
  intros Hc. unfold prepare. simpl. rewrite Hc.
  set (d0 := if truthy_str destfile then str_or_empty destfile
             else if truthy_str exec_file
                  then basename (PyStr.strip (str_or_empty exec_file))
                  else EmptyString).
  destruct (isabs d0 || PyStr.startswith (PyStr.bs +:+ "~") d0
            || PyStr.startswith (PyStr.bs +:+ "$") d0) eqn:E; simpl.
  - split.
    + apply orb_prop in E as [E|E]; [apply orb_prop in E as [E|E]|];
        rewrite E; by rewrite ?orb_true_r.
    + intros Ht _. unfold d0. by rewrite Ht.
  - split.
    + clearbody d0. unfold isabs, PyStr.startswith.
      destruct (Options.rootWithExaTmp o); rewrite ?prefix_app;
        by rewrite ?orb_true_r.
    + intros Ht Ha. exfalso. unfold d0 in E. rewrite Ht in E.
      rewrite Ha in E. discriminate E.
Qed.

Lemma destname_anchored_witness :
  let d := destname (prepare (echo_hi ["h1"] None 100000) [] EmptyString
                       ["h1"] (Some ["notes.txt"]) None (Some "/tmp/in/")
                       None) in
  (isabs d || PyStr.startswith "./" d
   || PyStr.startswith (PyStr.bs +:+ "~") d
   || PyStr.startswith (PyStr.bs +:+ "$") d = true)
  /\ (truthy_str (Some "/tmp/in/") = true ->
      isabs (str_or_empty (Some "/tmp/in/")) = true ->
      d = str_or_empty (Some "/tmp/in/")).
Proof.
  apply (destname_anchored (echo_hi ["h1"] None 100000) [] EmptyString
           ["h1"] (Some ["notes.txt"]) None (Some "/tmp/in/") None).
  reflexivity.
Defined.

(** ** readNLines: chunks and short output *)

Section ReadNLinesMore.

Variable w : World.
Variable p : Pass.

Local Abbreviation maxL := (Options.maxLines (options p)) (only parsing).

Lemma log_chunks_app (cell : string) (tr : list Event)
    (c : list string) (chunks : list (list string)) :
  (tr ++ [EvListResults cell c]) ++ map (EvListResults cell) chunks
  = tr ++ map (EvListResults cell) (c :: chunks).
Proof. by rewrite <- app_assoc. Qed.

Lemma readNLines_loop_chunks (cell : string) (r : list string) (i : Z)
    (acc : list string) (s : State) :
  pattern_compiles w (options p) = true ->
  0 <= maxL ->
  i = Z.of_nat (length acc) -> i <= maxL ->
  exists chunks rest s',
    readNLines_loop w p cell true r i acc s = (Ok rest, s')
    /\ concat chunks ++ rest = acc ++ r
    /\ Forall (fun c => Z.of_nat (length c) = maxL + 1) chunks
    /\ Z.of_nat (length rest) <= maxL
    /\ trace s' = trace s ++ map (EvListResults cell) chunks
    /\ output_truncated s' = output_truncated s
    /\ badCells s' = badCells s
    /\ cells_need_retry s' = cells_need_retry s
    /\ (Z.of_nat (length (acc ++ r)) <= maxL -> chunks = [] /\ s' = s).
Proof.
  intros Hpat Hmax. revert i acc s.
  induction r as [|l r IH]; intros i acc s Hi Hle.
  - exists [], acc, s. simpl. rewrite !app_nil_r. repeat split; auto. lia.
  - simpl readNLines_loop.
    destruct (maxL <? i + 1) eqn:E.
    + apply Z.ltb_lt in E.
      unfold bind at 1, log, modify. simpl.
      unfold bind at 1. rewrite listed_flush_chunk by exact Hpat.
      match goal with
      | |- context [readNLines_loop w p cell true r 0 [] ?s1] =>
          destruct (IH 0 [] s1 eq_refl Hmax)
            as (chunks & rest & s' & -> & Hcat & Hlen & Hrest & Htr & Ht
                & Hb & Hr & _)
      end.
      exists ((acc ++ [l]) :: chunks), rest, s'. simpl in *.
      split; [done|]. split; [by rewrite <- !app_assoc, Hcat|].
      split; [constructor; [rewrite length_app; simpl; lia|done]|].
      split; [done|]. split; [by rewrite Htr, <- app_assoc|].
      split; [done|]. split; [done|]. split; [done|].
      rewrite length_app. simpl. lia.
    + apply Z.ltb_ge in E.
      destruct (IH (i + 1) (acc ++ [l]) s)
        as (chunks & rest & s' & -> & Hcat & Hlen & Hrest & Htr & Ht
            & Hb & Hr & Hshort).
      { rewrite length_app. simpl. lia. }
      { lia. }
      exists chunks, rest, s'. rewrite <- app_assoc in Hcat, Hshort.
      simpl in Hcat, Hshort. repeat (split; [done|]). exact Hshort.
Qed.

(** X6. In chunk mode (a serialized pass, or a pass of one host), with
    maxLines at least 0 and without -r (listResults then compiles no
    pattern), readNLines loses no line: the chunks it hands to
    listResults, in order, followed by the lines it returns, are the
    output of the child; every chunk has maxLines + 1 lines, at most
    maxLines lines are returned, and the thread is not marked truncated. *)
Theorem readNLines_chunk_mode_lossless (cell : string) (r : list string)
    (ser : bool) (s : State) :
  truthy_str (Options.regexp (options p)) = false ->
  0 <= Options.maxLines (options p) ->
  ser || (Z.of_nat (length (cells p)) =? 1) = true ->
  exists chunks rest s',
    readNLines w p cell r ser s = (Ok rest, s')
    /\ concat chunks ++ rest = r
    /\ Forall (fun c => Z.of_nat (length c)
                        = Options.maxLines (options p) + 1) chunks
    /\ Z.of_nat (length rest) <= Options.maxLines (options p)
    /\ trace s' = trace s ++ map (EvListResults cell) chunks
    /\ output_truncated s' = output_truncated s.
Proof.
  intros Hre Hmax Hmode. unfold readNLines. rewrite Hmode.
  assert (Hpat : pattern_compiles w (options p) = true)
    by (unfold pattern_compiles; by rewrite Hre).
  destruct (readNLines_loop_chunks cell r 0 [] s Hpat Hmax eq_refl Hmax)
    as (chunks & rest & s' & Heq & Hcat & Hlen & Hrest & Htr & Ht & _).
  exists chunks, rest, s'. by repeat split.
Qed.

Lemma readNLines_loop_short (cell : string) (dc : bool) (r : list string)
    (i : Z) (acc : list string) (s : State) :
  i + Z.of_nat (length r) <= maxL ->
  readNLines_loop w p cell dc r i acc s = (Ok (acc ++ r), s).
Proof.
  revert i acc. induction r as [|l r IH]; intros i acc Hle.
  - by rewrite app_nil_r.
  - simpl readNLines_loop. rewrite length_cons in Hle.
    destruct (maxL <? i + 1) eqn:E; [apply Z.ltb_lt in E; lia|].
    rewrite IH by lia. by rewrite <- app_assoc.
Qed.

(** X7. In every mode, an output of at most maxLines lines is returned
    whole by readNLines: nothing is handed to listResults, nothing is
    marked, the state is as it was. *)
Theorem readNLines_short_output_untouched (cell : string) (r : list string)
    (ser : bool) (s : State) :
  Z.of_nat (length r) <= Options.maxLines (options p) ->
  readNLines w p cell r ser s = (Ok r, s).
Proof.
  intros Hle. unfold readNLines. by rewrite readNLines_loop_short.
Qed.

End ReadNLinesMore.

Lemma readNLines_chunk_mode_lossless_witness :
  exists chunks rest s',
    readNLines (mk_world (3, 9) greets (Some 1024) None)
      (echo_pass ["h1"] None 1) "h1" ["a"; "b"; "c"] false init_state
    = (Ok rest, s')
    /\ concat chunks ++ rest = ["a"; "b"; "c"]
    /\ Forall (fun c => Z.of_nat (length c)
                        = Options.maxLines
                            (options (echo_pass ["h1"] None 1)) + 1) chunks
    /\ Z.of_nat (length rest)
       <= Options.maxLines (options (echo_pass ["h1"] None 1))
    /\ trace s' = trace init_state ++ map (EvListResults "h1") chunks
    /\ output_truncated s' = output_truncated init_state.
Proof.
  apply (readNLines_chunk_mode_lossless
           (mk_world (3, 9) greets (Some 1024) None)
           (echo_pass ["h1"] None 1) "h1" ["a"; "b"; "c"] false init_state).
  - reflexivity.
  - simpl. lia.
  - reflexivity.
Defined.

Lemma readNLines_short_output_untouched_witness :
  readNLines (mk_world (3, 9) greets (Some 1024) None)
    (echo_pass ["h1"; "h2"] None 2) "h1" ["a"; "b"] false init_state
  = (Ok ["a"; "b"], init_state).
Proof.
  apply (readNLines_short_output_untouched
           (mk_world (3, 9) greets (Some 1024) None)
           (echo_pass ["h1"; "h2"] None 2) "h1" ["a"; "b"] false init_state).
  simpl. lia.
Defined.

(** ** Worker threads keep to their own host *)

Lemma touches_refl (H : string -> Prop) (k : bool) (s : State) :
  touches H k s s.
Proof.
  repeat split; try (exists []; rewrite app_nil_r; by repeat split).
Qed.

Lemma touches_trans (H : string -> Prop) (k : bool) (s1 s2 s3 : State) :
  touches H k s1 s2 -> touches H k s2 s3 -> touches H k s1 s3.
Proof.
  intros ((e1 & Ht1 & He1) & (b1 & Hb1 & HB1) & (r1 & Hr1 & HR1 & Hk1)
          & Hm1 & (w1 & Hw1 & HW1))
         ((e2 & Ht2 & He2) & (b2 & Hb2 & HB2) & (r2 & Hr2 & HR2 & Hk2)
          & Hm2 & (w2 & Hw2 & HW2)).
  split; [exists (e1 ++ e2); split;
          [by rewrite Ht2, Ht1, app_assoc|by apply Forall_app]|].
  split; [exists (b1 ++ b2); split;
          [by rewrite Hb2, Hb1, app_assoc|by apply Forall_app]|].
  split.
  { exists (r1 ++ r2). split; [by rewrite Hr2, Hr1, app_assoc|].
    split; [by apply Forall_app|].
    intros Hk. by rewrite (Hk1 Hk), (Hk2 Hk). }
  split.
  { intros c Hc. destruct (Hm1 c Hc) as [<- <-]. by apply Hm2. }
  exists (w1 ++ w2). split; [by rewrite Hw2, Hw1, app_assoc|].
  by apply Forall_app.
Qed.

Lemma touches_weaken (H H' : string -> Prop) (k : bool) (s s' : State) :
  (forall c, H c -> H' c) -> touches H k s s' -> touches H' k s s'.
Proof.
  intros Hsub ((e & Ht & He) & (b & Hb & HB) & (r & Hr & HR & Hk)
               & Hm & (wl & Hw & HW)).
  split.
  { exists e. split; [done|]. eapply Forall_impl; [exact He|].
    intros ev. unfold in_hosts. destruct (event_host ev); auto. }
  split; [exists b; split; [done|]; eapply Forall_impl; eauto|].
  split; [exists r; split; [done|]; split; [|done];
          eapply Forall_impl; eauto|].
  split; [intros c Hc; apply Hm; intros ?; apply Hc; auto|].
  exists wl. split; [done|]. eapply Forall_impl; [exact HW|].
  intros x. apply Hsub.
Qed.

Section WorkerTouch.

Variable cell : string.
Variable k : bool.

Lemma wt_refl (s : State) : worker_touch cell k s s.
Proof. split; [apply touches_refl|done]. Qed.

Lemma wt_trans (s1 s2 s3 : State) :
  worker_touch cell k s1 s2 -> worker_touch cell k s2 s3 ->
  worker_touch cell k s1 s3.
Proof.
  intros [H1 W1] [H2 W2]. split; [by eapply touches_trans|].
  by rewrite W2.
Qed.

Lemma wt_ret {A} (a : A) : mono (worker_touch cell k) (ret a).
Proof. intros s. apply wt_refl. Qed.

Lemma wt_bind {A B} (m : M A) (f : A -> M B) :
  mono (worker_touch cell k) m ->
  (forall a, mono (worker_touch cell k) (f a)) ->
  mono (worker_touch cell k) (bind m f).
Proof.
  intros Hm Hf s. unfold bind. specialize (Hm s).
  destruct (m s) as [[a| | | |] s']; simpl in *; try exact Hm.
  eapply wt_trans; [exact Hm|]. apply Hf.
Qed.

Lemma wt_gets {A} (f : State -> A) : mono (worker_touch cell k) (gets f).
Proof. intros s. apply wt_refl. Qed.

Lemma wt_raise {A} (e : exn) : mono (worker_touch cell k) (@raise A e).
Proof. intros s. apply wt_refl. Qed.

Lemma wt_sys_exit {A} (c : Z) : mono (worker_touch cell k) (@sys_exit A c).
Proof. intros s. apply wt_refl. Qed.

Lemma wt_os_exit {A} (c : Z) : mono (worker_touch cell k) (@os_exit A c).
Proof. intros s. apply wt_refl. Qed.

Lemma wt_block {A} : mono (worker_touch cell k) (@block A).
Proof. intros s. apply wt_refl. Qed.

Lemma wt_listed (r : list Printed * option exn) :
  mono (worker_touch cell k) (listed r).
Proof. intros s. unfold listed. destruct r.2; apply wt_refl. Qed.

(** A change that leaves the shared fields alone. *)
Lemma wt_quiet (s s' : State) :
  trace s' = trace s -> badCells s' = badCells s ->
  cells_need_retry s' = cells_need_retry s ->
  status s' = status s -> output s' = output s ->
  waitList s' = waitList s ->
  worker_touch cell k s s'.
Proof.
  intros Ht Hb Hr Hs Ho Hw. split; [|done].
  split; [exists []; by rewrite app_nil_r|].
  split; [exists []; by rewrite app_nil_r|].
  split; [exists []; by rewrite app_nil_r|].
  split; [intros c _; by rewrite Hs, Ho|].
  exists []. by rewrite app_nil_r.
Qed.

Lemma wt_tick : mono (worker_touch cell k) tick.
Proof. intros s. by apply wt_quiet. Qed.

Lemma wt_set_output_truncated (b : bool) :
  mono (worker_touch cell k) (set_output_truncated b).
Proof. intros s. by apply wt_quiet. Qed.

Lemma wt_set_child_running (b : bool) :
  mono (worker_touch cell k) (set_child_running b).
Proof. intros s. by apply wt_quiet. Qed.

Lemma wt_log (e : Event) :
  in_hosts (eq cell) e -> mono (worker_touch cell k) (log e).
Proof.
  intros He s. split; [|done].
  split; [exists [e]; split; [done|by constructor]|].
  split; [exists []; by rewrite app_nil_r|].
  split; [exists []; by rewrite app_nil_r|].
  split; [done|]. exists []. by rewrite app_nil_r.
Qed.

Lemma wt_set_status_output (st : Z) (out : list string) :
  mono (worker_touch cell k) (set_status_output cell st out).
Proof.
  intros s. split; [|done].
  split; [exists []; by rewrite app_nil_r|].
  split; [exists []; by rewrite app_nil_r|].
  split; [exists []; by rewrite app_nil_r|].
  split; [|exists []; by rewrite app_nil_r].
  intros c Hc. simpl. by rewrite !lookup_insert_ne.
Qed.

Lemma wt_badCells_append : mono (worker_touch cell k) (badCells_append cell).
Proof.
  intros s. split; [|done].
  split; [exists []; by rewrite app_nil_r|].
  split; [exists [cell]; split; [done|by constructor]|].
  split; [exists []; by rewrite app_nil_r|].
  split; [done|]. exists []. by rewrite app_nil_r.
Qed.

Lemma wt_badCells_append_new :
  mono (worker_touch cell k) (badCells_append_new cell).
Proof.
  intros s. unfold badCells_append_new, bind, gets. simpl.
  destruct (decide (cell ∈ badCells s)); [apply wt_refl|].
  apply (wt_badCells_append s).
Qed.

Lemma wt_cells_need_retry_append :
  k = true -> mono (worker_touch cell k) (cells_need_retry_append cell).
Proof.
  intros Hk s. split; [|done].
  split; [exists []; by rewrite app_nil_r|].
  split; [exists []; by rewrite app_nil_r|].
  split.
  { exists [cell]. split; [done|]. split; [by constructor|].
    rewrite Hk. discriminate. }
  split; [done|]. exists []. by rewrite app_nil_r.
Qed.

End WorkerTouch.

Create HintDb wt_db.
#[local] Hint Resolve wt_ret wt_gets wt_raise wt_sys_exit wt_os_exit wt_block
  wt_listed
  wt_tick wt_set_output_truncated wt_set_child_running wt_set_status_output
  wt_badCells_append wt_badCells_append_new : wt_db.

Ltac wt_go :=
  repeat first
    [ solve [auto with wt_db]
    | apply wt_log; reflexivity
    | apply wt_bind; [|intros ?]
    | match goal with
      | |- mono _ (if ?b then _ else _) => destruct b
      | |- mono _ (match ?x with _ => _ end) => destruct x
      | |- mono _ (let '_ := ?x in _) => destruct x
      end ].

Section WorkerTouchFacts.

Variable w : World.
Variable p : Pass.
Variable cell : string.

Local Abbreviation WT := (worker_touch cell (konepw (options p)))
  (only parsing).

Lemma readNLines_loop_wt (dc : bool) (r : list string) (i : Z)
    (acc : list string) :
  mono WT (readNLines_loop w p cell dc r i acc).
Proof.
  revert i acc. induction r as [|l r' IH]; intros i acc; simpl.
  - wt_go.
  - destruct (Options.maxLines (options p) <? i + 1); [|apply IH].
    apply wt_bind; [wt_go|]. intros _.
    apply wt_bind; [wt_go|]. intros _. destruct dc; [apply IH|wt_go].
Qed.

Lemma readNLines_wt (r : list string) (ser : bool) :
  mono WT (readNLines w p cell r ser).
Proof. apply readNLines_loop_wt. Qed.

Lemma communicate_wt (child : Child) : mono WT (communicate w p child).
Proof. unfold communicate. wt_go. Qed.

Lemma execute_ssh_command_wt (cmd : string) (ser : bool)
    (input : list string) :
  mono WT (execute_ssh_command w p cell cmd ser input).
Proof.
  unfold execute_ssh_command.
  pose proof communicate_wt. pose proof readNLines_wt.
  wt_go.
Qed.

Lemma classify_exit_wt (pid returncode : Z) (banner l : list string) :
  mono WT (classify_exit p cell pid returncode banner l).
Proof.
  unfold classify_exit. apply wt_bind; [wt_go|]. intros _.
  destruct (returncode =? 124); [wt_go|].
  destruct (retry_if_needed p banner l) eqn:E; [|wt_go].
  apply wt_bind; [|wt_go].
  apply wt_cells_need_retry_append. by eapply retry_if_needed_konepw.
Qed.

Lemma runCommand_interactive_wt (cmd : string) :
  mono WT (runCommand_interactive w cell cmd).
Proof. unfold runCommand_interactive. wt_go. Qed.

Lemma kill_child_wt (pid : Z) : mono WT (kill_child w pid).
Proof. unfold kill_child. wt_go. Qed.

Lemma runCommand_wt (cmd : string) (ser : bool) (input : list string) :
  mono WT (runCommand w p cell cmd ser input).
Proof.
  unfold runCommand.
  pose proof runCommand_interactive_wt. pose proof kill_child_wt.
  pose proof execute_ssh_command_wt. pose proof classify_exit_wt.
  wt_go.
Qed.

Lemma run_stage_wt (stage : Stage) (cmd : string) (ser : bool)
    (input out : list string) :
  mono WT (run_stage w p cell stage cmd ser input out).
Proof. unfold run_stage. pose proof runCommand_wt. wt_go. Qed.

Lemma run_wt : mono WT (run w p cell).
Proof.
  pose proof run_stage_wt.
  unfold run, run_before_drop, stage_key_exchange, stage_mkdir, stage_copy,
    stage_command, stage_key_drop.
  wt_go.
Qed.

(** X8. The worker thread of a host keeps to that host: every event of
    its run is about it; only it is appended to [badCells] and to
    [cells_need_retry] (to the latter only under
    --key-with-one-password); [status] and [output] of every other host
    are left as they are; [waitList] is not changed. *)
Theorem run_touches_own_host_only (s : State) :
  worker_touch cell (konepw (options p)) s (run w p cell s).2.
Proof. apply run_wt. Qed.

End WorkerTouchFacts.

(** ** A pass keeps to its hosts *)

Section CoordinatorTouch.

Variable w : World.
Variable p : Pass.
Variable H : string -> Prop.

Local Abbreviation T := (touches H (konepw (options p))) (only parsing).

Lemma tch_bind {A B} (m : M A) (f : A -> M B) :
  mono T m -> (forall a, mono T (f a)) -> mono T (bind m f).
Proof.
  intros Hm Hf s. unfold bind. specialize (Hm s).
  destruct (m s) as [[a| | | |] s']; simpl in *; try exact Hm.
  eapply touches_trans; [exact Hm|]. apply Hf.
Qed.

Lemma start_thread_touch (cell : string) :
  H cell -> mono T (start_thread w p cell).
Proof.
  intros Hc s. unfold start_thread.
  assert (Hm : mono (worker_touch cell (konepw (options p)))
                 (set_output_truncated false ;;; set_child_running false ;;;
                  log (EvStart cell) ;;; run w p cell)).
  { pose proof (run_wt w p cell). wt_go. }
  specialize (Hm s).
  destruct ((set_output_truncated false ;;; set_child_running false ;;;
             log (EvStart cell) ;;; run w p cell) s) as [[a| | | |] s'];
    simpl in *; destruct Hm as [Hm _];
    (eapply touches_weaken; [|exact Hm]); by intros ? <-.
Qed.

Lemma join_touch (cell : string) (never_ends : bool) :
  H cell -> mono T (join cell never_ends).
Proof.
  intros Hc s. unfold join. destruct never_ends; [apply touches_refl|].
  split; [exists [EvDone cell]; split; [done|by constructor]|].
  split; [exists []; by rewrite app_nil_r|].
  split; [exists []; by rewrite app_nil_r|].
  split; [done|]. exists []. by rewrite app_nil_r.
Qed.

Lemma waitList_append_touch (cell : string) (never_ends : bool) :
  H cell ->
  mono T (wl <- gets waitList ;; set_waitList (wl ++ [(cell, never_ends)])).
Proof.
  intros Hc s.
  split; [exists []; by rewrite app_nil_r|].
  split; [exists []; by rewrite app_nil_r|].
  split; [exists []; by rewrite app_nil_r|].
  split; [done|]. exists [(cell, never_ends)]. split; [done|].
  by constructor.
Qed.

Lemma start_all_touch (all_cells : list string) :
  (forall c, c ∈ all_cells -> H c) -> mono T (start_all w p all_cells).
Proof.
  induction all_cells as [|cell rest IH]; intros Hsub; simpl.
  - intros s. apply touches_refl.
  - assert (Hc : H cell) by (apply Hsub; left).
    apply tch_bind; [by apply start_thread_touch|]. intros never_ends.
    apply tch_bind.
    + destruct (serialize (options p));
        [by apply join_touch|by apply waitList_append_touch].
    + intros _. apply IH. intros c Hin. apply Hsub. by right.
Qed.

Lemma join_all_touch (wl : list (string * bool)) :
  Forall (fun x => H x.1) wl -> mono T (join_all wl).
Proof.
  induction 1 as [|[cell never_ends] wl Hx _ IH]; simpl.
  - intros s. apply touches_refl.
  - apply tch_bind; [by apply join_touch|]. intros _. exact IH.
Qed.

Lemma run_workThread_touch (all_cells : list string) (s : State) :
  (forall c, c ∈ all_cells -> H c) ->
  Forall (fun x => H x.1) (waitList s) ->
  touches H (konepw (options p)) s (run_workThread w p all_cells s).2.
Proof.
  intros Hsub Hwl. unfold run_workThread. unfold bind at 1.
  pose proof (start_all_touch all_cells Hsub s) as Hs.
  destruct (start_all w p all_cells s) as [[[]| | | |] s1]; simpl in *;
    try exact Hs.
  eapply touches_trans; [exact Hs|].
  unfold bind, gets. simpl. apply join_all_touch.
  destruct Hs as (_ & _ & _ & _ & (wl & -> & Hw)).
  by apply Forall_app.
Qed.

Lemma remove_offending_keys_elem (c : string) (l : list string) :
  c ∈ remove_offending_keys w l -> c ∈ l.
Proof.
  unfold remove_offending_keys. rewrite !list_elem_of_In, filter_In.
  by intros [? _].
Qed.

Lemma run_passes_touch (s : State) :
  (forall c, c ∈ cells p -> H c) ->
  Forall H (cells_need_retry s) ->
  Forall (fun x => H x.1) (waitList s) ->
  touches H (konepw (options p)) s (run_passes w p s).2.
Proof.
  intros Hsub Hr Hwl. unfold run_passes. unfold bind at 1.
  pose proof (run_workThread_touch (cells p) s Hsub Hwl) as H1.
  destruct (run_workThread w p (cells p) s) as [[[]| | | |] s1]; simpl in *;
    try exact H1.
  eapply touches_trans; [exact H1|].
  unfold bind at 1. unfold gets at 1. simpl. unfold bind at 1.
  assert (H2 : touches H (konepw (options p)) s1
                 ((match cells_need_retry s1 with
                   | [] => ret ()
                   | _ :: _ =>
                       run_workThread w p
                         (remove_offending_keys w (cells_need_retry s1))
                   end) s1).2).
  { destruct H1 as (_ & _ & (r & Hr1 & HR & _) & _ & (wl & Hw1 & HW)).
    destruct (cells_need_retry s1) eqn:E; [apply touches_refl|].
    rewrite <- E. apply run_workThread_touch.
    - intros c Hc. apply remove_offending_keys_elem in Hc.
      rewrite E, Hr1 in Hc. apply elem_of_app in Hc as [Hc|Hc].
      + rewrite Forall_forall in Hr. by apply Hr.
      + rewrite Forall_forall in HR. by apply HR.
    - rewrite Hw1. by apply Forall_app. }
  destruct ((match cells_need_retry s1 with
             | [] => ret ()
             | _ :: _ =>
                 run_workThread w p
                   (remove_offending_keys w (cells_need_retry s1))
             end) s1) as [[[]| | | |] s2]; simpl in *; exact H2.
Qed.

(** What run_passes returns are the three shared objects. *)
Lemma run_passes_returns_all (s s' : State) (st : gmap string Z)
    (out : gmap string (list string)) (bad : list string) :
  run_passes w p s = (Ok (st, out, bad), s') ->
  st = status s' /\ out = output s' /\ bad = badCells s'.
Proof.
  unfold run_passes. unfold bind at 1.
  destruct (run_workThread w p (cells p) s) as [[[]| | | |] s1];
    try discriminate.
  unfold bind at 1. unfold gets at 1. unfold bind at 1.
  destruct ((match cells_need_retry s1 with
             | [] => ret ()
             | _ :: _ =>
                 run_workThread w p
                   (remove_offending_keys w (cells_need_retry s1))
             end) s1) as [[[]| | | |] s2]; try discriminate.
  unfold bind, gets, ret. by intros [= <- <- <- <-].
Qed.

End CoordinatorTouch.

Lemma copyAndExecute_touch (w : World) (key : list string)
    (pw : string) (cells : list string) (copyfiles : option (list string))
    (exec_file destfile command : option string) (o : Options.t)
    (s s' : State) (st : gmap string Z) (out : gmap string (list string))
    (bad : list string) :
  copyAndExecute w key pw cells copyfiles exec_file destfile command o s
  = (Ok (st, out, bad), s') ->
  st = status s' /\ out = output s' /\ bad = badCells s'
  /\ touches (fun c => c ∈ cells) (konepw o)
       {| status := ∅; output := ∅; badCells := [];
          cells_need_retry := []; waitList := [];
          output_truncated := false; child_running := false;
          clock := clock s; trace := trace s |} s'.
Proof.
  unfold copyAndExecute. unfold bind at 1, fresh_locals, modify. simpl.
  set (s0 := {| status := ∅; output := ∅; badCells := [];
                cells_need_retry := []; waitList := [];
                output_truncated := false; child_running := false;
                clock := clock s; trace := trace s |}).
  destruct (_ && _ && _); [discriminate|].
  destruct (_ && _ && _); [discriminate|].
  set (p := prepare o key pw cells copyfiles exec_file destfile command).
  intros Hrun.
  pose proof (run_passes_touch w p (fun c => c ∈ cells) s0) as Hm.
  rewrite Hrun in Hm.
  apply run_passes_returns_all in Hrun as (-> & -> & ->).
  repeat (split; [done|]). by apply Hm.
Qed.

(** X9. A call of copyAndExecute that returns reports on its own hosts
    only: every host of the returned list of unreachable hosts is one of
    [cells], the returned status and output maps have no entry for a host
    outside [cells], and every thread, stage, spawn and exit event of the
    call is about a host of [cells]. *)
Theorem copyAndExecute_reports_its_hosts_only (w : World)
    (key : list string) (pw : string) (cells : list string)
    (copyfiles : option (list string))
    (exec_file destfile command : option string) (o : Options.t)
    (s s' : State) (st : gmap string Z) (out : gmap string (list string))
    (bad : list string) :
  copyAndExecute w key pw cells copyfiles exec_file destfile command o s
  = (Ok (st, out, bad), s') ->
  (forall c, c ∈ bad -> c ∈ cells)
  /\ (forall c, c ∉ cells -> st !! c = None /\ out !! c = None)
  /\ exists evs, trace s' = trace s ++ evs
                 /\ Forall (in_hosts (fun c => c ∈ cells)) evs.
Proof.
  intros Hrun.
  apply copyAndExecute_touch in Hrun
    as (-> & -> & -> & (Ht & (b & Hb & HB) & _ & Hm & _)).
  simpl in *. split; [|split; [|exact Ht]].
  - intros c Hc. rewrite Hb in Hc. rewrite Forall_forall in HB. by apply HB.
  - intros c Hc. destruct (Hm c Hc) as [-> ->]. by rewrite !lookup_empty.
Qed.

Lemma copyAndExecute_reports_its_hosts_only_witness :
  (forall c, c ∈ (ok_or (∅, ∅, []) two_hosts_run.1).2 -> c ∈ ["h1"; "h2"])
  /\ (forall c, c ∉ ["h1"; "h2"] ->
        (ok_or (∅, ∅, []) two_hosts_run.1).1.1 !! c = None
        /\ (ok_or (∅, ∅, []) two_hosts_run.1).1.2 !! c = None)
  /\ exists evs, trace two_hosts_run.2 = trace init_state ++ evs
                 /\ Forall (in_hosts (fun c => c ∈ ["h1"; "h2"])) evs.
Proof.
  apply (copyAndExecute_reports_its_hosts_only
           (mk_world (3, 9) greets (Some 1024) None) [] EmptyString
           ["h1"; "h2"] None None None (Some "(echo hi) 2>&1")
           (echo_hi ["h1"; "h2"] None 100000) init_state two_hosts_run.2
           (ok_or (∅, ∅, []) two_hosts_run.1).1.1
           (ok_or (∅, ∅, []) two_hosts_run.1).1.2
           (ok_or (∅, ∅, []) two_hosts_run.1).2).
  vm_compute. reflexivity.
Defined.

(** ** One thread per host *)

Lemma started_app (l1 l2 : list Event) :
  started (l1 ++ l2) = started l1 ++ started l2.
Proof. apply omap_app. Qed.

Lemma started_worker (o : Options.t) (evs : list Event) :
  Forall (worker_event o) evs -> started evs = [].
Proof.
  induction 1 as [|e evs He _ IH]; [done|].
  by destruct e.
Qed.

Lemma adds_refl (s : State) : adds [] s s.
Proof. exists []. by rewrite app_nil_r. Qed.

Lemma adds_trans (l1 l2 : list string) (s1 s2 s3 : State) :
  adds l1 s1 s2 -> adds l2 s2 s3 -> adds (l1 ++ l2) s1 s3.
Proof.
  intros (e1 & H1 & <-) (e2 & H2 & <-). exists (e1 ++ e2).
  split; [by rewrite H2, H1, app_assoc|apply started_app].
Qed.

Lemma bind_Ok_inv {A B} (m : M A) (f : A -> M B) (s s' : State) (b : B) :
  bind m f s = (Ok b, s') ->
  exists a s1, m s = (Ok a, s1) /\ f a s1 = (Ok b, s').
Proof.
  unfold bind. destruct (m s) as [[a| | | |] s1]; try discriminate.
  intros Hf. by exists a, s1.
Qed.

Section OneThreadPerHost.

Variable w : World.
Variable p : Pass.

Lemma start_thread_adds (cell : string) (s : State) :
  adds [cell] s (start_thread w p cell s).2.
Proof.
  destruct (start_thread_spec w p cell s) as (s0 & s' & r & Ht & _ & Hr & ->).
  simpl. pose proof (run_mono w p cell s0) as Hm. rewrite Hr in Hm.
  apply steps_trace in Hm as (evs & Ht' & HF). simpl in Ht'.
  exists (EvStart cell :: evs). split.
  - rewrite Ht', Ht. by rewrite <- app_assoc.
  - simpl. by rewrite (started_worker _ _ HF).
Qed.

Lemma join_adds (cell : string) (never_ends : bool) (s : State) :
  adds [] s (join cell never_ends s).2.
Proof.
  unfold join. destruct never_ends; [apply adds_refl|]. by exists [EvDone cell].
Qed.

Lemma start_all_adds (all_cells : list string) (s s' : State) (u : unit) :
  start_all w p all_cells s = (Ok u, s') -> adds all_cells s s'.
Proof.
  revert s. induction all_cells as [|cell rest IH]; intros s; simpl.
  - intros [= _ <-]. apply adds_refl.
  - intros Hb.
    apply bind_Ok_inv in Hb as (never_ends & s1 & Hst & Hb).
    apply bind_Ok_inv in Hb as ([] & s2 & Hj & Hb).
    apply IH in Hb.
    pose proof (start_thread_adds cell s) as H1. rewrite Hst in H1.
    assert (H2 : adds [] s1 s2).
    { destruct (serialize (options p)).
      - pose proof (join_adds cell never_ends s1) as Hx. by rewrite Hj in Hx.
      - injection Hj as <-. exists []. simpl. by rewrite app_nil_r. }
    change (cell :: rest) with (([cell] ++ []) ++ rest).
    eapply adds_trans; [|exact Hb]. by eapply adds_trans.
Qed.

Lemma join_all_adds (wl : list (string * bool)) (s : State) :
  adds [] s (join_all wl s).2.
Proof.
  revert s. induction wl as [|[cell never_ends] rest IH]; intros s; simpl.
  - apply adds_refl.
  - unfold bind. pose proof (join_adds cell never_ends s) as Hj.
    destruct (join cell never_ends s) as [[[]| | | |] s1]; simpl in *;
      try exact Hj.
    change (@nil string) with (@nil string ++ []).
    eapply adds_trans; [exact Hj|apply IH].
Qed.

Lemma run_workThread_adds (all_cells : list string) (s s' : State)
    (u : unit) :
  run_workThread w p all_cells s = (Ok u, s') -> adds all_cells s s'.
Proof.
  unfold run_workThread. intros Hb.
  apply bind_Ok_inv in Hb as ([] & s1 & Hs & Hb).
  apply start_all_adds in Hs.
  unfold bind, gets in Hb. simpl in Hb.
  pose proof (join_all_adds (waitList s1) s1) as Hj. rewrite Hb in Hj.
  rewrite <- (app_nil_r all_cells). by eapply adds_trans.
Qed.

(** The hosts of the second round: those of the retry list that
    remove_offending_keys found in known_hosts. *)
Lemma run_passes_adds (s s' : State)
    (r : gmap string Z * gmap string (list string) * list string) :
  run_passes w p s = (Ok r, s') ->
  exists s1,
    run_workThread w p (cells p) s = (Ok tt, s1)
    /\ adds (cells p
             ++ match cells_need_retry s1 with
                | [] => []
                | retry => remove_offending_keys w retry
                end) s s'.
Proof.
  unfold run_passes. intros Hb.
  apply bind_Ok_inv in Hb as ([] & s1 & H1 & Hb).
  exists s1. split; [exact H1|]. apply run_workThread_adds in H1.
  unfold bind at 1, gets at 1 in Hb. simpl in Hb.
  apply bind_Ok_inv in Hb as ([] & s2 & H2 & Hb).
  unfold bind, gets, ret in Hb. injection Hb as _ <-.
  eapply adds_trans; [exact H1|].
  destruct (cells_need_retry s1) as [|c retry].
  - injection H2 as <-. apply adds_refl.
  - by apply run_workThread_adds in H2.
Qed.

End OneThreadPerHost.

Lemma copyAndExecute_started (w : World)
    (key : list string) (pw : string) (cells : list string)
    (copyfiles : option (list string))
    (exec_file destfile command : option string) (o : Options.t)
    (s s' : State) (st : gmap string Z) (out : gmap string (list string))
    (bad : list string) :
  copyAndExecute w key pw cells copyfiles exec_file destfile command o s
  = (Ok (st, out, bad), s') ->
  exists evs again,
    trace s' = trace s ++ evs
    /\ started evs = cells ++ again
    /\ (forall c, c ∈ again -> c ∈ cells /\ able_to_retry w c = true)
    /\ (konepw o = false -> again = []).
Proof.
  unfold copyAndExecute. unfold bind at 1, fresh_locals, modify. simpl.
  set (s0 := {| status := ∅; output := ∅; badCells := [];
                cells_need_retry := []; waitList := [];
                output_truncated := false; child_running := false;
                clock := clock s; trace := trace s |}).
  destruct (_ && _ && _); [discriminate|].
  destruct (_ && _ && _); [discriminate|].
  set (p := prepare o key pw cells copyfiles exec_file destfile command).
  intros Hrun.
  apply run_passes_adds in Hrun as (s1 & H1 & (evs & Ht & Hs)).
  pose proof (run_workThread_touch w p (fun c => c ∈ cells) cells s0) as Hm.
  change (run_workThread w p cells s0 = (Ok (), s1)) in H1.
  rewrite H1 in Hm. simpl in Hm.
  destruct Hm as (_ & _ & (r & Hr & HR & Hk) & _); [done|done|].
  simpl in Hr. subst r.
  exists evs, (match cells_need_retry s1 with
               | [] => []
               | retry => remove_offending_keys w retry
               end).
  split; [exact Ht|]. split; [exact Hs|]. split.
  - intros c Hc. destruct (cells_need_retry s1) as [|c0 retry] eqn:E;
      [by apply elem_of_nil in Hc|].
    unfold remove_offending_keys in Hc.
    rewrite list_elem_of_In, filter_In, <- list_elem_of_In in Hc.
    destruct Hc as [Hc Ha]. split; [|exact Ha].
    rewrite Forall_forall in HR. by apply HR.
  - intros Hf. by rewrite (Hk Hf).
Qed.


(** X10. A call of copyAndExecute that returns has started one thread for
    every host of [cells], in the order of [cells], and after these a
    second thread only for hosts of [cells] that the retry round found in
    known_hosts (by name or by address); without
    --key-with-one-password there is no second round: the threads
    started are exactly [cells]. *)
Theorem copyAndExecute_one_thread_per_host (w : World)
    (key : list string) (pw : string) (cells : list string)
    (copyfiles : option (list string))
    (exec_file destfile command : option string) (o : Options.t)
    (s s' : State) (st : gmap string Z) (out : gmap string (list string))
    (bad : list string) :
  copyAndExecute w key pw cells copyfiles exec_file destfile command o s
  = (Ok (st, out, bad), s') ->
  exists evs again,
    trace s' = trace s ++ evs
    /\ started evs = cells ++ again
    /\ (forall c, c ∈ again -> c ∈ cells /\ able_to_retry w c = true)
    /\ (konepw o = false -> again = []).
Proof. apply copyAndExecute_started. Qed.

Lemma copyAndExecute_one_thread_per_host_witness :
  exists evs again,
    trace two_hosts_run.2 = trace init_state ++ evs
    /\ started evs = ["h1"; "h2"] ++ again
    /\ (forall c, c ∈ again ->
          c ∈ ["h1"; "h2"]
          /\ able_to_retry (mk_world (3, 9) greets (Some 1024) None) c = true)
    /\ (konepw (echo_hi ["h1"; "h2"] None 100000) = false -> again = []).
Proof.
  apply (copyAndExecute_one_thread_per_host
           (mk_world (3, 9) greets (Some 1024) None) [] EmptyString
           ["h1"; "h2"] None None None (Some "(echo hi) 2>&1")
           (echo_hi ["h1"; "h2"] None 100000) init_state two_hosts_run.2
           (ok_or (∅, ∅, []) two_hosts_run.1).1.1
           (ok_or (∅, ∅, []) two_hosts_run.1).1.2
           (ok_or (∅, ∅, []) two_hosts_run.1).2).
  vm_compute. reflexivity.
Defined.

(** ** The loop over the batches and main *)

Lemma fresh_locals_init : (fresh_locals init_state).2 = init_state.
Proof. reflexivity. Qed.

Lemma copyAndExecute_cases (w : World) (key : list string) (pw : string)
    (cells : list string) (copyfiles : option (list string))
    (exec_file destfile command : option string) (o : Options.t)
    (s : State) :
  (tools_missing w copyfiles exec_file command = true
   /\ exists msg,
        copyAndExecute w key pw cells copyfiles exec_file destfile command o s
        = (Raised (Error msg), (fresh_locals s).2))
  \/ (tools_missing w copyfiles exec_file command = false
      /\ copyAndExecute w key pw cells copyfiles exec_file destfile command o s
         = run_passes w
             (prepare o key pw cells copyfiles exec_file destfile command)
             (fresh_locals s).2).
Proof.
  unfold copyAndExecute, tools_missing.
  unfold bind at 1, fresh_locals, modify. simpl.
  destruct (_ && _ && _); simpl; [left; split; [done|]; by eexists|].
  destruct (_ && _ && _); simpl; [left; split; [done|]; by eexists|].
  by right.
Qed.

Lemma copyAndExecute_never_raises (w : World) (key : list string)
    (pw : string) (cells : list string) (copyfiles : option (list string))
    (exec_file destfile command : option string) (o : Options.t)
    (s : State) :
  tools_missing w copyfiles exec_file command = false ->
  allowed (fun _ => False)
    (copyAndExecute w key pw cells copyfiles exec_file destfile command o s).1.
Proof.
  intros Hm.
  destruct (copyAndExecute_cases w key pw cells copyfiles exec_file destfile
              command o s) as [[Hc _]|[_ ->]]; [congruence|].
  apply run_passes_allowed.
Qed.

Lemma max_status_ge (statusMap : gmap string Z) (returnValue : Z) :
  returnValue <= max_status statusMap returnValue.
Proof.
  unfold max_status. induction (snd <$> map_to_list statusMap); simpl; lia.
Qed.

Lemma copyAndExecute_unreachable (w : World) (key : list string)
    (pw : string) (cells : list string) (copyfiles : option (list string))
    (exec_file destfile command : option string) (o : Options.t)
    (s s' : State) (st : gmap string Z) (out : gmap string (list string))
    (bad : list string) :
  copyAndExecute w key pw cells copyfiles exec_file destfile command o s
  = (Ok (st, out, bad), s') ->
  exists evs,
    trace s' = trace s ++ evs
    /\ (forall c, In (EvExit c 255 false) evs -> c ∈ bad).
Proof.
  intros Hrun.
  destruct (copyAndExecute_cases w key pw cells copyfiles exec_file destfile
              command o s) as [[_ [msg Hc]]|[_ Hc]]; [congruence|].
  rewrite Hc in Hrun.
  pose proof (run_passes_mono w
                (prepare o key pw cells copyfiles exec_file destfile command)
                (fresh_locals s).2) as Hm.
  rewrite Hrun in Hm.
  apply run_passes_returns in Hrun as ->.
  destruct Hm as (evs & Ht & _ & _ & HX). by exists evs.
Qed.

Section BatchLoop.

Variable w : World.
Variable o : Options.t.
Variable key : list string.
Variable pw : string.
Variable command : option string.
Variable clist : list string.

Hypothesis Hthds : Options.maxThds o = 0 \/ 1 <= Options.maxThds o.

(** The hosts of the batch that begins at [b], and where the next one
    begins. *)
Lemma batch_split (b : nat) :
  let batchEnd :=
    if (Options.maxThds o =? 0)
       || (Z.of_nat (length clist) - Z.of_nat b <=? Options.maxThds o)
    then length clist
    else Z.to_nat (Z.of_nat b + Options.maxThds o) in
  take (batchEnd - b) (drop b clist) ++ drop batchEnd clist = drop b clist
  /\ ((batchEnd =? length clist)%nat = true -> drop batchEnd clist = [])
  /\ ((batchEnd =? length clist)%nat = false ->
      (b < batchEnd < length clist)%nat).
Proof.
  simpl.
  destruct ((Options.maxThds o =? 0)
            || (Z.of_nat (length clist) - Z.of_nat b <=? Options.maxThds o))
    eqn:E.
  - rewrite drop_all, app_nil_r. split; [|split; [done|]].
    + apply take_ge. rewrite length_drop. lia.
    + rewrite Nat.eqb_refl. discriminate.
  - apply orb_false_iff in E as [E0 E1].
    apply Z.eqb_neq in E0. apply Z.leb_gt in E1.
    destruct Hthds as [?|Hm]; [done|].
    set (n := Z.to_nat (Options.maxThds o)).
    assert (Hn : Z.to_nat (Z.of_nat b + Options.maxThds o) = (b + n)%nat)
      by (unfold n; lia).
    rewrite Hn. replace (b + n - b)%nat with n by lia.
    split; [|split].
    + rewrite <- drop_drop. apply take_drop.
    + intros Heq. apply Nat.eqb_eq in Heq. unfold n in Heq. lia.
    + intros _. unfold n. lia.
Qed.

(** The writes of main move the clock and nothing else. *)
Lemma write_console_trace (s : State) : trace (write_console w s).2 = trace s.
Proof.
  unfold write_console, bind, tick. simpl.
  by destruct (console_error w (clock s)).
Qed.

Lemma print_lines_trace (lines : list Printed) (s : State) :
  trace (print_lines w lines s).2 = trace s.
Proof.
  revert s. induction lines as [|x lines IH]; intros s; [done|].
  simpl. unfold bind. pose proof (write_console_trace s) as Hw.
  destruct (write_console w s) as [[[]| | | |] s1]; simpl in *; try exact Hw.
  by rewrite IH.
Qed.

Lemma list_results_trace (statusMap : gmap string Z)
    (outputMap : gmap string (list string)) (s : State) :
  trace (list_results w clist statusMap outputMap o s).2 = trace s.
Proof.
  unfold list_results, bind.
  match goal with
  | |- context [print_lines w ?l s] =>
      pose proof (print_lines_trace l s) as Hp;
      destruct (print_lines w l s) as [[[]| | | |] s1]
  end; simpl in *; try exact Hp.
  unfold listed. by destruct (listResults _ _ _ _ _ _ _).2.
Qed.

(** What the two writes after a batch leave. *)
Lemma report_trace (bad : list string) (statusMap : gmap string Z)
    (outputMap : gmap string (list string)) (s s2 s3 : State)
    (u1 u2 : unit) :
  match bad with [] => ret () | _ :: _ => write_console w end s = (Ok u1, s2) ->
  list_results w clist statusMap outputMap o s2 = (Ok u2, s3) ->
  trace s3 = trace s.
Proof.
  intros H1 H2.
  pose proof (list_results_trace statusMap outputMap s2) as Ht2.
  rewrite H2 in Ht2. simpl in Ht2. rewrite Ht2.
  destruct bad; [unfold ret in H1; by simplify_eq|].
  pose proof (write_console_trace s) as Ht1. by rewrite H1 in Ht1.
Qed.

Lemma batch_loop_started (fuel b : nat) (returnValue z : Z) (s s' : State) :
  konepw o = false ->
  batch_loop w o key pw command clist fuel b returnValue s = (Ok z, s') ->
  adds (drop b clist) s s'.
Proof.
  intros Hk. revert b returnValue s.
  induction fuel as [|fuel IH]; intros b rv s Hb; [discriminate|].
  simpl in Hb.
  apply bind_Ok_inv in Hb as ([[statusMap outputMap] bad] & s1 & Hc & Hb).
  apply bind_Ok_inv in Hb as (u1 & s2 & Hw & Hb).
  apply bind_Ok_inv in Hb as (u2 & s3 & Hl & Hb).
  pose proof (report_trace _ _ _ _ _ _ _ _ Hw Hl) as Hrep.
  destruct (batch_split b) as (Hsplit & Hlast & Hmore).
  simpl in Hsplit, Hlast, Hmore.
  apply copyAndExecute_started in Hc as (evs & again & Ht & Hs & _ & Ha).
  rewrite (Ha Hk), app_nil_r in Hs.
  assert (H1 : adds (take
                       ((if (Options.maxThds o =? 0)
                            || (Z.of_nat (length clist) - Z.of_nat b
                                <=? Options.maxThds o)
                         then length clist
                         else Z.to_nat (Z.of_nat b + Options.maxThds o)) - b)
                       (drop b clist)) s s3).
  { exists evs. split; [by rewrite Hrep|done]. }
  rewrite <- Hsplit.
  match type of Hb with
  | context [if (?x =? length clist)%nat then _ else _] =>
      destruct (x =? length clist)%nat eqn:E
  end.
  - injection Hb as _ <-. rewrite (Hlast eq_refl), app_nil_r. exact H1.
  - apply IH in Hb. by eapply adds_trans.
Qed.

Lemma write_console_goes (s : State) :
  (forall n, console_error w n = None) ->
  allowed is_Other (write_console w s).1.
Proof.
  intros Hok. unfold write_console, bind, tick. simpl. by rewrite Hok.
Qed.

Lemma print_lines_go (lines : list Printed) (s : State) :
  (forall n, console_error w n = None) ->
  allowed is_Other (print_lines w lines s).1.
Proof.
  intros Hok. revert s. induction lines as [|x lines IH]; intros s; [done|].
  simpl. apply allowed_bind; [by apply write_console_goes|].
  intros _ s'. apply IH.
Qed.

Lemma list_results_goes (statusMap : gmap string Z)
    (outputMap : gmap string (list string)) (s : State) :
  (forall n, console_error w n = None) ->
  allowed is_Other (list_results w clist statusMap outputMap o s).1.
Proof.
  intros Hok. unfold list_results.
  apply allowed_bind; [by apply print_lines_go|].
  intros _ s'. unfold listed.
  destruct (listResults _ _ _ _ _ _ _).2 as [e|] eqn:He; [|done].
  by apply listResults_exn in He as [->| ->].
Qed.

(** With ssh and scp at hand and a console that takes the output, only
    an exception of the listing (re.error) leaves the loop. *)
Lemma batch_loop_never_raises (fuel b : nat) (returnValue : Z) (s : State) :
  tools_missing w (Options.file o) (Options.exec_file o) command = false ->
  (forall n, console_error w n = None) ->
  allowed is_Other
    (batch_loop w o key pw command clist fuel b returnValue s).1.
Proof.
  intros Hm Hok. revert b returnValue s.
  induction fuel as [|fuel IH]; intros b rv s; [done|].
  simpl. apply allowed_bind.
  { eapply allowed_weaken; [|by apply copyAndExecute_never_raises]. done. }
  intros [[statusMap outputMap] bad] s1.
  apply allowed_bind.
  { destruct bad; [done|by apply write_console_goes]. }
  intros _ s2. apply allowed_bind; [by apply list_results_goes|].
  intros _ s3.
  match goal with
  | |- context [if (?x =? length clist)%nat then _ else _] =>
      destruct (x =? length clist)%nat eqn:E; [done|]
  end.
  apply IH.
Qed.

(** With a console that takes the output, an exception that main turns
    into an exit status leaves the loop only from the check before the
    first batch. *)
Lemma batch_loop_raises (fuel b : nat) (returnValue : Z) (s s' : State)
    (e : exn) :
  (forall n, console_error w n = None) ->
  batch_loop w o key pw command clist fuel b returnValue s = (Raised e, s') ->
  is_Other e \/ s' = (fresh_locals s).2.
Proof.
  intros Hok Hb.
  destruct (tools_missing w (Options.file o) (Options.exec_file o) command)
    eqn:Hm.
  - destruct fuel as [|fuel]; [injection Hb as <- _; by left|].
    right. simpl in Hb.
    match type of Hb with
    | bind (copyAndExecute ?a ?b ?c ?d ?e ?f ?g ?h ?i) _ _ = _ =>
        destruct (copyAndExecute_cases a b c d e f g h i s)
          as [[_ [msg Hc]]|[Hc _]]; [|congruence]
    end.
    unfold bind in Hb. rewrite Hc in Hb. by injection Hb as _ <-.
  - left.
    pose proof (batch_loop_never_raises fuel b returnValue s Hm Hok) as Ha.
    by rewrite Hb in Ha.
Qed.

Lemma batch_loop_unreachable (fuel b : nat) (returnValue z : Z)
    (s s' : State) :
  batch_loop w o key pw command clist fuel b returnValue s = (Ok z, s') ->
  exists evs,
    trace s' = trace s ++ evs
    /\ (1 <= returnValue -> 1 <= z)
    /\ (forall c, In (EvExit c 255 false) evs -> 1 <= z).
Proof.
  revert b returnValue s.
  induction fuel as [|fuel IH]; intros b rv s Hb; [discriminate|].
  simpl in Hb.
  apply bind_Ok_inv in Hb as ([[statusMap outputMap] bad] & s1 & Hc & Hb).
  apply bind_Ok_inv in Hb as (u1 & s2 & Hw & Hb).
  apply bind_Ok_inv in Hb as (u2 & s3 & Hl & Hb).
  pose proof (report_trace _ _ _ _ _ _ _ _ Hw Hl) as Hrep.
  apply copyAndExecute_unreachable in Hc as (evs & Ht & HX).
  rewrite <- Hrep in Ht.
  set (rv1 := max_status statusMap match bad with [] => rv | _ :: _ => 1 end)
    in Hb.
  assert (Hrv : 1 <= rv -> 1 <= rv1).
  { intros Hge. unfold rv1.
    pose proof (max_status_ge statusMap
                  match bad with [] => rv | _ :: _ => 1 end).
    destruct bad; lia. }
  assert (Hbad : forall c, In (EvExit c 255 false) evs -> 1 <= rv1).
  { intros c Hin. apply HX in Hin. unfold rv1.
    pose proof (max_status_ge statusMap
                  match bad with [] => rv | _ :: _ => 1 end).
    destruct bad; [by apply elem_of_nil in Hin|lia]. }
  match type of Hb with
  | context [if (?x =? length clist)%nat then _ else _] =>
      destruct (x =? length clist)%nat eqn:E
  end.
  - injection Hb as <- <-. exists evs. by repeat split.
  - apply IH in Hb as (evs2 & Ht2 & Hge & HX2).
    exists (evs ++ evs2). split; [by rewrite Ht2, Ht, app_assoc|].
    split; [by auto|].
    intros c Hin. apply in_app_or in Hin as [Hin|Hin]; [|by eapply HX2].
    apply Hge. by eapply Hbad.
Qed.

(** Whatever the console does, the trace of a loop that raises holds an
    unreachable host only when the exception is one of the listing. *)
Lemma batch_loop_trace (fuel b : nat) (returnValue : Z) (s : State) :
  exists evs,
    trace (batch_loop w o key pw command clist fuel b returnValue s).2
    = trace s ++ evs.
Proof.
  revert b returnValue s.
  induction fuel as [|fuel IH]; intros b rv s.
  - exists []. simpl. by rewrite app_nil_r.
  - simpl. unfold bind at 1.
    match goal with
    | |- context [copyAndExecute ?a ?b ?c ?d ?e ?f ?g ?h ?i s] =>
        destruct (copyAndExecute_cases a b c d e f g h i s)
          as [[_ [msg Hc]]|[_ Hc]]
    end.
    + rewrite Hc. exists []. simpl. by rewrite app_nil_r.
    + rewrite Hc.
      match goal with
      | |- context [run_passes w ?pp ?s0] =>
          pose proof (run_passes_mono w pp s0) as Hm;
          destruct (run_passes w pp s0) as [[[[st out] bad]| | | |] s1]
      end; apply steps_trace in Hm as (evs & Ht & _); simpl in *;
        try (by exists evs).
      unfold bind at 1.
      pose proof (write_console_trace s1) as Hw.
      assert (Hw' : trace (match bad with
                           | [] => ret ()
                           | _ :: _ => write_console w
                           end s1).2 = trace s1) by by destruct bad.
      destruct (match bad with [] => ret () | _ :: _ => write_console w end s1)
        as [[[]| | | |] s2]; simpl in *;
        try (exists evs; by rewrite Hw', Ht).
      unfold bind at 1.
      pose proof (list_results_trace st out s2) as Hl.
      destruct (list_results w clist st out o s2) as [[[]| | | |] s3];
        simpl in *; try (exists evs; by rewrite Hl, Hw', Ht).
      match goal with
      | |- context [if (?x =? length clist)%nat then _ else _] =>
          destruct (x =? length clist)%nat
      end.
      * exists evs. simpl. by rewrite Hl, Hw', Ht.
      * match goal with
        | |- context [batch_loop w o key pw command clist fuel ?b1 ?rv1 s3] =>
            destruct (IH b1 rv1 s3) as (evs2 & Ht2)
        end.
        exists (evs ++ evs2). by rewrite Ht2, Hl, Hw', Ht, app_assoc.
Qed.

End BatchLoop.

Lemma checkKeys_cases (w : World) (verbose : bool) :
  (exists k, checkKeys w verbose = Ok k)
  \/ (exists e, checkKeys w verbose = Raised e).
Proof.
  unfold checkKeys. destruct (testmode w); [left; by eexists|].
  destruct (rsa_pub w); [left; by eexists|].
  destruct (dsa_pub w && verbose); [right; by eexists|].
  destruct (keygen_rsa_pub w); [left|right]; by eexists.
Qed.

Lemma buildCellList_cases (open_file : string -> FileRead)
    (cells : option (list string)) (filename : option string) :
  (exists l, buildCellList open_file cells filename = Ok l)
  \/ (exists e, buildCellList open_file cells filename = Raised e).
Proof.
  unfold buildCellList, file_cells.
  destruct (truthy_str filename); [|left; by eexists].
  destruct (open_file _); [left|right]; by eexists.
Qed.

Lemma update_max_threads_konepw (w : World) (o : Options.t) :
  konepw (update_max_threads w o).2 = konepw o.
Proof.
  unfold update_max_threads. destruct (_ || _); [done|].
  destruct (fd_limit w); [|done]. by destruct (_ <? 1).
Qed.

(** The ways through the checks of main: an exception before anything was
    started, or the loop over the batches for the hosts of buildCellList. *)
Lemma main_body_inv (Q : Res Z * State -> Prop) (w : World) (o : Options.t)
    (args : list string) (s : State) :
  (forall e, Q (Raised e, s)) ->
  (forall o2 key pw command clist,
      buildCellList (open_file w) (Options.cells o) (Options.groupfile o)
      = Ok clist ->
      clist <> [] ->
      (Options.maxThds o2 = 0 \/ 1 <= Options.maxThds o2) ->
      konepw o2 = konepw o ->
      Q (batch_loop w o2 key pw command clist (S (length clist)) 0 0 s)) ->
  Q (main_body w o args s).
Proof.
  intros Hraise Hloop. unfold main_body.
  set (o1 := Options.with_files _ _ o).
  assert (Husage : forall (b : bool) msg (k : M Z),
             Q (k s) -> Q (usage b msg k s)).
  { intros b msg k Hk. unfold usage. destruct b; [apply Hraise|exact Hk]. }
  do 5 apply Husage.
  unfold bind at 1.
  assert (Hkeys : forall v,
             (exists k, lift (checkKeys w v) s = (Ok k, s))
             \/ (exists e, lift (checkKeys w v) s = (Raised e, s))).
  { intros v. unfold lift.
    destruct (checkKeys_cases w v) as [[k ->]|[e ->]]; eauto. }
  assert (Hkey : exists r,
             (if Options.pushKey o1 || Options.konepw o1 || Options.dropKey o1
              then lift (checkKeys w (truthy_Z (Options.verbosity o1)))
              else ret []) s = (r, s)
             /\ ((exists k, r = Ok k) \/ (exists e, r = Raised e))).
  { destruct (_ || _ || _).
    - destruct (Hkeys (truthy_Z (Options.verbosity o1)))
        as [[k ->]|[e ->]]; eauto.
    - eexists. split; [reflexivity|]. eauto. }
  destruct Hkey as (r & Hkey & Hr0). rewrite Hkey.
  destruct Hr0 as [[key ->]|[e ->]]; [|apply Hraise].
  do 2 apply Husage.
  unfold bind at 1. unfold lift at 1.
  destruct (buildCellList_cases (open_file w) (Options.cells o1)
              (Options.groupfile o1)) as [[clist Hcl]|[e Hcl]];
    rewrite Hcl; [|apply Hraise].
  unfold usage at 1.
  destruct (negb (Options.maxThds o1 =? 0) && Options.serializeOps o1);
    [apply Hraise|].
  unfold usage at 1.
  destruct (negb (Options.maxThds o1 =? 0) && (Options.maxThds o1 <? 1))
    eqn:Eb; [apply Hraise|].
  assert (Hr : Options.maxThds o1 = 0 \/ 1 <= Options.maxThds o1).
  { destruct (Options.maxThds o1 =? 0) eqn:E0; simpl in Eb.
    - left. by apply Z.eqb_eq.
    - right. by apply Z.ltb_ge. }
  set (o2 := if 1 <? Z.of_nat (length clist)
             then (update_max_threads w o1).2 else o1).
  assert (Hr2 : Options.maxThds o2 = 0 \/ 1 <= Options.maxThds o2).
  { unfold o2. destruct (1 <? _); [by apply update_max_threads_range|done]. }
  assert (Hk2 : konepw o2 = konepw o).
  { unfold o2. destruct (1 <? _); [by rewrite update_max_threads_konepw|done]. }
  clearbody o2.
  unfold usage at 1.
  destruct (Z.of_nat (length clist) =? 0) eqn:El; [apply Hraise|].
  assert (Hne : clist <> []) by (intros ->; discriminate).
  assert (Hfiles : forall fs (k : M Z),
             Q (k s) ->
             Q (fold_right
                  (fun item_file k =>
                     match check_file w item_file false with
                     | Some msg => raise (Error msg)
                     | None => k
                     end) k fs s)).
  { intros fs k Hk. induction fs as [|f fs IH]; simpl; [exact Hk|].
    destruct (check_file w f false); [apply Hraise|apply IH]. }
  assert (Hrest : forall fs,
             Q (fold_right
                  (fun item_file k =>
                     match check_file w item_file false with
                     | Some msg => raise (Error msg)
                     | None => k
                     end)
                  (usage (truthy_str (Options.destfile o2)
                          && negb (truthy_str (Options.exec_file o2)
                                   || truthy_list (Options.file o2)))
                     "Cannot specify destination without copy file or exec file"
                     (batch_loop w o2 key
                        (if Options.konepw o2 then getpass w else EmptyString)
                        match args with
                        | [] => None
                        | _ :: _ => Some (buildCommand w args o1)
                        end clist (S (length clist)) 0 0)) fs s)).
  { intros fs. apply Hfiles. apply Husage. by apply Hloop. }
  destruct (truthy_str (Options.exec_file o2)).
  - destruct (check_file w _ true); [apply Hraise|]. apply Hrest.
  - apply Hrest.
Qed.

Lemma buildCellList_NoDup (open_file : string -> FileRead)
    (cells : option (list string)) (filename : option string)
    (clist : list string) :
  buildCellList open_file cells filename = Ok clist -> NoDup clist.
Proof.
  unfold buildCellList. destruct (file_cells open_file filename);
    try discriminate.
  intros [= <-]. apply unique_from_nil_NoDup.
Qed.

(** What a run of the try block of main amounts to. *)
Lemma main_body_summary (w : World) (o : Options.t) (args : list string) :
  match main_body w o args init_state with
  | (Ok z, s') =>
      (exists clist,
          buildCellList (open_file w) (Options.cells o) (Options.groupfile o)
          = Ok clist
          /\ (konepw o = false -> started (trace s') = clist))
      /\ (forall c, In (EvExit c 255 false) (trace s') -> 1 <= z)
  | (Raised e, s') =>
      (forall n, console_error w n = None) -> is_Other e \/ s' = init_state
  | _ => True
  end.
Proof.
  apply (main_body_inv
           (fun r =>
              match r with
              | (Ok z, s') =>
                  (exists clist,
                      buildCellList (open_file w) (Options.cells o)
                        (Options.groupfile o) = Ok clist
                      /\ (konepw o = false -> started (trace s') = clist))
                  /\ (forall c, In (EvExit c 255 false) (trace s') -> 1 <= z)
              | (Raised e, s') =>
                  (forall n, console_error w n = None) ->
                  is_Other e \/ s' = init_state
              | _ => True
              end)); [by right|].
  intros o2 key pw command clist Hcl Hne Hthds Hk.
  destruct (batch_loop w o2 key pw command clist (S (length clist)) 0 0
              init_state) as [[z|e| | |] s'] eqn:Hb; try done.
  - split.
    + exists clist. split; [exact Hcl|]. intros Hf.
      apply batch_loop_started in Hb as (evs & Ht & Hs);
        [|done|by rewrite Hk].
      simpl in Ht. by rewrite Ht.
    + apply batch_loop_unreachable in Hb as (evs & Ht & _ & HX).
      simpl in Ht. rewrite Ht. exact HX.
  - intros Hok. by apply batch_loop_raises in Hb.
Qed.

(** X11. When dcli, run without --key-with-one-password and without -r
    (the listing of the results then compiles no pattern), ends with exit
    status 0 or 1, it has started exactly one thread for every host of
    the list that buildCellList made of -c and -g, in the order of that
    list, and the list has no host twice: the batches cut the list into
    pieces without losing or repeating a host. *)
Theorem main_starts_each_host_once (w : World) (o : Options.t)
    (args : list string) (code : Z) :
  truthy_str (Options.regexp o) = false ->
  outcome (main w o args) = Some (Ok code) ->
  code <> 2 ->
  Options.konepw o = false ->
  exists clist,
    buildCellList (open_file w) (Options.cells o) (Options.groupfile o)
    = Ok clist
    /\ NoDup clist
    /\ started (trace (final_state (main w o args))) = clist.
Proof.
  intros _. unfold main. destruct (Options.vmstatOps o); [discriminate|].
  pose proof (main_body_summary w o args) as Hs.
  destruct (main_body w o args init_state) as [[z|e| | |] s']; simpl;
    try discriminate.
  - intros _ _ Hk. destruct Hs as [(clist & Hcl & Hst) _].
    exists clist. split; [exact Hcl|].
    split; [by eapply buildCellList_NoDup|by apply Hst].
  - destruct e; try destruct (version_ge w 3 0); unfold outcome; simpl;
      try discriminate; by intros [= <-].
Qed.

Lemma main_starts_each_host_once_witness :
  exists clist,
    buildCellList (open_file (mk_world (3, 9) greets (Some 1024) None))
      (Options.cells (echo_hi ["h1,h2"] None 100000))
      (Options.groupfile (echo_hi ["h1,h2"] None 100000))
    = Ok clist
    /\ NoDup clist
    /\ started (trace (final_state two_hosts_main_run)) = clist.
Proof.
  apply (main_starts_each_host_once
           (mk_world (3, 9) greets (Some 1024) None)
           (echo_hi ["h1,h2"] None 100000) ["echo"; "hi"] 0);
    [reflexivity|vm_compute; reflexivity|lia|reflexivity].
Defined.





(** A console that fails, and a pattern that does not compile, after the
    batch: the host was contacted and its exit status 255 collected, and
    main returns 2 for the IOError of the write; with the pattern, main
    ends by re.error after the thread of the host has run. *)
Lemma main_fails_after_batch :
  outcome broken_pipe_run = Some (Ok 2)
  /\ started (trace (final_state broken_pipe_run)) = ["h1"]
  /\ exits (trace (final_state broken_pipe_run)) = [EvExit "h1" 255 false]
  /\ outcome bad_pattern_run = Some (Raised (OtherException "re.error"))
  /\ started (trace (final_state bad_pattern_run)) = ["h1"].
Proof. vm_compute. repeat split. Qed.

Lemma truthy_buildCommand (w : World) (args : list string) (o : Options.t) :
  PyStr.truthy (buildCommand w args o) = true.
Proof.
  destruct (buildCommand_head w args o) as (c & rest & -> & _). done.
Qed.

(** X14. Options that exclude each other are turned down before anything
    is done: a command together with a (non-blank) exec file, --hidestderr
    without a command, and -n together with -r each end dcli with exit
    status 2 in the initial state, whatever the other options and the
    hosts are. *)
Theorem main_rejects_conflicting_options (w : World) (o : Options.t)
    (args : list string) :
  Options.vmstatOps o = None ->
  (args <> [] /\ truthy_str (PyStr.strip <$> Options.exec_file o) = true)
  \/ (Options.hideStderr o = true /\ args = [])
  \/ (Options.listNegatives o = true
      /\ truthy_str (Options.regexp o) = true) ->
  main w o args = Some (Ok 2, init_state).
Proof.
  intros Hv Hconf. unfold main. rewrite Hv. unfold main_body.
  set (o1 := Options.with_files _ _ o).
  set (command := match args with
                  | [] => None
                  | _ :: _ => Some (buildCommand w args o1)
                  end).
  unfold usage at 1.
  destruct (negb (truthy_str command)
            && negb (Options.list_hosts o1 || truthy_str (Options.exec_file o1)
                     || truthy_list (Options.file o1) || Options.pushKey o1
                     || Options.konepw o1 || Options.dropKey o1)); [done|].
  unfold usage at 1.
  destruct (truthy_str command && truthy_str (Options.exec_file o1)) eqn:E2;
    [done|].
  unfold usage at 1.
  destruct (truthy_list (Options.file o1) && truthy_str (Options.exec_file o1));
    [done|].
  unfold usage at 1.
  destruct (Options.hideStderr o1 && (Z.of_nat (length args) =? 0)) eqn:E4;
    [done|].
  unfold usage at 1.
  destruct (Options.listNegatives o1 && truthy_str (Options.regexp o1)) eqn:E5;
    [done|].
  exfalso. simpl in E2, E4, E5.
  destruct Hconf as [[Ha Hx]|[[Hh ->]|[Hn Hr]]].
  - assert (Hc : truthy_str command = true).
    { unfold command. destruct args; [done|]. apply truthy_buildCommand. }
    rewrite Hc in E2. simpl in E2.
    destruct (Options.exec_file o) as [x|]; [|done]. simpl in Hx, E2.
    destruct (PyStr.truthy x) eqn:Ex; simpl in E2; [congruence|].
    destruct x; [|done]. vm_compute in Hx. discriminate.
  - by rewrite Hh in E4.
  - by rewrite Hn, Hr in E5.
Qed.

Lemma main_rejects_conflicting_options_witness :
  main (mk_world (3, 9) greets (Some 1024) None) negatives_and_regexp
    ["echo"; "hi"]
  = Some (Ok 2, init_state).
Proof.
  apply (main_rejects_conflicting_options
           (mk_world (3, 9) greets (Some 1024) None) negatives_and_regexp
           ["echo"; "hi"]); [reflexivity|].
  right. right. split; reflexivity.
Defined.

(** ** The order of the stages *)

Lemma stages_app (l1 l2 : list Event) :
  stages (l1 ++ l2) = stages l1 ++ stages l2.
Proof. apply omap_app. Qed.

Lemma stages_spawn (o : Options.t) (evs : list Event) :
  Forall (spawn_event o) evs -> stages evs = [].
Proof.
  induction 1 as [|e evs He _ IH]; [done|].
  by destruct e.
Qed.

Lemma enters_weaken (l l' : list Stage) (s s' : State) :
  sublist l l' -> enters l s s' -> enters l' s s'.
Proof.
  intros Hsub (evs & Ht & Hs). exists evs. split; [done|].
  by etrans.
Qed.

Lemma enters_trans (l1 l2 : list Stage) (s1 s2 s3 : State) :
  enters l1 s1 s2 -> enters l2 s2 s3 -> enters (l1 ++ l2) s1 s3.
Proof.
  intros (e1 & H1 & S1) (e2 & H2 & S2). exists (e1 ++ e2).
  split; [by rewrite H2, H1, app_assoc|].
  rewrite stages_app. by apply sublist_app.
Qed.

Lemma enters_bind {A B} (l1 l2 : list Stage) (m : M A) (f : A -> M B) :
  mono (enters l1) m -> (forall a, mono (enters l2) (f a)) ->
  mono (enters (l1 ++ l2)) (bind m f).
Proof.
  intros Hm Hf s. unfold bind. specialize (Hm s).
  destruct (m s) as [[a| | | |] s']; simpl in *;
    try (eapply enters_weaken; [|exact Hm]; by apply sublist_inserts_r).
  eapply enters_trans; [exact Hm|]. apply Hf.
Qed.

Lemma enters_ret {A} (l : list Stage) (a : A) : mono (enters l) (ret a).
Proof.
  intros s. exists []. split; [by rewrite app_nil_r|apply sublist_nil_l].
Qed.

Section StageOrder.

Variable w : World.
Variable p : Pass.
Variable cell : string.

Lemma run_stage_enters (stage : Stage) (cmd : string) (ser : bool)
    (input out : list string) :
  mono (enters [stage]) (run_stage w p cell stage cmd ser input out).
Proof.
  unfold run_stage.
  apply (enters_bind [stage] []).
  - intros s. exists [EvStage cell stage cmd]. by split.
  - intros _. apply (enters_bind [] []); [|intros ?; apply enters_ret].
    intros s. pose proof (runCommand_mono w p cell cmd ser input s) as Hm.
    apply steps_trace in Hm as (evs & Ht & HF).
    exists evs. split; [exact Ht|]. by rewrite (stages_spawn _ _ HF).
Qed.

Lemma run_enters :
  mono (enters [KeyExchange; MakeDestDir; Copy; RunCommand; KeyDrop])
    (run w p cell).
Proof.
  unfold run, run_before_drop.
  apply (enters_bind [KeyExchange; MakeDestDir; Copy; RunCommand] [KeyDrop]).
  - apply (enters_bind [KeyExchange] [MakeDestDir; Copy; RunCommand]).
    { unfold stage_key_exchange.
      destruct (_ && _); [apply run_stage_enters|apply enters_ret]. }
    intros st1. apply (enters_bind [MakeDestDir] [Copy; RunCommand]).
    { unfold stage_mkdir.
      destruct (_ && _ && _); [apply run_stage_enters|apply enters_ret]. }
    intros st2. apply (enters_bind [Copy] [RunCommand]).
    { unfold stage_copy.
      destruct (_ && _); [apply run_stage_enters|apply enters_ret]. }
    intros st3. unfold stage_command.
    destruct (_ && _); [apply run_stage_enters|apply enters_ret].
  - intros st. apply (enters_bind [KeyDrop] []).
    { unfold stage_key_drop.
      destruct (_ && _ && _); [apply run_stage_enters|apply enters_ret]. }
    intros st'. intros s. exists []. split; [|apply sublist_nil_l].
    simpl. by rewrite app_nil_r.
Qed.

(** X15. A worker thread goes through the stages in one fixed order and
    enters none twice: the stages it enters are, in order, some of key
    exchange, creation of the destination directory, copy, command and
    key drop, however the run ends. *)
Theorem run_stages_in_order (s : State) :
  exists evs,
    trace (run w p cell s).2 = trace s ++ evs
    /\ sublist (stages evs)
         [KeyExchange; MakeDestDir; Copy; RunCommand; KeyDrop].
Proof. apply run_enters. Qed.

End StageOrder.

(** ** listResults *)

Section ListResultsFacts.

Variable re_compile : string -> option (string -> bool).

Lemma print_output_elem (compiledRE : option (string -> bool))
    (preserveSpaces : bool) (cell : string) (output : list string)
    (x : Printed) :
  x ∈ print_output compiledRE preserveSpaces cell output
  <-> exists l,
        l ∈ output
        /\ (forall matches, compiledRE = Some matches ->
                            matches (PyStr.strip l) = false)
        /\ x = PrintLine cell (if preserveSpaces then PyStr.rstrip l
                               else PyStr.strip l).
Proof.
  unfold print_output. rewrite list_elem_of_fmap. split.
  - intros (l & -> & Hl). exists l.
    rewrite list_elem_of_In, filter_In, <- list_elem_of_In in Hl.
    destruct Hl as [Hl Hm]. split; [exact Hl|]. split; [|done].
    intros matches ->. by apply negb_true_iff.
  - intros (l & Hl & Hm & ->). exists l. split; [done|].
    rewrite list_elem_of_In, filter_In, <- list_elem_of_In.
    split; [exact Hl|]. destruct compiledRE as [matches|]; [|done].
    by rewrite (Hm matches eq_refl).
Qed.

(** With a status for every host that has an output the last loop goes
    through. *)
Lemma print_cells_elem (statusMap : gmap string Z)
    (outputMap : gmap string (list string)) (listNegatives : bool)
    (compiledRE : option (string -> bool)) (preserveSpaces : bool)
    (cells : list string) :
  (listNegatives = true ->
   forall c, c ∈ cells -> is_Some (outputMap !! c) ->
             is_Some (statusMap !! c)) ->
  (print_cells statusMap outputMap listNegatives compiledRE preserveSpaces
     cells).2 = None
  /\ forall x,
       x ∈ (print_cells statusMap outputMap listNegatives compiledRE
              preserveSpaces cells).1
       <-> exists c output,
             c ∈ cells /\ outputMap !! c = Some output
             /\ (listNegatives = true ->
                 exists st, statusMap !! c = Some st /\ 0 < st)
             /\ x ∈ print_output compiledRE preserveSpaces c output.
Proof.
  intros Hkeys. induction cells as [|cell rest IH].
  - split; [done|]. intros x. split; [by intros ?%elem_of_nil|].
    by intros (c & output & ?%elem_of_nil & _).
  - destruct IH as [IHe IHm].
    { intros Hn c Hc. apply Hkeys; [done|by right]. }
    assert (Hskip : forall x,
               x ∈ (print_cells statusMap outputMap listNegatives compiledRE
                      preserveSpaces rest).1 ->
               exists c output,
                 c ∈ cell :: rest /\ outputMap !! c = Some output
                 /\ (listNegatives = true ->
                     exists st, statusMap !! c = Some st /\ 0 < st)
                 /\ x ∈ print_output compiledRE preserveSpaces c output).
    { intros x Hx. apply IHm in Hx as (c & output & Hc & Ho & Hs & Hx).
      exists c, output. split; [by right|done]. }
    assert (Hshow : forall output,
               outputMap !! cell = Some output ->
               (listNegatives = true ->
                exists st, statusMap !! cell = Some st /\ 0 < st) ->
               forall x,
                 x ∈ print_output compiledRE preserveSpaces cell output
                       ++ (print_cells statusMap outputMap listNegatives
                             compiledRE preserveSpaces rest).1
                 <-> exists c output,
                       c ∈ cell :: rest /\ outputMap !! c = Some output
                       /\ (listNegatives = true ->
                           exists st, statusMap !! c = Some st /\ 0 < st)
                       /\ x ∈ print_output compiledRE preserveSpaces c
                                output).
    { intros output Ho Hs x. rewrite elem_of_app. split.
      - intros [Hx|Hx]; [|by apply Hskip].
        exists cell, output. split; [by left|done].
      - intros (c & output' & Hc & Ho' & Hs' & Hx).
        apply elem_of_cons in Hc as [->|Hc].
        + left. congruence.
        + right. apply IHm. by exists c, output'. }
    simpl. destruct (outputMap !! cell) as [output|] eqn:Ho.
    + destruct listNegatives; simpl.
      * destruct (Hkeys eq_refl cell) as [st Hst]; [by left|done|].
        rewrite Hst. destruct (0 <? st) eqn:E.
        -- split; [exact IHe|]. apply Hshow; [done|].
           intros _. exists st. split; [done|]. by apply Z.ltb_lt.
        -- split; [exact IHe|]. intros x. split; [apply Hskip|].
           intros (c & output' & Hc & Ho' & Hs' & Hx).
           apply IHm. exists c, output'.
           apply elem_of_cons in Hc as [->|Hc]; [|done].
           destruct (Hs' eq_refl) as (st' & Hst' & Hpos).
           apply Z.ltb_ge in E. rewrite Hst in Hst'. injection Hst' as <-.
           lia.
      * split; [exact IHe|]. apply Hshow; [done|discriminate].
    + split; [exact IHe|]. intros x. split; [apply Hskip|].
      intros (c & output' & Hc & Ho' & Hs' & Hx). apply IHm.
      exists c, output'. apply elem_of_cons in Hc as [->|Hc]; [|done].
      congruence.
Qed.

(** X16. The host lines of listResults. When the pattern of -r compiles
    and, under -n, every host with an output has a status, listResults
    ends without an exception and prints a line for a host exactly from
    the output lines of the hosts of [cells] that have an output and,
    under -n, a status above 0; a line is left out when (stripped) it
    matches the pattern; it is printed stripped, or stripped on the right
    only with --preserve-spaces. *)
Theorem listResults_host_lines (cells : list string)
    (statusMap : gmap string Z) (outputMap : gmap string (list string))
    (listNegatives : bool) (regexp : option string) (preserveSpaces : bool)
    (compiledRE : option (string -> bool)) :
  (if truthy_str regexp
   then re_compile (str_or_empty regexp) = compiledRE /\ is_Some compiledRE
   else compiledRE = None) ->
  (listNegatives = true ->
   forall c, c ∈ cells -> is_Some (outputMap !! c) ->
             is_Some (statusMap !! c)) ->
  (listResults re_compile cells statusMap outputMap listNegatives regexp
     preserveSpaces).2 = None
  /\ forall c t,
       PrintLine c t
       ∈ (listResults re_compile cells statusMap outputMap listNegatives
            regexp preserveSpaces).1
       <-> c ∈ cells
           /\ exists output l,
                outputMap !! c = Some output /\ l ∈ output
                /\ (listNegatives = true ->
                    exists st, statusMap !! c = Some st /\ 0 < st)
                /\ (forall matches, compiledRE = Some matches ->
                                    matches (PyStr.strip l) = false)
                /\ t = if preserveSpaces then PyStr.rstrip l
                       else PyStr.strip l.
Proof.
  intros Hre Hkeys.
  destruct (print_cells_elem statusMap outputMap listNegatives compiledRE
              preserveSpaces cells Hkeys) as [He Hm].
  assert (Hbody : forall c t,
             PrintLine c t
             ∈ (print_cells statusMap outputMap listNegatives compiledRE
                  preserveSpaces cells).1
             <-> c ∈ cells
                 /\ exists output l,
                      outputMap !! c = Some output /\ l ∈ output
                      /\ (listNegatives = true ->
                          exists st, statusMap !! c = Some st /\ 0 < st)
                      /\ (forall matches, compiledRE = Some matches ->
                                          matches (PyStr.strip l) = false)
                      /\ t = if preserveSpaces then PyStr.rstrip l
                             else PyStr.strip l).
  { intros c t. rewrite Hm. split.
    - intros (c' & output & Hc & Ho & Hs & Hx).
      apply print_output_elem in Hx as (l & Hl & Hmt & [= -> ->]).
      split; [done|]. by exists output, l.
    - intros (Hc & output & l & Ho & Hl & Hs & Hmt & ->).
      exists c, output. split; [done|]. split; [done|]. split; [done|].
      apply print_output_elem. by exists l. }
  assert (Hok : forall c t (l : list Printed),
             PrintLine c t
             ∈ (if listNegatives
                then match okCells cells statusMap with
                     | [] => []
                     | s :: l0 => [PrintOK (s :: l0)]
                     end
                else []) ++ l
             <-> PrintLine c t ∈ l).
  { intros c t l. rewrite elem_of_app. split; [|by right].
    intros [Hx|Hx]; [|done]. exfalso.
    destruct listNegatives; [|by apply elem_of_nil in Hx].
    destruct (okCells cells statusMap); [by apply elem_of_nil in Hx|].
    apply list_elem_of_singleton in Hx. discriminate. }
  unfold listResults. destruct (truthy_str regexp).
  - destruct Hre as [-> [m Hc]]. rewrite Hc in *. simpl.
    split; [exact He|]. intros c t. rewrite Hok, elem_of_app, <- Hbody.
    split; [|by right]. intros [Hx|Hx]; [|done]. exfalso.
    destruct (reCells m cells outputMap); [by apply elem_of_nil in Hx|].
    apply list_elem_of_singleton in Hx. discriminate.
  - subst compiledRE. simpl. split; [exact He|].
    intros c t. by rewrite Hok, <- Hbody.
Qed.

(** Under -n a host whose status is not above 0 gets no line. *)
Lemma print_cells_negatives (statusMap : gmap string Z)
    (outputMap : gmap string (list string))
    (compiledRE : option (string -> bool)) (preserveSpaces : bool)
    (cells : list string) (c t : string) (st : Z) :
  statusMap !! c = Some st -> st <= 0 ->
  PrintLine c t
  ∉ (print_cells statusMap outputMap true compiledRE preserveSpaces cells).1.
Proof.
  intros Hst Hle. induction cells as [|cell rest IH];
    [by intros ?%elem_of_nil|].
  simpl. destruct (outputMap !! cell) as [output|]; [|exact IH].
  destruct (statusMap !! cell) as [st'|] eqn:Hst';
    [|by intros ?%elem_of_nil].
  destruct (0 <? st') eqn:E; [|exact IH]. simpl.
  intros [Hx|Hx]%elem_of_app; [|by apply IH].
  apply print_output_elem in Hx as (l & _ & _ & [= -> _]).
  apply Z.ltb_lt in E. rewrite Hst in Hst'. injection Hst' as <-. lia.
Qed.

(** X17. Under -n and without -r, a host whose status is below 0 (its
    child was ended by a signal) is not shown at all: it is not in the
    "OK" list, and none of its output lines is printed. *)
Theorem listResults_negatives_hide_signalled (cells : list string)
    (statusMap : gmap string Z) (outputMap : gmap string (list string))
    (regexp : option string) (preserveSpaces : bool) (c : string) (st : Z) :
  truthy_str regexp = false ->
  statusMap !! c = Some st ->
  st < 0 ->
  Forall (fun x => ~ names c x)
    (listResults re_compile cells statusMap outputMap true regexp
       preserveSpaces).1.
Proof.
  intros Hre Hst Hneg. apply Forall_forall. intros x.
  unfold listResults. rewrite Hre. simpl.
  intros [Hx|Hx]%elem_of_app.
  - destruct (okCells cells statusMap) as [|c0 l] eqn:E;
      [by apply elem_of_nil in Hx|].
    apply list_elem_of_singleton in Hx as ->. simpl. rewrite <- E.
    unfold okCells. rewrite list_elem_of_In, filter_In. intros [_ Hz].
    rewrite Hst in Hz. apply Z.eqb_eq in Hz. lia.
  - destruct x as [l|r l|c' t]; simpl.
    + exfalso. revert Hx. clear. induction cells as [|cell rest IH];
        [by intros ?%elem_of_nil|].
      simpl. destruct (outputMap !! cell) as [output|]; [|exact IH].
      destruct (statusMap !! cell) as [st'|]; [|by intros ?%elem_of_nil].
      destruct (0 <? st'); [|exact IH]. simpl.
      intros [Hx|Hx]%elem_of_app; [|by apply IH].
      by apply print_output_elem in Hx as (l0 & _ & _ & [=]).
    + exfalso. revert Hx. clear. induction cells as [|cell rest IH];
        [by intros ?%elem_of_nil|].
      simpl. destruct (outputMap !! cell) as [output|]; [|exact IH].
      destruct (statusMap !! cell) as [st'|]; [|by intros ?%elem_of_nil].
      destruct (0 <? st'); [|exact IH]. simpl.
      intros [Hx|Hx]%elem_of_app; [|by apply IH].
      by apply print_output_elem in Hx as (l0 & _ & _ & [=]).
    + intros ->. eapply print_cells_negatives; [exact Hst|lia|exact Hx].
Qed.

(** X18. The chunks that readNLines hands to listResults when a host
    returns more than maxLines lines: without -n and -r every line of the
    chunk is printed; under -n (without -r) none is, only the host is
    listed as "OK", whatever the command will return. *)
Theorem flush_chunk_prints (o : Options.t) (cell : string)
    (outputLines : list string) :
  truthy_str (Options.regexp o) = false ->
  flush_chunk re_compile o cell outputLines
  = (if Options.listNegatives o then [PrintOK [cell]]
     else map (fun l => PrintLine cell
                          (if Options.preserveSpaces o then PyStr.rstrip l
                           else PyStr.strip l)) outputLines,
     None).
Proof.
  intros Hre. unfold flush_chunk, listResults. rewrite Hre.
  unfold okCells. simpl. rewrite !lookup_singleton_eq. simpl.
  destruct (Options.listNegatives o); simpl; [done|].
  rewrite app_nil_r. f_equal. unfold print_output. f_equal.
  induction outputLines as [|l ls IH]; [done|]. simpl. by rewrite IH.
Qed.

End ListResultsFacts.

Lemma listResults_host_lines_witness :
  (listResults compile_hi ["h1"; "h2"] two_statuses two_outputs true None
     false).2 = None
  /\ forall c t,
       PrintLine c t
       ∈ (listResults compile_hi ["h1"; "h2"] two_statuses two_outputs true
            None false).1
       <-> c ∈ ["h1"; "h2"]
           /\ exists output l,
                two_outputs !! c = Some output /\ l ∈ output
                /\ (true = true ->
                    exists st, two_statuses !! c = Some st /\ 0 < st)
                /\ (forall matches, None = Some matches ->
                                    matches (PyStr.strip l) = false)
                /\ t = if false then PyStr.rstrip l else PyStr.strip l.
Proof.
  apply (listResults_host_lines compile_hi ["h1"; "h2"] two_statuses
           two_outputs true None false None).
  - reflexivity.
  - intros _ c Hc _.
    apply elem_of_cons in Hc as [->|Hc]; [by eexists|].
    apply list_elem_of_singleton in Hc as ->. by eexists.
Defined.

Lemma listResults_negatives_hide_signalled_witness :
  Forall (fun x => ~ names "h1" x)
    (listResults compile_hi ["h1"; "h2"] two_statuses two_outputs true None
       false).1.
Proof.
  apply (listResults_negatives_hide_signalled compile_hi ["h1"; "h2"]
           two_statuses two_outputs None false "h1" (-9));
    [reflexivity|reflexivity|lia].
Defined.

Lemma flush_chunk_prints_witness :
  flush_chunk compile_hi (echo_hi ["h1"] None 1) "h1" ["a"; "b"]
  = (if Options.listNegatives (echo_hi ["h1"] None 1)
     then [PrintOK ["h1"]]
     else map (fun l => PrintLine "h1"
                          (if Options.preserveSpaces (echo_hi ["h1"] None 1)
                           then PyStr.rstrip l else PyStr.strip l))
            ["a"; "b"],
     None).
Proof.
  apply (flush_chunk_prints compile_hi (echo_hi ["h1"] None 1) "h1"
           ["a"; "b"]).
  reflexivity.
Defined.

(** ** The result maps have the same hosts *)

Section Keeps.

Variable I : State -> Prop.

Lemma kp_ret {A} (a : A) : mono (keeps I) (ret a).
Proof. intros s Hs. exact Hs. Qed.


Lemma kp_gets {A} (f : State -> A) : mono (keeps I) (gets f).
Proof. intros s Hs. exact Hs. Qed.

Lemma kp_raise {A} (e : exn) : mono (keeps I) (@raise A e).
Proof. intros s Hs. exact Hs. Qed.

Lemma kp_sys_exit {A} (c : Z) : mono (keeps I) (@sys_exit A c).
Proof. intros s Hs. exact Hs. Qed.

Lemma kp_os_exit {A} (c : Z) : mono (keeps I) (@os_exit A c).
Proof. intros s Hs. exact Hs. Qed.

Lemma kp_block {A} : mono (keeps I) (@block A).
Proof. intros s Hs. exact Hs. Qed.

Lemma kp_listed (r : list Printed * option exn) : mono (keeps I) (listed r).
Proof. intros s Hs. unfold listed. by destruct r.2. Qed.

End Keeps.

Lemma sk_tick : mono (keeps same_keys) tick.
Proof. intros s Hs. exact Hs. Qed.

Lemma sk_log (e : Event) : mono (keeps same_keys) (log e).
Proof. intros s Hs. exact Hs. Qed.

Lemma sk_set_output_truncated (b : bool) :
  mono (keeps same_keys) (set_output_truncated b).
Proof. intros s Hs. exact Hs. Qed.

Lemma sk_set_child_running (b : bool) :
  mono (keeps same_keys) (set_child_running b).
Proof. intros s Hs. exact Hs. Qed.

Lemma sk_set_badCells (l : list string) :
  mono (keeps same_keys) (set_badCells l).
Proof. intros s Hs. exact Hs. Qed.

Lemma sk_set_cells_need_retry (l : list string) :
  mono (keeps same_keys) (set_cells_need_retry l).
Proof. intros s Hs. exact Hs. Qed.

Lemma sk_set_waitList (l : list (string * bool)) :
  mono (keeps same_keys) (set_waitList l).
Proof. intros s Hs. exact Hs. Qed.

Lemma sk_set_status_output (cell : string) (st : Z) (out : list string) :
  mono (keeps same_keys) (set_status_output cell st out).
Proof.
  intros s Hs c. simpl.
  destruct (decide (cell = c)) as [->|Hne].
  - rewrite !lookup_insert_eq. split; by eexists.
  - rewrite !lookup_insert_ne by done. apply Hs.
Qed.

Create HintDb sk_db.
#[local] Hint Resolve kp_ret kp_gets kp_raise kp_sys_exit kp_os_exit kp_block
  kp_listed
  sk_tick sk_log sk_set_output_truncated sk_set_child_running sk_set_badCells
  sk_set_cells_need_retry sk_set_waitList sk_set_status_output : sk_db.


Section SameKeys.

Variable w : World.
Variable p : Pass.

Local Abbreviation SK := (keeps same_keys) (only parsing).








End SameKeys.




(** ** checkVmstat *)

Section CheckVmstatFacts.

Variable py_int : string -> option Z.

(** The state of the loop after the numbers [seen]. *)
Lemma checkVmstat_loop_eq (vmOpts : list string) (seen : list Z)
    (vmstatCommand : string) :
  Forall (fun n => 1 <= n) seen ->
  (length seen <= 2)%nat ->
  checkVmstat_loop py_int vmOpts (seen !! 1%nat) (seen !! 0%nat) vmstatCommand
  = if vm_spoilt py_int vmOpts then None
    else if (length (seen ++ vm_numbers py_int vmOpts) <=? 2)%nat
         then Some ((seen ++ vm_numbers py_int vmOpts) !! 1%nat,
                    (seen ++ vm_numbers py_int vmOpts) !! 0%nat,
                    vmstatCommand +:+ vm_passed_on py_int vmOpts)
         else None.
Proof.
  revert seen vmstatCommand.
  induction vmOpts as [|op rest IH]; intros seen cmd Hpos Hlen.
  - unfold vm_spoilt, vm_numbers. simpl. rewrite app_nil_r, str_app_nil_r.
    destruct (length seen <=? 2)%nat eqn:E; [done|].
    apply Nat.leb_gt in E. lia.
  - unfold vm_spoilt, vm_numbers in *. simpl.
    destruct (non_periodic op); [done|]. simpl.
    unfold getInt in *.
    destruct (py_int op) as [n|] eqn:En; simpl.
    + destruct (n <? 1) eqn:E1.
      { by rewrite orb_true_r. }
      apply Z.ltb_ge in E1.
      assert (Hn : negb (n =? 0) = true).
      { apply negb_true_iff, Z.eqb_neq. lia. }
      rewrite Hn.
      destruct seen as [|d [|r [|x seen]]]; simpl in *; try lia.
      * etrans; [apply (IH [n] cmd); [by constructor|simpl; lia]|done].
      * assert (Hd : negb (d =? 0) = true).
        { apply negb_true_iff, Z.eqb_neq. inversion Hpos; lia. }
        rewrite Hd.
        etrans; [apply (IH [d; n] cmd); [|simpl; lia]|done].
        inversion Hpos. by repeat constructor.
      * assert (Hr : negb (r =? 0) = true).
        { apply negb_true_iff, Z.eqb_neq.
          inversion Hpos as [|? ? ? Hpos']. inversion Hpos'. lia. }
        rewrite Hr.
        by destruct (existsb non_periodic rest || _).
    + destruct (String.eqb op "-n") eqn:En'; simpl.
      * by rewrite (IH seen cmd).
      * rewrite (IH seen (cmd +:+ op +:+ " ")) by done.
        destruct (existsb non_periodic rest || _); [done|].
        destruct (length _ <=? 2)%nat; [|done].
        by rewrite !str_app_assoc.
Qed.

Lemma checkVmstat_eq (vmstatOptions : string) :
  checkVmstat py_int vmstatOptions = checkVmstat_table py_int vmstatOptions.
Proof.
  unfold checkVmstat, checkVmstat_table.
  pose proof (checkVmstat_loop_eq (PyStr.split_ws vmstatOptions) [] "vmstat "
                (Forall_nil_2 _) (Nat.le_0_l 2)) as Hloop.
  simpl in Hloop. rewrite Hloop. clear Hloop.
  destruct (vm_spoilt py_int (PyStr.split_ws vmstatOptions)) eqn:Es; [done|].
  simpl.
  assert (Hpos : Forall (fun n => 1 <= n)
                   (vm_numbers py_int (PyStr.split_ws vmstatOptions))).
  { unfold vm_spoilt in Es. apply orb_false_iff in Es as [_ Es].
    unfold vm_numbers.
    induction (PyStr.split_ws vmstatOptions) as [|op rest IH]; [done|].
    simpl in *. apply orb_false_iff in Es as [E1 E2]. unfold getInt in *.
    destruct (py_int op) as [n|]; simpl; [|by apply IH].
    constructor; [by apply Z.ltb_ge|by apply IH]. }
  destruct (vm_numbers py_int (PyStr.split_ws vmstatOptions))
    as [|d [|r [|x l]]]; simpl; [done| | |done].
  - assert (Hd : negb (d =? 0) = true).
    { apply negb_true_iff, Z.eqb_neq. inversion Hpos; lia. }
    rewrite Hd. simpl. by rewrite !str_app_assoc.
  - assert (Hd : negb (d =? 0) = true).
    { apply negb_true_iff, Z.eqb_neq. inversion Hpos; lia. }
    assert (Hr : negb (r =? 0) = true).
    { apply negb_true_iff, Z.eqb_neq.
      inversion Hpos as [|? ? ? Hpos']. inversion Hpos'. lia. }
    rewrite Hd, Hr. simpl. by rewrite !str_app_assoc.
Qed.

(** X20. checkVmstat in closed form, whatever the order of the options:
    an option of the non-periodic kind, a number below 1 or a third
    number gives (None, None); otherwise the count is 1 without a number,
    -1 (for ever) with one, and the second number with two, and the
    command is "vmstat ", the other options but -n in their order, and
    the delay (1 without a number) at the end. *)
Theorem checkVmstat_is_its_table (vmstatOptions : string) :
  checkVmstat py_int vmstatOptions = checkVmstat_table py_int vmstatOptions.
Proof. apply checkVmstat_eq. Qed.

(** X21. What checkVmstat returns is both or neither of the count and
    the command, and a count is -1 or at least 1: a count of 0 is never
    returned. *)
Theorem checkVmstat_count_range (vmstatOptions : string) :
  checkVmstat py_int vmstatOptions = (None, None)
  \/ exists count command,
       checkVmstat py_int vmstatOptions = (Some count, Some command)
       /\ (count = -1 \/ 1 <= count).
Proof.
  rewrite checkVmstat_eq. unfold checkVmstat_table.
  destruct (vm_spoilt py_int (PyStr.split_ws vmstatOptions)) eqn:Es;
    [by left|].
  assert (Hpos : Forall (fun n => 1 <= n)
                   (vm_numbers py_int (PyStr.split_ws vmstatOptions))).
  { unfold vm_spoilt in Es. apply orb_false_iff in Es as [_ Es].
    unfold vm_numbers.
    induction (PyStr.split_ws vmstatOptions) as [|op rest IH]; [done|].
    simpl in *. apply orb_false_iff in Es as [E1 E2]. unfold getInt in *.
    destruct (py_int op) as [n|]; simpl; [|by apply IH].
    constructor; [by apply Z.ltb_ge|by apply IH]. }
  destruct (vm_numbers py_int (PyStr.split_ws vmstatOptions))
    as [|d [|r [|x l]]]; [right|right|right|by left].
  - eexists _, _. split; [done|]. by right.
  - eexists _, _. split; [done|]. by left.
  - eexists _, _. split; [done|]. right.
    inversion Hpos as [|? ? ? Hpos']. by inversion Hpos'.
Qed.

End CheckVmstatFacts.

(** ** A thread stops at the first failure *)

Lemma failed_app (a b : list Event) : failed (a ++ b) <-> failed a \/ failed b.
Proof.
  unfold failed. split.
  - intros (c & rc & r & Hin & Hrc). apply in_app_or in Hin as [Hin|Hin];
      [left|right]; eauto.
  - intros [(c & rc & r & Hin & Hrc)|(c & rc & r & Hin & Hrc)];
      exists c, rc, r; (split; [|done]); apply in_or_app; auto.
Qed.

Lemma failed_nil : ~ failed [].
Proof. by intros (c & rc & r & [] & _). Qed.

Lemma failed_no_exit (evs : list Event) : Forall no_exit evs -> ~ failed evs.
Proof.
  intros HF (c & rc & r & Hin & _). rewrite Forall_forall in HF.
  apply list_elem_of_In in Hin. by apply HF in Hin.
Qed.

Lemma failed_one (e1 e3 : list Event) (c : string) (rc : Z) (r : bool) :
  Forall no_exit e1 -> Forall no_exit e3 ->
  failed (e1 ++ EvExit c rc r :: e3) -> rc <> 0.
Proof.
  intros H1 H3 [Hf|Hf]%failed_app; [by apply failed_no_exit in Hf|].
  change (EvExit c rc r :: e3) with ([EvExit c rc r] ++ e3) in Hf.
  apply failed_app in Hf as [Hf|Hf]; [|by apply failed_no_exit in Hf].
  destruct Hf as (c' & rc' & r' & [[= -> -> ->]|[]] & Hrc). exact Hrc.
Qed.

Lemma stages_nil_app (a b : list Event) :
  stages (a ++ b) = [] <-> stages a = [] /\ stages b = [].
Proof.
  rewrite stages_app. split; [apply app_eq_nil|].
  by intros [-> ->].
Qed.

Lemma fail_fast_no_stage (evs : list Event) : stages evs = [] -> fail_fast evs.
Proof.
  induction evs as [|e evs IH]; [done|].
  destruct e; simpl; try done; auto.
Qed.

Lemma fail_fast_app (a b : list Event) :
  fail_fast a -> fail_fast b -> (failed a -> stages b = []) ->
  fail_fast (a ++ b).
Proof.
  induction a as [|e a IH]; intros Ha Hb Hab; [done|].
  assert (Hab' : failed a -> stages b = []).
  { intros Hf. apply Hab. change (e :: a) with ([e] ++ a).
    apply failed_app. by right. }
  destruct e; simpl in *; try (by apply IH).
  destruct Ha as [Hrc Ha]. split; [|by apply IH].
  intros Hne. apply stages_nil_app. split; [by apply Hrc|].
  apply Hab. eexists _, _, _. split; [by left|done].
Qed.

Lemma fail_fast_split (evs pre post : list Event) (c : string) (rc : Z)
    (r : bool) :
  fail_fast evs -> evs = pre ++ EvExit c rc r :: post -> rc <> 0 ->
  stages post = [].
Proof.
  intros Hq -> Hrc. induction pre as [|e pre IH]; simpl in Hq.
  - by apply Hq.
  - apply IH. destruct e; simpl in Hq; try done. by destruct Hq.
Qed.

Lemma steps_events (P : Event -> Prop) {A} (m : M A) (s s' : State)
    (r : Res A) :
  mono (steps P) m -> m s = (r, s') ->
  exists evs, trace s' = trace s ++ evs /\ Forall P evs.
Proof.
  intros Hm Hr. specialize (Hm s). rewrite Hr in Hm.
  by apply steps_trace in Hm.
Qed.

Section FailFast.

Variable w : World.
Variable p : Pass.
Variable cell : string.

Lemma readNLines_loop_no_exit (dc : bool) (r : list string) (i : Z)
    (acc : list string) :
  mono (steps no_exit) (readNLines_loop w p cell dc r i acc).
Proof.
  revert i acc. induction r as [|l r' IH]; intros i acc; simpl.
  - mono_go.
  - destruct (Options.maxLines (options p) <? i + 1); [|apply IH].
    apply mono_bind; [mono_go|]. intros _.
    apply mono_bind; [mono_go|]. intros _. destruct dc; [apply IH|mono_go].
Qed.

Lemma execute_ssh_command_no_exit (cmd : string) (ser : bool)
    (input : list string) :
  mono (steps no_exit) (execute_ssh_command w p cell cmd ser input).
Proof.
  pose proof readNLines_loop_no_exit.
  unfold execute_ssh_command, communicate, readNLines. mono_go.
Qed.

Lemma kill_child_no_exit (pid : Z) : mono (steps no_exit) (kill_child w pid).
Proof. unfold kill_child. mono_go. Qed.

(** classify_exit records the exit status and nothing else. *)
Lemma classify_exit_events (pid returncode : Z) (banner l l' : list string)
    (s s' : State) :
  classify_exit p cell pid returncode banner l s = (Ok l', s') ->
  trace s'
  = trace s ++ [EvExit cell returncode (retry_if_needed p banner l)].
Proof.
  unfold classify_exit. intros Hb.
  apply bind_Ok_inv in Hb as ([] & s1 & Hlog & Hb).
  injection Hlog as <-.
  assert (Hm : mono (steps no_exit)
                 (if returncode =? 124
                  then ret (l ++ [timeout_line pid cell])
                  else if retry_if_needed p banner l
                       then cells_need_retry_append cell ;;; ret l
                       else if returncode =? 255
                            then badCells_append cell ;;; ret l
                            else ret l)) by mono_go.
  revert Hb. unfold cells_need_retry_append, badCells_append, bind, gets,
    set_cells_need_retry, set_badCells, modify, ret.
  destruct (returncode =? 124); [by intros [= _ <-]|].
  destruct (retry_if_needed p banner l); simpl; [by intros [= _ <-]|].
  destruct (returncode =? 255); simpl; by intros [= _ <-].
Qed.

(** The exit status runCommand returns is not 0 when that of a child
    was not. *)
Lemma runCommand_status (cmd : string) (ser : bool) (input : list string)
    (s s' : State) (st : Z * list string) (evs : list Event) :
  runCommand w p cell cmd ser input s = (Ok st, s') ->
  trace s' = trace s ++ evs ->
  failed evs -> st.1 <> 0.
Proof.
  unfold runCommand.
  destruct (pushKey (options p) && negb (konepw (options p)) && _).
  - unfold runCommand_interactive. intros Hb Ht Hf.
    apply bind_Ok_inv in Hb as (n & s1 & Htick & Hb). injection Htick as <- <-.
    apply bind_Ok_inv in Hb as ([] & s2 & Hlog & Hb). injection Hlog as <-.
    destruct (call w (clock s) (bash_command cell cmd)) as [status|e|];
      [| |discriminate].
    + apply bind_Ok_inv in Hb as ([] & s3 & Hlog & Hb). injection Hlog as <-.
      apply bind_Ok_inv in Hb as ([] & s4 & Hbad & Hb). injection Hb as <- <-.
      assert (Hm : mono (steps no_exit)
                     (if negb (status =? 0) then badCells_append_new cell
                      else ret ())) by mono_go.
      destruct (steps_events _ _ _ _ _ Hm Hbad) as (e3 & Ht3 & H3).
      simpl in Ht3. rewrite Ht3, <- !app_assoc in Ht.
      apply app_inv_head in Ht as <-. simpl in Hf. simpl.
      by apply (failed_one [EvSpawn cell (bash_command cell cmd)] e3 cell
                  status false); [repeat constructor|..].
    + apply bind_Ok_inv in Hb as ([] & s3 & _ & Hb). by injection Hb as <- _.
  - intros Hb Ht Hf.
    apply bind_Ok_inv in Hb as (n & s1 & Htick & Hb). injection Htick as <- <-.
    destruct (mkstemp w (clock s) ("." +:+ cell)) as [tmp|errno];
      [|by destruct (errno =? 24)].
    apply bind_Ok_inv in Hb as ([[[pid l] rc] banner] & s2 & Hexec & Hb).
    apply bind_Ok_inv in Hb as (l' & s3 & Hcl & Hb).
    unfold bind at 1, gets at 1 in Hb. simpl in Hb.
    unfold bind at 1, gets at 1 in Hb. simpl in Hb.
    apply bind_Ok_inv in Hb as ([] & s4 & Hkill & Hb).
    unfold bind, gets, ret in Hb. injection Hb as <- <-.
    destruct (steps_events _ _ _ _ _
                (execute_ssh_command_no_exit _ _ _) Hexec)
      as (e1 & Ht1 & H1).
    apply classify_exit_events in Hcl.
    assert (Hm : mono (steps no_exit)
                   (if output_truncated s3 && child_running s3
                    then kill_child w pid else ret ())).
    { pose proof kill_child_no_exit. mono_go. }
    destruct (steps_events _ _ _ _ _ Hm Hkill) as (e3 & Ht3 & H3).
    simpl in Ht1. rewrite Ht3, Hcl, Ht1, <- !app_assoc in Ht.
    apply app_inv_head in Ht as <-. simpl in Hf.
    apply failed_one in Hf; [|done..]. simpl.
    by destruct (output_truncated s4).
Qed.

Lemma run_stage_stops (stage : Stage) (cmd : string) (ser : bool)
    (input out : list string) :
  stops_at_failure (run_stage w p cell stage cmd ser input out).
Proof.
  intros s. unfold run_stage, bind, log, modify. simpl.
  set (s1 := {| status := status s; output := output s;
                badCells := badCells s;
                cells_need_retry := cells_need_retry s;
                waitList := waitList s;
                output_truncated := output_truncated s;
                child_running := child_running s; clock := clock s;
                trace := trace s ++ [EvStage cell stage cmd] |}).
  destruct (runCommand w p cell cmd ser input s1) as [r s2] eqn:Hrc.
  destruct (steps_events _ _ _ _ _ (runCommand_mono w p cell cmd ser input)
              Hrc) as (evs & Ht & HF).
  exists (EvStage cell stage cmd :: evs).
  assert (Htr : trace s2 = trace s ++ EvStage cell stage cmd :: evs).
  { rewrite Ht. simpl. by rewrite <- app_assoc. }
  assert (Hq : fail_fast (EvStage cell stage cmd :: evs)).
  { simpl. apply fail_fast_no_stage. by eapply stages_spawn. }
  destruct r as [[st0 l0]| | | |]; simpl; (split; [exact Htr|]);
    (split; [exact Hq|]); try discriminate.
  intros st [= <-] Hf. simpl.
  change (EvStage cell stage cmd :: evs)
    with ([EvStage cell stage cmd] ++ evs) in Hf.
  apply failed_app in Hf as [Hf|Hf].
  - by destruct Hf as (c & rc & r & [[=]|[]] & _).
  - by apply (runCommand_status _ _ _ _ _ _ _ Hrc Ht Hf).
Qed.

Lemma ret_stops (st : Z * list string) : stops_at_failure (ret st).
Proof.
  intros s. exists []. simpl. rewrite app_nil_r. split; [done|].
  split; [done|]. intros st0 _ Hf. by apply failed_nil in Hf.
Qed.

Lemma bind_stops (m : M (Z * list string))
    (f : Z * list string -> M (Z * list string)) :
  stops_at_failure m ->
  (forall st, stops_at_failure (f st)) ->
  (forall st s, st.1 <> 0 -> f st s = (Ok st, s)) ->
  stops_at_failure (bind m f).
Proof.
  intros Hm Hf Hskip s. destruct (Hm s) as (e1 & Ht1 & Hq1 & Hr1).
  unfold bind. destruct (m s) as [[st| | | |] s1]; simpl in *;
    try (exists e1; repeat (split; [done|]); discriminate).
  destruct (Hf st s1) as (e2 & Ht2 & Hq2 & Hr2).
  assert (Hstop : failed e1 -> f st s1 = (Ok st, s1) /\ e2 = []).
  { intros Hfail. pose proof (Hskip st s1 (Hr1 st eq_refl Hfail)) as Heq.
    split; [exact Heq|]. rewrite Heq in Ht2. simpl in Ht2.
    rewrite <- (app_nil_r (trace s1)) in Ht2 at 1.
    by apply app_inv_head in Ht2. }
  exists (e1 ++ e2). split; [by rewrite Ht2, Ht1, app_assoc|]. split.
  - apply fail_fast_app; [done..|]. intros Hfail.
    by destruct (Hstop Hfail) as [_ ->].
  - intros st' Hok [Hfail|Hfail]%failed_app; [|by apply Hr2].
    destruct (Hstop Hfail) as [Heq _]. rewrite Heq in Hok.
    injection Hok as <-. by apply Hr1.
Qed.

Lemma stage_key_exchange_stops (st : Z * list string) :
  stops_at_failure (stage_key_exchange w p cell st).
Proof.
  unfold stage_key_exchange.
  destruct (_ && _); [apply run_stage_stops|apply ret_stops].
Qed.

Lemma stage_mkdir_stops (st : Z * list string) :
  stops_at_failure (stage_mkdir w p cell st).
Proof.
  unfold stage_mkdir.
  destruct (_ && _ && _); [apply run_stage_stops|apply ret_stops].
Qed.

Lemma stage_copy_stops (st : Z * list string) :
  stops_at_failure (stage_copy w p cell st).
Proof.
  unfold stage_copy.
  destruct (_ && _); [apply run_stage_stops|apply ret_stops].
Qed.

Lemma stage_command_stops (st : Z * list string) :
  stops_at_failure (stage_command w p cell st).
Proof.
  unfold stage_command.
  destruct (_ && _); [apply run_stage_stops|apply ret_stops].
Qed.

Lemma stage_key_drop_stops (st : Z * list string) :
  stops_at_failure (stage_key_drop w p cell st).
Proof.
  unfold stage_key_drop.
  destruct (_ && _ && _); [apply run_stage_stops|apply ret_stops].
Qed.

(** After a failure the stages that follow are passed over. *)
Lemma stage_mkdir_skip (st : Z * list string) (s : State) :
  st.1 <> 0 -> stage_mkdir w p cell st s = (Ok st, s).
Proof.
  intros Hne. unfold stage_mkdir. apply Z.eqb_neq in Hne. by rewrite Hne.
Qed.

Lemma stage_copy_skip (st : Z * list string) (s : State) :
  st.1 <> 0 -> stage_copy w p cell st s = (Ok st, s).
Proof.
  intros Hne. unfold stage_copy. apply Z.eqb_neq in Hne. by rewrite Hne.
Qed.

Lemma stage_command_skip (st : Z * list string) (s : State) :
  st.1 <> 0 -> stage_command w p cell st s = (Ok st, s).
Proof.
  intros Hne. unfold stage_command. apply Z.eqb_neq in Hne. by rewrite Hne.
Qed.

Lemma stage_key_drop_skip (st : Z * list string) (s : State) :
  st.1 <> 0 -> stage_key_drop w p cell st s = (Ok st, s).
Proof.
  intros Hne. unfold stage_key_drop. apply Z.eqb_neq in Hne. by rewrite Hne.
Qed.

Lemma run_before_drop_stops : stops_at_failure (run_before_drop w p cell).
Proof.
  unfold run_before_drop.
  apply bind_stops; [apply stage_key_exchange_stops| |].
  - intros st. apply bind_stops; [apply stage_mkdir_stops| |].
    + intros st2. apply bind_stops;
        [apply stage_copy_stops|apply stage_command_stops|].
      intros st3 s. apply stage_command_skip.
    + intros st2 s Hne. unfold bind. rewrite stage_copy_skip by done.
      by apply stage_command_skip.
  - intros st s Hne. unfold bind. rewrite stage_mkdir_skip by done.
    rewrite stage_copy_skip by done. by apply stage_command_skip.
Qed.

(** X22. A worker thread stops at the first failure. Once a child (ssh,
    scp or the interactive key push) has ended with a status that is not
    0, the thread enters no further stage, whatever happens next; and
    when the thread ends normally after such a failure, the status it
    records for its host is not 0. *)
Theorem run_stops_at_first_failure (s : State) :
  exists evs,
    trace (run w p cell s).2 = trace s ++ evs
    /\ (forall pre c rc retry post,
          evs = pre ++ EvExit c rc retry :: post -> rc <> 0 ->
          stages post = [])
    /\ ((run w p cell s).1 = Ok tt ->
        (exists c rc retry, In (EvExit c rc retry) evs /\ rc <> 0) ->
        exists st, status (run w p cell s).2 !! cell = Some st /\ st <> 0).
Proof.
  assert (Hm : stops_at_failure
                 (st <- run_before_drop w p cell ;; stage_key_drop w p cell st)).
  { apply bind_stops;
      [apply run_before_drop_stops|apply stage_key_drop_stops|].
    intros st s0. apply stage_key_drop_skip. }
  assert (Heq : run w p cell s
                = bind (st <- run_before_drop w p cell ;;
                        stage_key_drop w p cell st)
                    (fun st => set_status_output cell st.1 st.2) s).
  { unfold run. by rewrite bind_assoc. }
  rewrite Heq. clear Heq. revert Hm.
  generalize (st <- run_before_drop w p cell ;; stage_key_drop w p cell st).
  intros m Hm. destruct (Hm s) as (evs & Ht & Hq & Hr).
  exists evs. unfold bind.
  destruct (m s) as [[st| | | |] s1]; simpl in *;
    (split; [exact Ht|]);
    (split; [intros pre c rc retry post; by apply fail_fast_split|]);
    try discriminate.
  intros _ Hf. exists st.1. split; [by rewrite lookup_insert_eq|].
  by apply Hr.
Qed.

End FailFast.

(** ** listVmstatLine *)

Lemma str_length_app (a b : string) :
  String.length (a +:+ b) = (String.length a + String.length b)%nat.
Proof.
  induction a as [|c a IH]; [done|].
  rewrite str_app_cons. simpl. by rewrite IH.
Qed.

Lemma str_length_spaces (n : nat) :
  String.length (string_of_list_ascii (repeat " "%char n)) = n.
Proof. induction n as [|n IH]; [done|]. simpl. by rewrite IH. Qed.

Lemma rjust_length (width : Z) (s : string) :
  Z.of_nat (String.length (rjust width s))
  = Z.max width (Z.of_nat (String.length s)).
Proof.
  unfold rjust. rewrite str_length_app, str_length_spaces. lia.
Qed.

Lemma listVmstatLine_loop_length (widths : list Z) (values : list string)
    (result : string) :
  (length values <= length widths)%nat ->
  exists line,
    listVmstatLine_loop widths values result = Some line
    /\ Z.of_nat (String.length line)
       = Z.of_nat (String.length result) + fields_room widths values.
Proof.
  revert widths result.
  induction values as [|v values IH]; intros widths result Hlen.
  - exists result. split; [done|]. destruct widths; simpl; lia.
  - destruct widths as [|width widths]; [simpl in Hlen; lia|].
    simpl in Hlen. simpl listVmstatLine_loop.
    destruct (IH widths (result +:+ rjust width v +:+ " ")) as (line & -> & Hl);
      [lia|].
    exists line. split; [done|]. rewrite Hl.
    rewrite !str_length_app. simpl String.length. simpl fields_room.
    pose proof (rjust_length width v). lia.
Qed.

Lemma listVmstatLine_loop_short (widths : list Z) (values : list string)
    (result : string) :
  (length widths < length values)%nat ->
  listVmstatLine_loop widths values result = None.
Proof.
  revert widths result.
  induction values as [|v values IH]; intros widths result Hlen;
    [simpl in Hlen; lia|].
  destruct widths as [|width widths]; [done|].
  simpl. apply IH. simpl in Hlen. lia.
Qed.

(** X23. listVmstatLine ends with an IndexError exactly when there are
    more values than widths; otherwise the line it returns has, for
    every value, the room of its width (or of its own length when it is
    longer) and of one space: rows whose values fit the same widths have
    the same length. *)
Theorem listVmstatLine_fields (widths : list Z) (values : list string) :
  ((length widths < length values)%nat ->
   listVmstatLine widths values = None)
  /\ ((length values <= length widths)%nat ->
      exists line,
        listVmstatLine widths values = Some line
        /\ Z.of_nat (String.length line) = fields_room widths values).
Proof.
  split; [apply listVmstatLine_loop_short|].
  intros Hlen.
  destruct (listVmstatLine_loop_length widths values EmptyString Hlen)
    as (line & Heq & Hl).
  exists line. split; [exact Heq|]. by rewrite Hl.
Qed.
